(** * A video feed: pagination, snap scrolling and playback synchronisation

    Shallow embedding of the three variants of the [App] component of the
    feed (a React function component written in TypeScript):

    - [Paginated] : the infinite-scroll variant ([fetchVideos] with pages,
      [loadMore], the look-ahead effect);
    - [Snap]      : the gesture-driven variant ([snapToIndex], [handleWheel],
      the touch handlers, the play/pause effect);
    - the parts the variants share (the response shaping, the video
      elements, [handleVideoClick], the mute effect) come first.

    React state is a record, a [useRef] box is a field of the same record,
    a [setX] call is a field update, an effect is a function from state to
    state that receives the values its closure captured at render time. *)

From Stdlib Require Import ZArith String List Bool Lia.
From stdpp Require Import gmap strings list fin_maps pretty.
From Stdlib Require QArith.
From Stdlib Require Import PrimFloat.

(* Decimal literals such as 0.12 denote the nearest binary64 value, as
   they do in the source. *)
#[local] Set Warnings "-inexact-float".

Local Open Scope string_scope.
Local Open Scope Z_scope.

(* ===================================================================== *)
(** * Shared data model                                                   *)
(* ===================================================================== *)

Record PexelsUser := mkPexelsUser {
  user_id : Z;
  user_name : string;
  user_url : string
}.

Record PexelsVideoFile := mkPexelsVideoFile {
  file_id : Z;
  quality : string;
  file_type : string;
  width : Z;
  height : Z;
  link : string
}.

(** [user] is read with [?.] in the source, so it may be missing. *)
Record PexelsVideo := mkPexelsVideo {
  pv_id : Z;
  pv_duration : Z;
  image : string;
  user : option PexelsUser;
  video_files : list PexelsVideoFile
}.

Record FeedVideo := mkFeedVideo {
  id : Z;
  src : string;
  previewImage : string;
  duration : Z;
  photographer : string;
  photographerUrl : string
}.

Inductive Status := idle | loading | success | error.

#[global] Instance Status_eq_dec : EqDecision Status.
Proof. solve_decision. Defined.

#[global] Instance FeedVideo_eq_dec : EqDecision FeedVideo.
Proof. solve_decision. Defined.

(** The ids of a feed, in feed order. *)
Definition ids (l : list FeedVideo) : list Z := id <$> l.

(** ** Response shaping

    The body of the [.map] callback applied to every record of
    [data.videos]: keep the mp4 renditions, prefer the one labelled hd,
    then sd, then the first; a record without mp4 rendition gives [null]. *)
Definition toFeedVideo (video : PexelsVideo) : option FeedVideo :=
  let mp4Files :=
    List.filter (fun file => String.eqb (file_type file) "video/mp4")
                (video_files video) in
  match mp4Files with
  | [] => None
  | first :: _ =>
      let preferred :=
        match List.find (fun file => String.eqb (quality file) "hd") mp4Files with
        | Some f => f
        | None =>
            match List.find (fun file => String.eqb (quality file) "sd") mp4Files with
            | Some f => f
            | None => first
            end
        end in
      Some {| id := pv_id video;
              src := link preferred;
              previewImage := image video;
              duration := pv_duration video;
              photographer :=
                match user video with
                | Some u => user_name u
                | None => "Unknown creator"
                end;
              photographerUrl :=
                match user video with
                | Some u => user_url u
                | None => "https://www.pexels.com/videos/"
                end |}
  end.

(** [data.videos.map(...).filter(Boolean)] *)
Definition formatVideos (data_videos : list PexelsVideo) : list FeedVideo :=
  omap toFeedVideo data_videos.

(** ** The API key

    [import.meta.env.VITE_PEXELS_API_KEY ?? '<literal>']: the environment
    entry is a string or undefined; [??] takes the right operand only for
    undefined, so an entry that is the empty string stays empty. *)
Definition FALLBACK_API_KEY : string :=
  "oigofsD0VKNu7nW2ah8RZQ2hxY0z2KeT3jL2qhcj2uAB0ckoQtxZw5m5".

Definition API_KEY (VITE_PEXELS_API_KEY : option string) : string :=
  match VITE_PEXELS_API_KEY with
  | Some key => key
  | None => FALLBACK_API_KEY
  end.

(** [!key] on a string. *)
Definition falsy (key : string) : bool := String.eqb key "".

(** ** What the [try] block can meet

    Either the request is answered ([response.ok], the status line and, for
    an ok answer, the parsed [videos] array), or something is thrown: by
    [fetch] (transport failure, abort) or by [response.json()]. *)
Inductive Thrown :=
  | DOMAbortError
  | ErrorWithMessage (message : string)
  | NotAnError.

Inductive FetchResult :=
  | Responded (ok : bool) (http_status : Z) (statusText : string)
              (data_videos : list PexelsVideo)
  | Threw (t : Thrown).

(** The [try] block up to [const data]: the parsed records, or the value
    the [catch] clause receives. *)
Definition tryBlock (r : FetchResult) : Thrown + list PexelsVideo :=
  match r with
  | Responded true _ _ data_videos => inr data_videos
  | Responded false st txt _ =>
      inl (ErrorWithMessage
             (String.append "Failed to fetch videos ("
                (String.append (pretty st)
                   (String.append " " (String.append txt ")")))))
  | Threw t => inl t
  end.

Definition isAbortError (t : Thrown) : bool :=
  match t with DOMAbortError => true | _ => false end.

(** [error instanceof Error ? error.message : 'Something went wrong.'];
    a DOMException is an Error, its message is not modelled further. *)
Definition messageOf (t : Thrown) : string :=
  match t with
  | ErrorWithMessage m => m
  | DOMAbortError => "The operation was aborted."
  | NotAnError => "Something went wrong."
  end.

(** ** Video elements

    What the component reads and writes of an [HTMLVideoElement]. [play()]
    is a request: the element leaves the paused state, the promise is
    ignored. [currentTime] is in milliseconds. *)
Record VideoElement := mkVideoElement {
  muted : bool;
  paused : bool;
  currentTime : Z
}.

#[global] Instance VideoElement_eq_dec : EqDecision VideoElement.
Proof. solve_decision. Defined.

(** [<video muted loop playsInline preload="metadata">], just mounted. *)
Definition mountedElement : VideoElement :=
  {| muted := true; paused := true; currentTime := 0 |}.

Definition play (e : VideoElement) : VideoElement :=
  {| muted := muted e; paused := false; currentTime := currentTime e |}.

Definition pause (e : VideoElement) : VideoElement :=
  {| muted := muted e; paused := true; currentTime := currentTime e |}.

Definition setMuted (b : bool) (e : VideoElement) : VideoElement :=
  {| muted := b; paused := paused e; currentTime := currentTime e |}.

Definition setCurrentTime (t : Z) (e : VideoElement) : VideoElement :=
  {| muted := muted e; paused := paused e; currentTime := t |}.

Definition playing (e : VideoElement) : Prop := paused e = false.

(** [videoRefs.current]: the record from video id to element. The
    callback of [registerVideo] deletes the entry when the node is null,
    so no entry holds null and the [if (!element) return] guards of the
    loops never fire. *)
Abbreviation VideoRefs := (gmap Z VideoElement).

(** [Object.entries(videoRefs.current).forEach(...)]: the body runs once
    per entry, in key order, on an accumulator that holds whatever the
    body mutates. *)
Definition forEachEntry {A} (body : A -> Z * VideoElement -> A)
    (refs : VideoRefs) (a : A) : A :=
  foldl body a (map_to_list refs).

(** [videos.findIndex((v) => v.id === videoId)] *)
Definition findIndex (videos : list FeedVideo) (videoId : Z) : Z :=
  match list_find (fun v => id v = videoId) videos with
  | Some (i, _) => Z.of_nat i
  | None => -1
  end.

(** The ref callbacks of one commit: every rendered video registers its
    node under its id; a node that was there before keeps its state, a new
    one is as mounted. *)
Definition attachRefs (videos : list FeedVideo) (refs : VideoRefs) : VideoRefs :=
  list_to_map
    ((fun v => (id v, default mountedElement (refs !! id v))) <$> videos).

(** [unmutedVideoId === null || numericId !== unmutedVideoId] *)
Definition shouldMute (unmutedVideoId : option Z) (numericId : Z) : bool :=
  match unmutedVideoId with
  | None => true
  | Some u => negb (numericId =? u)
  end.

(** The effect with dependency [unmutedVideoId]. *)
Definition muteEffect (unmutedVideoId : option Z) (refs : VideoRefs) : VideoRefs :=
  forEachEntry
    (fun m '(videoId, _) =>
       alter (setMuted (shouldMute unmutedVideoId videoId)) videoId m)
    refs refs.

(** [handleVideoClick]: the elements after the call and the value given to
    [setUnmutedVideoId], if it was called. *)
Definition handleVideoClick (unmutedVideoId : option Z) (id : Z)
    (refs : VideoRefs) : VideoRefs * option (option Z) :=
  match refs !! id with
  | None => (refs, None)
  | Some _ =>
      let isActive := bool_decide (unmutedVideoId = Some id) in
      if isActive then (alter (setMuted true) id refs, Some None)
      else
        let refs1 :=
          forEachEntry
            (fun m '(videoId, _) => alter (setMuted (negb (videoId =? id))) videoId m)
            refs refs in
        let refs2 := alter (setMuted false) id refs1 in
        let refs3 := alter play id refs2 in
        (refs3, Some (Some id))
  end.

(* ===================================================================== *)
(** * The paginated variant                                               *)
(* ===================================================================== *)

Module Paginated.

Definition PER_PAGE : Z := 12.

(** A request as [fetch] receives it: the query of the url, the
    Authorization header, and the controller whose signal it carries. *)
Record Request := mkRequest {
  req_per_page : Z;
  req_page : Z;
  req_authorization : string;
  req_controller : nat
}.

(** The state [fetchVideos], [loadMore] and the look-ahead effect read and
    write. Controllers are numbered in creation order; [issued] is the log
    of the calls to [fetch], latest first. *)
Record State := mkState {
  videos : list FeedVideo;
  status : Status;
  errorMessage : option string;
  currentIndex : Z;
  page : Z;
  hasMore : bool;
  isLoadingMore : bool;
  fetchController : option nat;
  controllers : nat;
  aborted : gset nat;
  issued : list Request
}.

Definition initial : State :=
  {| videos := []; status := idle; errorMessage := None; currentIndex := 0;
     page := 1; hasMore := true; isLoadingMore := false;
     fetchController := None; controllers := 0%nat; aborted := ∅;
     issued := [] |}.

Definition setVideos (f : list FeedVideo -> list FeedVideo) (s : State) : State :=
  mkState (f (videos s)) (status s) (errorMessage s) (currentIndex s) (page s)
          (hasMore s) (isLoadingMore s) (fetchController s) (controllers s)
          (aborted s) (issued s).

Definition setStatus (x : Status) (s : State) : State :=
  mkState (videos s) x (errorMessage s) (currentIndex s) (page s)
          (hasMore s) (isLoadingMore s) (fetchController s) (controllers s)
          (aborted s) (issued s).

Definition setErrorMessage (x : option string) (s : State) : State :=
  mkState (videos s) (status s) x (currentIndex s) (page s)
          (hasMore s) (isLoadingMore s) (fetchController s) (controllers s)
          (aborted s) (issued s).

Definition setCurrentIndex (x : Z) (s : State) : State :=
  mkState (videos s) (status s) (errorMessage s) x (page s)
          (hasMore s) (isLoadingMore s) (fetchController s) (controllers s)
          (aborted s) (issued s).

Definition setPage (x : Z) (s : State) : State :=
  mkState (videos s) (status s) (errorMessage s) (currentIndex s) x
          (hasMore s) (isLoadingMore s) (fetchController s) (controllers s)
          (aborted s) (issued s).

Definition setHasMore (x : bool) (s : State) : State :=
  mkState (videos s) (status s) (errorMessage s) (currentIndex s) (page s)
          x (isLoadingMore s) (fetchController s) (controllers s)
          (aborted s) (issued s).

Definition setIsLoadingMore (x : bool) (s : State) : State :=
  mkState (videos s) (status s) (errorMessage s) (currentIndex s) (page s)
          (hasMore s) x (fetchController s) (controllers s)
          (aborted s) (issued s).

(** [const controller = new AbortController();
     fetchController.current?.abort(); fetchController.current = controller] *)
Definition newController (s : State) : State :=
  mkState (videos s) (status s) (errorMessage s) (currentIndex s) (page s)
          (hasMore s) (isLoadingMore s) (Some (controllers s))
          (S (controllers s))
          (match fetchController s with
           | Some c => {[c]} ∪ aborted s
           | None => aborted s
           end)
          (issued s).

Definition fetch (r : Request) (s : State) : State :=
  mkState (videos s) (status s) (errorMessage s) (currentIndex s) (page s)
          (hasMore s) (isLoadingMore s) (fetchController s) (controllers s)
          (aborted s) (r :: issued s).

(** The updater passed to [setVideos]. *)
Definition mergePage (append : bool) (formatted prev : list FeedVideo)
  : list FeedVideo :=
  if negb append then formatted
  else
    let existingIds : gset Z := list_to_set (ids prev) in
    let uniqueNew :=
      List.filter (fun video => bool_decide (id video ∉ existingIds)) formatted in
    prev ++ uniqueNew.

Section WithKey.

(** The module constant, resolved once when the module is loaded. *)
Variable KEY : string.

(** [fetchVideos] up to its first [await]: [None] when it has already
    returned false (no key), otherwise the controller of the request it
    issued. *)
Definition fetchVideos_begin (pageToLoad : Z) (append : bool) (s : State)
  : State * option nat :=
  if falsy KEY then
    (setErrorMessage (Some "Missing Pexels API key.") (setStatus error s), None)
  else
    let controller := controllers s in
    let s1 := newController s in
    let s2 :=
      if negb append
      then setErrorMessage None (setStatus loading s1)
      else setIsLoadingMore true s1 in
    (fetch (mkRequest PER_PAGE pageToLoad KEY controller) s2, Some controller).

(** [fetchVideos] from the [await] on: the rest of the [try] block, the
    [catch] and the [finally]; the boolean is the value it resolves to. *)
Definition fetchVideos_end (append : bool) (r : FetchResult) (s : State)
  : State * bool :=
  let finally (s : State) :=
    if append then setIsLoadingMore false s else s in
  match tryBlock r with
  | inr data_videos =>
      let formatted := formatVideos data_videos in
      let s1 := setVideos (mergePage append formatted) s in
      let s2 := setHasMore (Z.of_nat (length data_videos) =? PER_PAGE) s1 in
      let s3 := setStatus success s2 in
      (finally s3, true)
  | inl t =>
      let s1 :=
        if negb append && negb (isAbortError t)
        then setStatus error (setErrorMessage (Some (messageOf t)) s)
        else s in
      (finally s1, false)
  end.

(** [loadMore] up to the [await]: the guard, and the page it asked for. *)
Definition loadMore_begin (s : State) : State * option Z :=
  if negb (hasMore s) || isLoadingMore s then (s, None)
  else
    let nextPage := page s + 1 in
    match fetchVideos_begin nextPage true s with
    | (s', Some _) => (s', Some nextPage)
    | (s', None) => (s', None)
    end.

(** [loadMore] after the [await]. *)
Definition loadMore_end (nextPage : Z) (r : FetchResult) (s : State) : State :=
  let '(s', loaded) := fetchVideos_end true r s in
  if loaded then setPage nextPage s' else s'.

(** The effect that loads the first page on mount. *)
Definition mountEffect (s : State) : State :=
  fst (fetchVideos_begin 1 false s).

(** The look-ahead effect. *)
Definition lookaheadEffect (s : State) : State :=
  if negb (hasMore s) || isLoadingMore s || (Z.of_nat (length (videos s)) =? 0)
  then s
  else
    let remaining := Z.of_nat (length (videos s)) - (currentIndex s + 1) in
    if remaining <=? 4 then fst (loadMore_begin s) else s.

(** One index transition as the look-ahead effect sees it: the index is
    set, the component renders, the effect runs; when the effect changed
    [isLoadingMore] the component renders again and the effect runs once
    more. *)
Definition advance (s : State) : State :=
  let s1 := lookaheadEffect (setCurrentIndex (currentIndex s + 1) s) in
  if bool_decide (isLoadingMore s1 = isLoadingMore s) then s1
  else lookaheadEffect s1.

Fixpoint advances (n : nat) (s : State) : State :=
  match n with
  | O => s
  | S n' => advance (advances n' s)
  end.

End WithKey.

End Paginated.

(* ===================================================================== *)
(** * The snap-scrolling variant                                          *)
(* ===================================================================== *)

Module Snap.

(** [scrollState.current]. The field [animationFrame] is never assigned
    and is left out. Coordinates and deltas are JS numbers, that is
    binary64 floats, with the arithmetic of the source ([+], [-], [*] and
    the comparisons are those of IEEE 754); [lastScrollTime] holds
    [Date.now()], a whole number of milliseconds. *)
Record ScrollState := mkScrollState {
  isScrolling : bool;
  isDragging : bool;
  startY : float;
  currentY : float;
  lastScrollTime : Z;
  accumulatedDelta : float;
  targetIndex : Z
}.

(** The inline style the handlers write on a card. The argument of
    [translateY] is the number the template string prints, in pixels. *)
Inductive Transform :=
  | transform_empty
  | translateY_scale1 (px : float).

Inductive Transition :=
  | transition_empty
  | transition_none
  | transition_bounce.

Record CardStyle := mkCardStyle {
  transform : Transform;
  transition : Transition
}.

(** The [useState] cells; a render closes over one value of this record. *)
Record React := mkReact {
  videos : list FeedVideo;
  status : Status;
  errorMessage : option string;
  unmutedVideoId : option Z;
  currentIndex : Z
}.

#[global] Instance React_eq_dec : EqDecision React.
Proof. solve_decision. Defined.

(** The component instance: the state cells, the refs and the parts of the
    page the handlers touch. [cardStyles] maps a card index to its inline
    style (no entry: nothing set); [snapTimers] counts the timeouts that
    [snapToIndex] has scheduled and that have not fired; [wheelTimeout]
    tells whether the idle timeout of the wheel handler is pending. *)
Record State := mkState {
  react : React;
  videoRefs : VideoRefs;
  scrollState : ScrollState;
  cardStyles : gmap Z CardStyle;
  snapTimers : nat;
  wheelTimeout : bool
}.

Definition initial : State :=
  {| react := mkReact [] idle None None 0;
     videoRefs := ∅;
     scrollState := mkScrollState false false 0 0 0%Z 0 0%Z;
     cardStyles := ∅;
     snapTimers := 0%nat;
     wheelTimeout := false |}.

Definition withReact (f : React -> React) (s : State) : State :=
  mkState (f (react s)) (videoRefs s) (scrollState s) (cardStyles s)
          (snapTimers s) (wheelTimeout s).

Definition withRefs (f : VideoRefs -> VideoRefs) (s : State) : State :=
  mkState (react s) (f (videoRefs s)) (scrollState s) (cardStyles s)
          (snapTimers s) (wheelTimeout s).

Definition withScroll (f : ScrollState -> ScrollState) (s : State) : State :=
  mkState (react s) (videoRefs s) (f (scrollState s)) (cardStyles s)
          (snapTimers s) (wheelTimeout s).

Definition withStyles (f : gmap Z CardStyle -> gmap Z CardStyle) (s : State) : State :=
  mkState (react s) (videoRefs s) (scrollState s) (f (cardStyles s))
          (snapTimers s) (wheelTimeout s).

Definition withSnapTimers (f : nat -> nat) (s : State) : State :=
  mkState (react s) (videoRefs s) (scrollState s) (cardStyles s)
          (f (snapTimers s)) (wheelTimeout s).

Definition withWheelTimeout (b : bool) (s : State) : State :=
  mkState (react s) (videoRefs s) (scrollState s) (cardStyles s)
          (snapTimers s) b.

Definition setVideos (x : list FeedVideo) : State -> State :=
  withReact (fun r => mkReact x (status r) (errorMessage r) (unmutedVideoId r)
                              (currentIndex r)).

Definition setStatus (x : Status) : State -> State :=
  withReact (fun r => mkReact (videos r) x (errorMessage r) (unmutedVideoId r)
                              (currentIndex r)).

Definition setErrorMessage (x : option string) : State -> State :=
  withReact (fun r => mkReact (videos r) (status r) x (unmutedVideoId r)
                              (currentIndex r)).

Definition setUnmutedVideoId (x : option Z) : State -> State :=
  withReact (fun r => mkReact (videos r) (status r) (errorMessage r) x
                              (currentIndex r)).

Definition setCurrentIndex (x : Z) : State -> State :=
  withReact (fun r => mkReact (videos r) (status r) (errorMessage r)
                              (unmutedVideoId r) x).

Definition set_isScrolling (b : bool) (ss : ScrollState) : ScrollState :=
  mkScrollState b (isDragging ss) (startY ss) (currentY ss)
                (lastScrollTime ss) (accumulatedDelta ss) (targetIndex ss).

Definition set_isDragging (b : bool) (ss : ScrollState) : ScrollState :=
  mkScrollState (isScrolling ss) b (startY ss) (currentY ss)
                (lastScrollTime ss) (accumulatedDelta ss) (targetIndex ss).

Definition set_startY (y : float) (ss : ScrollState) : ScrollState :=
  mkScrollState (isScrolling ss) (isDragging ss) y (currentY ss)
                (lastScrollTime ss) (accumulatedDelta ss) (targetIndex ss).

Definition set_currentY (y : float) (ss : ScrollState) : ScrollState :=
  mkScrollState (isScrolling ss) (isDragging ss) (startY ss) y
                (lastScrollTime ss) (accumulatedDelta ss) (targetIndex ss).

Definition set_lastScrollTime (t : Z) (ss : ScrollState) : ScrollState :=
  mkScrollState (isScrolling ss) (isDragging ss) (startY ss) (currentY ss)
                t (accumulatedDelta ss) (targetIndex ss).

Definition set_accumulatedDelta (d : float) (ss : ScrollState) : ScrollState :=
  mkScrollState (isScrolling ss) (isDragging ss) (startY ss) (currentY ss)
                (lastScrollTime ss) d (targetIndex ss).

Definition set_targetIndex (i : Z) (ss : ScrollState) : ScrollState :=
  mkScrollState (isScrolling ss) (isDragging ss) (startY ss) (currentY ss)
                (lastScrollTime ss) (accumulatedDelta ss) i.

(** [getCardByIndex]: the cards of the feed are the rendered videos, in
    order, and [feedRef.current] is set once the component is mounted; the
    result is the index itself when a card is there. *)
Definition getCardByIndex (c : React) (index : Z) : option Z :=
  if (0 <=? index) && (index <? Z.of_nat (length (videos c)))
  then Some index else None.

(** Assigning [style.transform] and [style.transition] of a card that may
    be null. *)
Definition styleCard (card : option Z) (st : CardStyle) (s : State) : State :=
  match card with
  | Some i => withStyles (insert i st) s
  | None => s
  end.

(** [Math.min] and [Math.max] of two numbers: NaN when an argument is
    NaN, and -0 counts as smaller than +0. *)
Definition Math_min (a b : float) : float :=
  if is_nan a || is_nan b then nan
  else if (a <? b)%float then a
  else if (b <? a)%float then b
  else if get_sign a then a else b.

Definition Math_max (a b : float) : float :=
  if is_nan a || is_nan b then nan
  else if (a <? b)%float then b
  else if (b <? a)%float then a
  else if get_sign a then b else a.

(** [Math.max(-50, Math.min(50, translateY))] *)
Definition clampTranslate (px : float) : float :=
  Math_max (-50) (Math_min 50 px).

(** [snapToIndex(targetIndex, immediate)], with the values [c] its closure
    holds. *)
Definition snapToIndex (c : React) (target : Z) (immediate : bool) (s : State)
  : State :=
  let clampedIndex :=
    Z.max 0 (Z.min target (Z.of_nat (length (videos c)) - 1)) in
  if (clampedIndex =? currentIndex c) && negb immediate then s
  else
    match getCardByIndex c clampedIndex with
    | None => s
    | Some _ =>
        let s1 :=
          withScroll
            (fun ss => set_accumulatedDelta 0
                         (set_targetIndex clampedIndex (set_isScrolling true ss)))
            s in
        let s2 :=
          styleCard (getCardByIndex c (currentIndex c))
                    (mkCardStyle transform_empty transition_empty) s1 in
        (* targetCard.scrollIntoView: the scroll position is read nowhere *)
        let s3 := setCurrentIndex clampedIndex s2 in
        withSnapTimers S s3
    end.

(** The callback of the timeout that [snapToIndex] schedules. *)
Definition snapTimeoutCallback (s : State) : State :=
  withScroll (set_isScrolling false) s.

(** The body of the loop in the play/pause effect. *)
Definition playPauseBody (c : React) (s : State) (entry : Z * VideoElement)
  : State :=
  let videoId := fst entry in
  let videoIndex := findIndex (videos c) videoId in
  let isActive := videoIndex =? currentIndex c in
  if isActive then withRefs (alter play videoId) s
  else
    let s1 := withRefs (alter pause videoId) s in
    let s2 := withRefs (alter (setCurrentTime 0) videoId) s1 in
    if bool_decide (unmutedVideoId c = Some videoId)
    then setUnmutedVideoId None (withRefs (alter (setMuted true) videoId) s2)
    else s2.

(** The play/pause effect. *)
Definition playPauseEffect (c : React) (s : State) : State :=
  if (length (videos c) =? 0)%nat then s
  else forEachEntry (playPauseBody c) (videoRefs s) s.

(** [threshold = cardHeight * 0.01] and [Math.abs(delta) >= threshold] *)
Definition crossesWheelThreshold (delta cardHeight : float) : bool :=
  (cardHeight * 0.01 <=? abs delta)%float.

(** [threshold = cardHeight * 0.25] *)
Definition crossesTouchThreshold (delta cardHeight : float) : bool :=
  (cardHeight * 0.25 <=? abs delta)%float.

(** [handleWheel]; [deltaY] is [event.deltaY], [now] is [Date.now()],
    [cardHeight] is [feedEl.clientHeight]. *)
Definition handleWheel (c : React) (deltaY : float) (now : Z)
    (cardHeight : float) (s : State) : State :=
  if isScrolling (scrollState s) then s
  else
    let s1 := withScroll (set_lastScrollTime now) s in
    let s2 :=
      withScroll
        (fun ss => set_accumulatedDelta (accumulatedDelta ss + deltaY)%float ss)
        s1 in
    let s3 := withWheelTimeout false s2 in
    let acc := accumulatedDelta (scrollState s3) in
    let s4 :=
      if crossesWheelThreshold acc cardHeight then
        let direction := if (0 <? acc)%float then 1 else -1 in
        let nextIndex := currentIndex c + direction in
        if (0 <=? nextIndex) && (nextIndex <? Z.of_nat (length (videos c))) then
          withScroll (set_accumulatedDelta 0) (snapToIndex c nextIndex false s3)
        else
          styleCard (getCardByIndex c (currentIndex c))
                    (mkCardStyle
                       (translateY_scale1 (clampTranslate (- acc * 0.12)%float))
                       transition_none)
                    s3
      else
        styleCard (getCardByIndex c (currentIndex c))
                  (mkCardStyle (translateY_scale1 (- acc * 0.5)%float)
                               transition_none)
                  s3 in
    withWheelTimeout true s4.

(** The callback of the idle timeout of [handleWheel]. *)
Definition wheelTimeoutCallback (c : React) (s : State) : State :=
  let s1 :=
    if negb (isScrolling (scrollState s)) then
      styleCard (getCardByIndex c (currentIndex c))
                (mkCardStyle transform_empty transition_bounce) s
    else s in
  withWheelTimeout false (withScroll (set_accumulatedDelta 0) s1).

(** [handleTouchStart]; [clientY] is [event.touches[0]?.clientY]. *)
Definition handleTouchStart (clientY : option float) (s : State) : State :=
  if isScrolling (scrollState s) then s
  else
    withScroll
      (fun ss =>
         let ss1 := set_isDragging true ss in
         let ss2 := set_startY (default 0%float clientY) ss1 in
         set_currentY (startY ss2) ss2)
      s.

(** [handleTouchMove] *)
Definition handleTouchMove (c : React) (clientY : option float) (s : State)
  : State :=
  if negb (isDragging (scrollState s)) || isScrolling (scrollState s) then s
  else
    let touchY := default 0%float clientY in
    let deltaY := (startY (scrollState s) - touchY)%float in
    let s1 := withScroll (set_currentY touchY) s in
    let isAtTop := (currentIndex c =? 0) && (deltaY <? 0)%float in
    let isAtBottom :=
      (currentIndex c =? Z.of_nat (length (videos c)) - 1)
      && (0 <? deltaY)%float in
    let resistance := (if isAtTop || isAtBottom then 0.12 else 0.5)%float in
    let translateY := (- deltaY * resistance)%float in
    let clampedTranslate :=
      if isAtTop || isAtBottom then clampTranslate translateY else translateY in
    styleCard (getCardByIndex c (currentIndex c))
              (mkCardStyle (translateY_scale1 clampedTranslate) transition_none)
              s1.

(** [handleTouchEnd], also the listener of touchcancel. *)
Definition handleTouchEnd (c : React) (cardHeight : float) (s : State) : State :=
  if negb (isDragging (scrollState s)) then s
  else
    let deltaY := (startY (scrollState s) - currentY (scrollState s))%float in
    let currentCard := getCardByIndex c (currentIndex c) in
    let bounce := mkCardStyle transform_empty transition_bounce in
    let s1 :=
      if crossesTouchThreshold deltaY cardHeight then
        let direction := if (0 <? deltaY)%float then 1 else -1 in
        let nextIndex := currentIndex c + direction in
        if (0 <=? nextIndex) && (nextIndex <? Z.of_nat (length (videos c))) then
          snapToIndex c nextIndex false s
        else styleCard currentCard bounce s
      else styleCard currentCard bounce s in
    withScroll
      (fun ss => set_currentY 0 (set_startY 0 (set_isDragging false ss)))
      s1.

(** The click handler of a video and of its audio button. *)
Definition click (c : React) (id : Z) (s : State) : State :=
  match handleVideoClick (unmutedVideoId c) id (videoRefs s) with
  | (refs, Some u) => setUnmutedVideoId u (withRefs (fun _ => refs) s)
  | (refs, None) => withRefs (fun _ => refs) s
  end.

Section WithKey.

Variable KEY : string.

(** [fetchVideos] of the mount effect, up to the [await]. *)
Definition fetchVideos_begin (s : State) : State :=
  if falsy KEY then
    setErrorMessage (Some "Missing Pexels API key.") (setStatus error s)
  else setErrorMessage None (setStatus loading s).

(** ... and from the [await] on; the controller is aborted only when the
    component unmounts, which ends the run. *)
Definition fetchVideos_end (r : FetchResult) (s : State) : State :=
  match tryBlock r with
  | inr data_videos =>
      setStatus success (setVideos (formatVideos data_videos) s)
  | inl t => setStatus error (setErrorMessage (Some (messageOf t)) s)
  end.

(** The effect that snaps to the first card. *)
Definition firstCardEffect (c : React) (s : State) : State :=
  if (0 <? Z.of_nat (length (videos c))) && (currentIndex c =? 0)
  then snapToIndex c 0 true s else s.

(** One commit of a render that closed over [c], the previous render having
    closed over [prev] ([None]: this is the mount). The refs are attached,
    then the effects run in the order of the source, each one only when one
    of its dependencies changed. Arrays are compared by value. *)
Definition commit (prev : option React) (c : React) (s : State) : State :=
  let changed {A} `{EqDecision A} (dep : React -> A) : bool :=
    match prev with
    | None => true
    | Some p => bool_decide (dep p ≠ dep c)
    end in
  let mounting := match prev with None => true | Some _ => false end in
  let unmutedChanged := changed unmutedVideoId in
  let placeChanged := changed videos || changed currentIndex in
  let s0 := withRefs (attachRefs (videos c)) s in
  let s1 := if mounting then fetchVideos_begin s0 else s0 in
  let s2 := if unmutedChanged then withRefs (muteEffect (unmutedVideoId c)) s1 else s1 in
  let s3 := if placeChanged || unmutedChanged then playPauseEffect c s2 else s2 in
  (* the wheel and touch effects: their cleanup clears the idle timeout *)
  let s4 := if placeChanged then withWheelTimeout false s3 else s3 in
  if placeChanged then firstCardEffect c s4 else s4.

(** React renders until no state cell differs from the last render. *)
Fixpoint renderLoop (fuel : nat) (prev : option React) (s : State)
  : State * option React :=
  match fuel with
  | O => (s, prev)
  | S n =>
      let c := react s in
      if bool_decide (prev = Some c) then (s, prev)
      else renderLoop n (Some c) (commit prev c s)
  end.

Definition settle (prev : option React) (s : State) : State :=
  fst (renderLoop 3 prev s).

(** What can happen to a mounted component. *)
Inductive Event :=
  | Fetched (r : FetchResult)
  | Wheel (deltaY : float) (now : Z) (cardHeight : float)
  | TouchStart (clientY : option float)
  | TouchMove (clientY : option float)
  | TouchEnd (cardHeight : float)
  | Click (id : Z)
  | SnapTimeout
  | WheelTimeout
  | Playback (elapsed : Z).

(** The wheel and touch effects add their listeners only to a feed with
    videos. *)
Definition listening (c : React) : bool :=
  negb (length (videos c) =? 0)%nat.

(** While an element plays, its position advances. *)
Definition advancePlayback (elapsed : Z) (e : VideoElement) : VideoElement :=
  if paused e then e else setCurrentTime (currentTime e + elapsed) e.

Definition handle (e : Event) (s : State) : State :=
  let c := react s in
  match e with
  | Fetched r =>
      if bool_decide (status c = loading) then fetchVideos_end r s else s
  | Wheel deltaY now cardHeight =>
      if listening c then handleWheel c deltaY now cardHeight s else s
  | TouchStart y => if listening c then handleTouchStart y s else s
  | TouchMove y => if listening c then handleTouchMove c y s else s
  | TouchEnd cardHeight =>
      if listening c then handleTouchEnd c cardHeight s else s
  | Click id => click c id s
  | SnapTimeout =>
      match snapTimers s with
      | O => s
      | S n => withSnapTimers (fun _ => n) (snapTimeoutCallback s)
      end
  | WheelTimeout =>
      if wheelTimeout s then wheelTimeoutCallback c s else s
  | Playback elapsed => withRefs (fmap (advancePlayback elapsed)) s
  end.

(** An event is handled by the listeners of the last render, then the
    component renders until it is settled. *)
Definition step (s : State) (e : Event) : State :=
  settle (Some (react s)) (handle e s).

Definition mounted : State := settle None initial.

Definition run (events : list Event) : State := foldl step mounted events.

End WithKey.

End Snap.

(* ===================================================================== *)
(** * Further parts of the component                                      *)
(* ===================================================================== *)

(** [registerVideo(id)]: the ref callback of the video with that id,
    applied to the node or to null. *)
Definition registerVideo (id : Z) (node : option VideoElement)
    (refs : VideoRefs) : VideoRefs :=
  match node with
  | Some n => <[id := n]> refs
  | None => delete id refs
  end.

(** The ref callbacks of one commit, call by call. [registerVideo(video.id)]
    is a new function at every render, so the callback of the previous
    render is called with null for each video that render showed, then the
    callback of this render is called with the node of each video; a node
    that was registered keeps its state, another one is as mounted. *)
Definition commitRefs (rendered videos : list FeedVideo) (refs : VideoRefs)
  : VideoRefs :=
  let detached :=
    foldl (fun m v => registerVideo (id v) None m) refs rendered in
  foldl
    (fun m v =>
       registerVideo (id v) (Some (default mountedElement (refs !! id v))) m)
    detached videos.

(** [str.padStart(2, '0')] *)
Definition padStart2 (str : string) : string :=
  match String.length str with
  | O => String.append "00" str
  | S O => String.append "0" str
  | _ => str
  end.

(** [Number.MAX_SAFE_INTEGER]: up to it every whole number is a double. *)
Definition MAX_SAFE_INTEGER : Z := 2 ^ 53 - 1.

(** [formatDuration], for the durations the feed holds: the argument is a
    whole number of seconds of absolute value at most [MAX_SAFE_INTEGER],
    or NaN ([None]), the one value for which [!seconds && seconds !== 0]
    holds. On these numbers the arithmetic of the source is exact:
    [Math.floor(seconds / 60)] is the floored quotient, [%] the remainder
    with the sign of the dividend, and a whole number below 10^21 is
    printed as its decimal numeral. Beyond [MAX_SAFE_INTEGER] the
    definition says nothing of the source. *)
Definition formatDuration (seconds : option Z) : string :=
  match seconds with
  | None => ""
  | Some seconds =>
      let mins := seconds / 60 in
      let secs := Z.rem seconds 60 in
      String.append (pretty mins)
        (String.append ":" (String.append (padStart2 (pretty secs)) " min"))
  end.

(** One call of [loadMore] of the paginated variant, from its guard to the
    end of the fetch it awaits, which meets [r]. *)
Definition loadMoreCycle (KEY : string) (r : FetchResult) (s : Paginated.State)
  : Paginated.State :=
  match Paginated.loadMore_begin KEY s with
  | (s1, Some nextPage) => Paginated.loadMore_end nextPage r s1
  | (s1, None) => s1
  end.

(** The calls of [loadMore] that meet the results [rs], one after the
    other. *)
Definition loadMoreCycles (KEY : string) (rs : list FetchResult)
    (s : Paginated.State) : Paginated.State :=
  foldl (fun s r => loadMoreCycle KEY r s) s rs.

(** ** The variant that follows the visible card

    The callback of the IntersectionObserver over the cards. An entry
    carries what the callback reads of it: [isIntersecting],
    [intersectionRatio], and the [data-card-index] and [data-video-id] of
    its target, which the render wrote as the index and the id of the
    video, so that [parseInt] gives them back. *)
Module Observer.

Record Entry := mkEntry {
  isIntersecting : bool;
  intersectionRatio : QArith_base.Q;
  cardIndex : Z;
  videoId : Z
}.

Record State := mkState {
  currentIndex : Z;
  unmutedVideoId : option Z;
  videoRefs : VideoRefs
}.

(** [entry.isIntersecting && entry.intersectionRatio >= 0.75] *)
Definition visible (entry : Entry) : bool :=
  isIntersecting entry
  && QArith_base.Qle_bool (QArith_base.Qmake 3 4) (intersectionRatio entry).

(** The body of [entries.forEach]; [unmuted] is the [unmutedVideoId] the
    callback closed over. *)
Definition observerBody (unmuted : option Z) (s : State) (entry : Entry)
  : State :=
  if visible entry then
    let s1 := mkState (cardIndex entry) (unmutedVideoId s) (videoRefs s) in
    match videoRefs s1 !! videoId entry with
    | Some _ =>
        mkState (currentIndex s1) (unmutedVideoId s1)
                (alter play (videoId entry) (videoRefs s1))
    | None => s1
    end
  else
    match videoRefs s !! videoId entry with
    | Some _ =>
        let refs1 := alter pause (videoId entry) (videoRefs s) in
        let refs2 := alter (setCurrentTime 0) (videoId entry) refs1 in
        if bool_decide (unmuted = Some (videoId entry))
        then mkState (currentIndex s) None
                     (alter (setMuted true) (videoId entry) refs2)
        else mkState (currentIndex s) (unmutedVideoId s) refs2
    | None => s
    end.

Definition observerCallback (unmuted : option Z) (entries : list Entry)
    (s : State) : State :=
  foldl (observerBody unmuted) s entries.

End Observer.

Local Close Scope string_scope.

(* ===================================================================== *)
(** * Example data                                                        *)
(* ===================================================================== *)

Definition hdFile : PexelsVideoFile :=
  mkPexelsVideoFile 1 "hd" "video/mp4" 1920 1080 "https://videos.example/hd.mp4".

Definition webmFile : PexelsVideoFile :=
  mkPexelsVideoFile 2 "hd" "video/webm" 1920 1080 "https://videos.example/hd.webm".

(** A record with a usable rendition, and one without. *)
Definition mp4Record (i : Z) : PexelsVideo :=
  mkPexelsVideo i 10 "https://images.example/p.jpg" None [hdFile].

Definition webmRecord (i : Z) : PexelsVideo :=
  mkPexelsVideo i 10 "https://images.example/p.jpg" None [webmFile].

Definition fullPage : list PexelsVideo :=
  mp4Record <$> [1; 2; 3; 4; 5; 6; 7; 8; 9; 10; 11; 12].

Definition fullPageWithoutMp4 : list PexelsVideo :=
  webmRecord <$> [13; 14; 15; 16; 17; 18; 19; 20; 21; 22; 23; 24].


(** The paginated feed after its first page arrived, for a component
    started without an entry for the key in the environment. *)
Definition firstPageLoaded : Paginated.State :=
  fst (Paginated.fetchVideos_end false (Responded true 200 "OK" fullPage)
         (Paginated.mountEffect (API_KEY None) Paginated.initial)).

(* ===================================================================== *)
(** * Properties of a settled feed                                        *)
(* ===================================================================== *)

(** What the play/pause effect of a render that closed over [c] leaves of
    the element registered under [k]. *)
Definition afterPlayPause (c : Snap.React) (k : Z) (e : VideoElement)
  : VideoElement :=
  if findIndex (Snap.videos c) k =? Snap.currentIndex c then play e
  else if bool_decide (Snap.unmutedVideoId c = Some k)
       then setMuted true (setCurrentTime 0 (pause e))
       else setCurrentTime 0 (pause e).

(** Whether that effect calls [setUnmutedVideoId(null)] at key [k]. *)
Definition autoMutes (c : Snap.React) (k : Z) : bool :=
  negb (findIndex (Snap.videos c) k =? Snap.currentIndex c)
  && bool_decide (Snap.unmutedVideoId c = Some k).

(** [s'] differs from [s] at most in the elements and in
    [unmutedVideoId]. *)
Definition playbackOnly (s s' : Snap.State) : Prop :=
  Snap.scrollState s' = Snap.scrollState s
  /\ Snap.cardStyles s' = Snap.cardStyles s
  /\ Snap.snapTimers s' = Snap.snapTimers s
  /\ Snap.wheelTimeout s' = Snap.wheelTimeout s
  /\ Snap.videos (Snap.react s') = Snap.videos (Snap.react s)
  /\ Snap.status (Snap.react s') = Snap.status (Snap.react s)
  /\ Snap.errorMessage (Snap.react s') = Snap.errorMessage (Snap.react s)
  /\ Snap.currentIndex (Snap.react s') = Snap.currentIndex (Snap.react s).

(** Whether the play/pause effect calls [setUnmutedVideoId(null)]: the
    unmuted video is registered and is not the current one. *)
Definition clearsUnmuted (c : Snap.React) (refs : VideoRefs) : bool :=
  match Snap.unmutedVideoId c with
  | Some u =>
      bool_decide (is_Some (refs !! u))
      && negb (findIndex (Snap.videos c) u =? Snap.currentIndex c)
  | None => false
  end.

(** The muted flags agree with [unmutedVideoId]. *)
Definition synced (c : Snap.React) (refs : VideoRefs) : Prop :=
  forall k e, refs !! k = Some e -> muted e = shouldMute (Snap.unmutedVideoId c) k.

(** The element of the current card plays, the others are paused at
    position zero. *)
Definition placed (c : Snap.React) (refs : VideoRefs) : Prop :=
  forall k e, refs !! k = Some e ->
    paused e = negb (findIndex (Snap.videos c) k =? Snap.currentIndex c)
    /\ (paused e = true -> currentTime e = 0).

(** The invariant of the settled states of the snap-scrolling feed. *)
Record Inv (s : Snap.State) : Prop := mkInv {
  inv_dom : forall k,
    is_Some (Snap.videoRefs s !! k) <-> k ∈ ids (Snap.videos (Snap.react s));
  inv_index :
    0 <= Snap.currentIndex (Snap.react s)
    /\ (Snap.currentIndex (Snap.react s)
        < Z.of_nat (length (Snap.videos (Snap.react s)))
        \/ (Snap.videos (Snap.react s) = []
            /\ Snap.currentIndex (Snap.react s) = 0));
  inv_unmuted : forall u,
    Snap.unmutedVideoId (Snap.react s) = Some u ->
    u ∈ ids (Snap.videos (Snap.react s))
    /\ findIndex (Snap.videos (Snap.react s)) u = Snap.currentIndex (Snap.react s);
  inv_synced : synced (Snap.react s) (Snap.videoRefs s);
  inv_placed : placed (Snap.react s) (Snap.videoRefs s);
  inv_loading :
    Snap.status (Snap.react s) = loading -> Snap.videos (Snap.react s) = []
}.

(** [s'] differs from [s] at most in the scroll state, the card styles,
    the timers and in [currentIndex], which then is a valid index. *)
Definition navigationOnly (c : Snap.React) (s s' : Snap.State) : Prop :=
  Snap.videoRefs s' = Snap.videoRefs s
  /\ Snap.videos (Snap.react s') = Snap.videos (Snap.react s)
  /\ Snap.status (Snap.react s') = Snap.status (Snap.react s)
  /\ Snap.errorMessage (Snap.react s') = Snap.errorMessage (Snap.react s)
  /\ Snap.unmutedVideoId (Snap.react s') = Snap.unmutedVideoId (Snap.react s)
  /\ (Snap.currentIndex (Snap.react s') = Snap.currentIndex (Snap.react s)
      \/ 0 <= Snap.currentIndex (Snap.react s')
           < Z.of_nat (length (Snap.videos c))).

(** What a handler leaves for the render that follows it; [p] is the last
    render. The parts of the invariant that an effect restores are asked
    for only when the dependencies of that effect did not change. *)
Record Pre (p : Snap.React) (h : Snap.State) : Prop := mkPre {
  pre_index :
    0 <= Snap.currentIndex (Snap.react h)
    /\ (Snap.currentIndex (Snap.react h)
        < Z.of_nat (length (Snap.videos (Snap.react h)))
        \/ (Snap.videos (Snap.react h) = []
            /\ Snap.currentIndex (Snap.react h) = 0));
  pre_unmuted : forall u,
    Snap.unmutedVideoId (Snap.react h) = Some u ->
    u ∈ ids (Snap.videos (Snap.react h));
  pre_synced :
    Snap.unmutedVideoId p = Snap.unmutedVideoId (Snap.react h) ->
    synced (Snap.react h)
           (attachRefs (Snap.videos (Snap.react h)) (Snap.videoRefs h));
  pre_placed :
    Snap.videos p = Snap.videos (Snap.react h) ->
    Snap.currentIndex p = Snap.currentIndex (Snap.react h) ->
    Snap.unmutedVideoId p = Snap.unmutedVideoId (Snap.react h) ->
    placed (Snap.react h)
           (attachRefs (Snap.videos (Snap.react h)) (Snap.videoRefs h))
    /\ (forall u, Snap.unmutedVideoId (Snap.react h) = Some u ->
         findIndex (Snap.videos (Snap.react h)) u
         = Snap.currentIndex (Snap.react h));
  pre_loading :
    Snap.status (Snap.react h) = loading -> Snap.videos (Snap.react h) = [];
  pre_same : Snap.react h = p -> Inv h
}.

(** ** Further properties *)

(** [x] is the first element of [l] that satisfies [P]. *)
Definition firstSuch {A} (P : A -> Prop) (l : list A) (x : A) : Prop :=
  exists l1 l2, l = l1 ++ x :: l2 /\ P x /\ Forall (fun y => ~ P y) l1.

Definition isMp4 (file : PexelsVideoFile) : Prop :=
  file_type file = "video/mp4"%string.

Definition hasQuality (q : string) (file : PexelsVideoFile) : Prop :=
  quality file = q.

#[global] Instance isMp4_dec (file : PexelsVideoFile) : Decision (isMp4 file).
Proof. unfold isMp4. apply _. Defined.

(** A record with at least one mp4 rendition. *)
Definition hasMp4 (video : PexelsVideo) : Prop :=
  Exists isMp4 (video_files video).

#[global] Instance hasMp4_dec (video : PexelsVideo) : Decision (hasMp4 video).
Proof. unfold hasMp4. apply _. Defined.

(** The controllers of the paginated variant: the one in
    [fetchController.current] is the latest and is live, every other one
    that was created has been aborted. *)
Definition oneLiveController (s : Paginated.State) : Prop :=
  (forall n, n ∈ Paginated.aborted s -> (n < Paginated.controllers s)%nat)
  /\ (forall c, Paginated.fetchController s = Some c ->
        S c = Paginated.controllers s /\ c ∉ Paginated.aborted s)
  /\ (forall n, (n < Paginated.controllers s)%nat ->
        Paginated.fetchController s ≠ Some n -> n ∈ Paginated.aborted s)
  /\ (Paginated.fetchController s = None -> Paginated.controllers s = 0%nat).

(** A snap-scrolling feed with nothing to show and nothing pending. *)
Definition inert (s : Snap.State) : Prop :=
  Snap.videos (Snap.react s) = []
  /\ Snap.status (Snap.react s) ≠ loading
  /\ Snap.videoRefs s = ∅
  /\ Snap.snapTimers s = 0%nat
  /\ Snap.wheelTimeout s = false.

(** The current card shows no offset. *)
Definition settledCard (c : Snap.React) (s : Snap.State) : Prop :=
  exists st, Snap.cardStyles s !! Snap.currentIndex c = Some st
             /\ Snap.transform st = Snap.transform_empty.

(** What a snap to a neighbouring card leaves behind. *)
Definition snapped (i' : Z) (s s' : Snap.State) : Prop :=
  Snap.isScrolling (Snap.scrollState s') = true
  /\ Snap.accumulatedDelta (Snap.scrollState s') = 0%float
  /\ Snap.targetIndex (Snap.scrollState s') = i'
  /\ Snap.snapTimers s' = S (Snap.snapTimers s).

(** A drag as the touch listeners see it: touchstart, then the touchmove
    events in order. No render happens in between, so all the listeners
    are those of one render. *)
Definition dragGesture (c : Snap.React) (start : option float)
    (moves : list (option float)) (s : Snap.State) : Snap.State :=
  foldl (fun s y => Snap.handleTouchMove c y s) (Snap.handleTouchStart start s) moves.

(** Where the finger was last seen. *)
Definition lastSeen (start : option float) (moves : list (option float))
  : float :=
  default 0%float (default start (last moves)).

(** Wheel events between two renders: each is the pair of [deltaY] and
    the time of the event. *)
Definition wheelGesture (c : Snap.React) (cardHeight : float)
    (wheels : list (float * Z)) (s : Snap.State) : Snap.State :=
  foldl (fun s w => Snap.handleWheel c w.1 w.2 cardHeight s) s wheels.

(** The accumulated delta stays below the threshold after every one of
    the deltas. *)
Fixpoint staysBelow (cardHeight acc : float) (deltas : list float) : bool :=
  match deltas with
  | [] => true
  | d :: ds =>
      negb (Snap.crossesWheelThreshold (acc + d)%float cardHeight)
      && staysBelow cardHeight (acc + d)%float ds
  end.

(** What the callback does to the element of the card of an entry. *)
Definition entryEffect (unmuted : option Z) (entry : Observer.Entry)
    (e : VideoElement) : VideoElement :=
  if Observer.visible entry then play e
  else
    let e1 := setCurrentTime 0 (pause e) in
    if bool_decide (unmuted = Some (Observer.videoId entry))
    then setMuted true e1 else e1.

(** An entry that takes the audio away: it reports the card of the
    unmuted video as not visible while its element is registered. *)
Definition takesAudio (unmuted : option Z) (refs : VideoRefs)
    (entry : Observer.Entry) : bool :=
  negb (Observer.visible entry)
  && bool_decide (unmuted = Some (Observer.videoId entry))
  && bool_decide (is_Some (refs !! Observer.videoId entry)).

(* ===================================================================== *)
(** * Response shaping and the merge of a page                            *)
(* ===================================================================== *)

Lemma toFeedVideo_id (video : PexelsVideo) (v : FeedVideo) :
  toFeedVideo video = Some v -> id v = pv_id video.
Proof.
  unfold toFeedVideo.
  destruct (List.filter _ (video_files video)); [discriminate|].
  intros [= <-]. reflexivity.
Qed.

Lemma toFeedVideo_None (video : PexelsVideo) :
  Forall (fun file => file_type file ≠ "video/mp4"%string) (video_files video) ->
  toFeedVideo video = None.
Proof.
  unfold toFeedVideo. intros Hall.
  assert (Hnil : List.filter (fun file => String.eqb (file_type file) "video/mp4"%string)
                   (video_files video) = []).
  { induction Hall as [|f fs Hf _ IH]; simpl; [reflexivity|].
    destruct (String.eqb_spec (file_type f) "video/mp4"%string); [contradiction|assumption]. }
  rewrite Hnil. reflexivity.
Qed.

Lemma formatVideos_length (data_videos : list PexelsVideo) :
  (length (formatVideos data_videos) <= length data_videos)%nat.
Proof.
  unfold formatVideos. induction data_videos as [|v vs IH]; [reflexivity|].
  change (omap toFeedVideo (v :: vs))
    with (match toFeedVideo v with
          | Some f => f :: omap toFeedVideo vs
          | None => omap toFeedVideo vs
          end).
  destruct (toFeedVideo v); rewrite ?length_cons; lia.
Qed.

Lemma formatVideos_ids_sublist (data_videos : list PexelsVideo) :
  ids (formatVideos data_videos) `sublist_of` (pv_id <$> data_videos).
Proof.
  unfold formatVideos, ids. induction data_videos as [|v vs IH]; simpl.
  - constructor.
  - destruct (toFeedVideo v) as [f|] eqn:Hf; simpl.
    + rewrite (toFeedVideo_id _ _ Hf). by constructor.
    + by constructor.
Qed.

Lemma formatVideos_without_mp4 (data_videos : list PexelsVideo) :
  Forall (fun video =>
            Forall (fun file => file_type file ≠ "video/mp4"%string) (video_files video))
         data_videos ->
  formatVideos data_videos = [].
Proof.
  unfold formatVideos. induction 1 as [|v vs Hv _ IH]; simpl; [reflexivity|].
  rewrite (toFeedVideo_None _ Hv). exact IH.
Qed.

(** The filter of the updater, as a predicate on the ids of the feed. *)
Lemma uniqueNew_filter (prev formatted : list FeedVideo) :
  List.filter
    (fun video => bool_decide (id video ∉ (list_to_set (ids prev) : gset Z)))
    formatted
  = filter (fun video => id video ∉ ids prev) formatted.
Proof.
  induction formatted as [|v vs IH]; simpl; [reflexivity|].
  rewrite filter_cons, IH.
  destruct (decide (id v ∉ ids prev)) as [Hin|Hin].
  - rewrite bool_decide_eq_true_2; [reflexivity|]. by rewrite elem_of_list_to_set.
  - rewrite bool_decide_eq_false_2; [reflexivity|]. by rewrite elem_of_list_to_set.
Qed.

Lemma mergePage_append (prev formatted : list FeedVideo) :
  Paginated.mergePage true formatted prev
  = prev ++ filter (fun video => id video ∉ ids prev) formatted.
Proof. unfold Paginated.mergePage. simpl. by rewrite uniqueNew_filter. Qed.

Lemma ids_filter_sublist (P : FeedVideo -> Prop) `{forall v, Decision (P v)}
    (l : list FeedVideo) :
  ids (filter P l) `sublist_of` ids l.
Proof. unfold ids. apply fmap_sublist, sublist_filter. Qed.

Lemma mergePage_NoDup (prev formatted : list FeedVideo) :
  NoDup (ids prev) -> NoDup (ids formatted) ->
  NoDup (ids (Paginated.mergePage true formatted prev)).
Proof.
  intros Hprev Hnew. rewrite mergePage_append. unfold ids. rewrite fmap_app.
  apply NoDup_app. split; [exact Hprev|]. split.
  - intros x Hx Hx'. apply list_elem_of_fmap in Hx' as (v & -> & Hv).
    apply list_elem_of_filter in Hv as [Hv _]. by apply Hv.
  - pose proof (ids_filter_sublist (fun video => id video ∉ ids prev) formatted) as Hsub.
    exact (sublist_NoDup _ _ Hnew Hsub).
Qed.

(** What a successful fetch leaves in the state cells. *)
Lemma fetchVideos_end_success (append ok_ : bool) (st : Z) (txt : string)
    (data_videos : list PexelsVideo) (s : Paginated.State) :
  ok_ = true ->
  let s' := fst (Paginated.fetchVideos_end append (Responded ok_ st txt data_videos) s) in
  Paginated.videos s'
    = Paginated.mergePage append (formatVideos data_videos) (Paginated.videos s)
  /\ Paginated.hasMore s' = (Z.of_nat (length data_videos) =? Paginated.PER_PAGE)
  /\ Paginated.status s' = success
  /\ Paginated.page s' = Paginated.page s
  /\ Paginated.issued s' = Paginated.issued s
  /\ snd (Paginated.fetchVideos_end append (Responded ok_ st txt data_videos) s) = true.
Proof. intros ->. unfold Paginated.fetchVideos_end. simpl. by destruct append. Qed.

(** C5, as the claim has it, fails: the filter compares a fetched item
    with the items loaded before, not with the other items of its page, so
    a page that carries an id twice puts it into the feed twice. *)
Lemma C5_page_with_repeated_id :
  let s' := fst (Paginated.fetchVideos_end true
                   (Responded true 200 "OK" [mp4Record 9; mp4Record 9])
                   Paginated.initial) in
  ids (Paginated.videos s') = [9; 9] /\ ~ NoDup (ids (Paginated.videos s')).
Proof.
  split; [reflexivity|].
  intros Hnd. change (NoDup [9; 9]) in Hnd.
  apply NoDup_cons in Hnd as [Hnotin _]. apply Hnotin. by left.
Qed.

(** C5 (amended). For every feed and every page, an append fetch that
    succeeds leaves in the feed the items loaded before, in their order,
    followed by the fetched items whose id is not among the loaded ones,
    in response order, so the feed does not shrink; and when neither the
    loaded feed nor the fetched page repeats an id, the new feed repeats
    none. *)
Theorem C5_append_keeps_order_and_distinct_ids (s : Paginated.State)
    (st : Z) (txt : string) (data_videos : list PexelsVideo) :
  let prev := Paginated.videos s in
  let s' := fst (Paginated.fetchVideos_end true
                   (Responded true st txt data_videos) s) in
  Paginated.videos s'
    = prev ++ filter (fun video => id video ∉ ids prev) (formatVideos data_videos)
  /\ prev `prefix_of` Paginated.videos s'
  /\ (length prev <= length (Paginated.videos s'))%nat
  /\ (NoDup (ids prev) -> NoDup (pv_id <$> data_videos) ->
      NoDup (ids (Paginated.videos s'))).
Proof.
  intros prev s'.
  destruct (fetchVideos_end_success true true st txt data_videos s eq_refl)
    as (Hv & _).
  fold s' in Hv. rewrite Hv. fold prev.
  split; [apply mergePage_append|]. split; [|split].
  - rewrite mergePage_append. by apply prefix_app_r.
  - rewrite mergePage_append, length_app. lia.
  - intros Hprev Hpage. apply mergePage_NoDup; [exact Hprev|].
    exact (sublist_NoDup _ _ Hpage (formatVideos_ids_sublist data_videos)).
Qed.

(** The page [9; 9] appended to the feed [9; 9]: the feed keeps its
    items, nothing is added; and a page with new ids appended to a feed
    without repetition. *)
Lemma C5_append_witness :
  let twice := Responded true 200 "OK" [mp4Record 9; mp4Record 9] in
  let s := fst (Paginated.fetchVideos_end false twice Paginated.initial) in
  let page := [mp4Record 11; mp4Record 12; mp4Record 13] in
  let s' := fst (Paginated.fetchVideos_end true (Responded true 200 "OK" page)
                   firstPageLoaded) in
  ids (Paginated.videos (fst (Paginated.fetchVideos_end true twice s))) = [9; 9]
  /\ ids (Paginated.videos s') = [1; 2; 3; 4; 5; 6; 7; 8; 9; 10; 11; 12; 13]
  /\ NoDup (ids (Paginated.videos s')).
Proof.
  cbv zeta.
  pose proof (C5_append_keeps_order_and_distinct_ids
                (fst (Paginated.fetchVideos_end false
                        (Responded true 200 "OK" [mp4Record 9; mp4Record 9])
                        Paginated.initial))
                200 "OK" [mp4Record 9; mp4Record 9]) as (Hsame & _).
  pose proof (C5_append_keeps_order_and_distinct_ids firstPageLoaded 200 "OK"
                [mp4Record 11; mp4Record 12; mp4Record 13])
    as (Hv & _ & _ & Hnd).
  cbv zeta in Hsame, Hv, Hnd.
  split; [rewrite Hsame; vm_compute; reflexivity|].
  split; [rewrite Hv; vm_compute; reflexivity|].
  apply Hnd; apply (bool_decide_unpack _); vm_compute; reflexivity.
Defined.

(* ===================================================================== *)
(** * The pagination controller                                           *)
(* ===================================================================== *)

(** With a key, [fetchVideos(page, true)] issues one request and touches
    no cell but [isLoadingMore]. *)
Lemma fetchVideos_begin_append (KEY : string) (p : Z) (s : Paginated.State) :
  falsy KEY = false ->
  let s1 := fst (Paginated.fetchVideos_begin KEY p true s) in
  snd (Paginated.fetchVideos_begin KEY p true s) = Some (Paginated.controllers s)
  /\ Paginated.videos s1 = Paginated.videos s
  /\ Paginated.status s1 = Paginated.status s
  /\ Paginated.errorMessage s1 = Paginated.errorMessage s
  /\ Paginated.currentIndex s1 = Paginated.currentIndex s
  /\ Paginated.page s1 = Paginated.page s
  /\ Paginated.hasMore s1 = Paginated.hasMore s
  /\ Paginated.isLoadingMore s1 = true
  /\ Paginated.issued s1
     = Paginated.mkRequest Paginated.PER_PAGE p KEY (Paginated.controllers s)
         :: Paginated.issued s.
Proof.
  intros Hkey. unfold Paginated.fetchVideos_begin. rewrite Hkey. simpl.
  repeat split; reflexivity.
Qed.


Lemma loadMore_begin_open (KEY : string) (s : Paginated.State) :
  falsy KEY = false ->
  Paginated.hasMore s = true -> Paginated.isLoadingMore s = false ->
  Paginated.loadMore_begin KEY s
  = (fst (Paginated.fetchVideos_begin KEY (Paginated.page s + 1) true s),
     Some (Paginated.page s + 1)).
Proof.
  intros Hkey Hmore Hload. unfold Paginated.loadMore_begin.
  rewrite Hmore, Hload. simpl.
  destruct (fetchVideos_begin_append KEY (Paginated.page s + 1) s Hkey) as (Hc & _).
  destruct (Paginated.fetchVideos_begin KEY (Paginated.page s + 1) true s)
    as [s' o]. simpl in Hc. subst o. reflexivity.
Qed.





(** C10. [hasMore] is computed from the records of the response, before
    the records without mp4 rendition are dropped: after a successful
    append of a response of [PER_PAGE] records [hasMore] is true whatever
    the number of items that reach the feed, which is at most the number
    of records with an mp4 rendition; when no record has one, the feed is
    unchanged. *)
Theorem C10_hasMore_counts_raw_records (s : Paginated.State) (st : Z)
    (txt : string) (data_videos : list PexelsVideo) :
  Z.of_nat (length data_videos) = Paginated.PER_PAGE ->
  let s' := fst (Paginated.fetchVideos_end true
                   (Responded true st txt data_videos) s) in
  Paginated.hasMore s' = true
  /\ (length (Paginated.videos s')
      <= length (Paginated.videos s) + length (formatVideos data_videos))%nat
  /\ (length (formatVideos data_videos) <= length data_videos)%nat
  /\ (Forall (fun video =>
                Forall (fun file => file_type file ≠ "video/mp4"%string)
                       (video_files video)) data_videos ->
      Paginated.videos s' = Paginated.videos s).
Proof.
  intros Hlen s'.
  destruct (fetchVideos_end_success true true st txt data_videos s eq_refl)
    as (Hv & Hm & _).
  fold s' in Hv, Hm. rewrite Hv, Hm, mergePage_append.
  split; [by apply Z.eqb_eq|]. split; [|split].
  - rewrite length_app.
    pose proof (length_filter (fun video => id video ∉ ids (Paginated.videos s))
                  (formatVideos data_videos)). lia.
  - apply formatVideos_length.
  - intros Hno. rewrite (formatVideos_without_mp4 _ Hno). apply app_nil_r.
Qed.

Lemma C10_witness :
  let s' := fst (Paginated.fetchVideos_end true
                   (Responded true 200 "OK" fullPageWithoutMp4)
                   firstPageLoaded) in
  Paginated.hasMore s' = true
  /\ Paginated.videos s' = Paginated.videos firstPageLoaded.
Proof.
  pose proof (C10_hasMore_counts_raw_records firstPageLoaded 200 "OK"
                fullPageWithoutMp4 eq_refl) as (Hm & _ & _ & Hv).
  split; [exact Hm|]. apply Hv.
  apply (bool_decide_unpack _). vm_compute. reflexivity.
Defined.

(** ** The key *)

Lemma API_KEY_falsy (env : option string) :
  falsy (API_KEY env) = true <-> env = Some ""%string.
Proof.
  destruct env as [key|]; simpl.
  - unfold falsy. rewrite String.eqb_eq. split; [by intros ->|by intros [= ->]].
  - split; [intros H; vm_compute in H|]; discriminate.
Qed.




(** ** The look-ahead effect *)

Lemma setCurrentIndex_twice (a b : Z) (s : Paginated.State) :
  Paginated.setCurrentIndex a (Paginated.setCurrentIndex b s)
  = Paginated.setCurrentIndex a s.
Proof. reflexivity. Qed.

(** Far from the end, or while a page is loading, an index transition
    issues nothing. *)
Lemma advance_quiet (KEY : string) (s : Paginated.State) :
  Paginated.isLoadingMore s = true
  \/ 4 < Z.of_nat (length (Paginated.videos s)) - (Paginated.currentIndex s + 2) ->
  Paginated.advance KEY s
  = Paginated.setCurrentIndex (Paginated.currentIndex s + 1) s.
Proof.
  intros H. unfold Paginated.advance, Paginated.lookaheadEffect. simpl.
  destruct (Paginated.hasMore s) eqn:Hm; simpl;
    [|by rewrite bool_decide_eq_true_2].
  destruct (Paginated.isLoadingMore s) eqn:Hl; simpl;
    [by rewrite bool_decide_eq_true_2|].
  destruct H as [H|H]; [discriminate|].
  destruct (Z.eqb_spec (Z.of_nat (length (Paginated.videos s))) 0); simpl;
    [by rewrite Hl, bool_decide_eq_true_2|].
  destruct (Z.leb_spec
              (Z.of_nat (length (Paginated.videos s))
               - (Paginated.currentIndex s + 1 + 1)) 4); [lia|].
  simpl. by rewrite Hl, bool_decide_eq_true_2.
Qed.

(** Within four items of the end, with more to load and nothing loading,
    an index transition issues the request for the next page. *)
Lemma advance_trigger (KEY : string) (s : Paginated.State) :
  falsy KEY = false ->
  Paginated.hasMore s = true -> Paginated.isLoadingMore s = false ->
  Paginated.videos s ≠ [] ->
  Z.of_nat (length (Paginated.videos s)) - (Paginated.currentIndex s + 2) <= 4 ->
  Paginated.advance KEY s
  = fst (Paginated.fetchVideos_begin KEY (Paginated.page s + 1) true
           (Paginated.setCurrentIndex (Paginated.currentIndex s + 1) s)).
Proof.
  intros Hkey Hm Hl Hne Hrem.
  set (s0 := Paginated.setCurrentIndex (Paginated.currentIndex s + 1) s).
  assert (Hlook : Paginated.lookaheadEffect KEY s0
                  = fst (Paginated.fetchVideos_begin KEY (Paginated.page s + 1)
                           true s0)).
  { unfold Paginated.lookaheadEffect.
    change (Paginated.hasMore s0) with (Paginated.hasMore s).
    change (Paginated.isLoadingMore s0) with (Paginated.isLoadingMore s).
    change (Paginated.videos s0) with (Paginated.videos s).
    change (Paginated.currentIndex s0) with (Paginated.currentIndex s + 1).
    rewrite Hm, Hl. cbn [negb orb].
    destruct (Z.eqb_spec (Z.of_nat (length (Paginated.videos s))) 0) as [E|_];
      [destruct (Paginated.videos s); [done|simpl in E; lia]|].
    destruct (Z.leb_spec
                (Z.of_nat (length (Paginated.videos s))
                 - (Paginated.currentIndex s + 1 + 1)) 4); [|lia].
    by rewrite (loadMore_begin_open KEY s0 Hkey Hm Hl). }
  unfold Paginated.advance. fold s0. rewrite Hlook.
  destruct (fetchVideos_begin_append KEY (Paginated.page s + 1) s0 Hkey)
    as (_ & _ & _ & _ & _ & _ & Hm' & Hl' & _).
  rewrite Hl', Hl. rewrite bool_decide_eq_false_2 by discriminate.
  unfold Paginated.lookaheadEffect. rewrite Hm', Hl'.
  by rewrite orb_true_r.
Qed.

Lemma advances_S (KEY : string) (n : nat) (s : Paginated.State) :
  Paginated.advances KEY (S n) s
  = Paginated.advance KEY (Paginated.advances KEY n s).
Proof. reflexivity. Qed.

Section TwelveLoaded.

(** A feed of twelve items, more to load, nothing loading, the first card
    current. *)
Variable KEY : string.
Variable s : Paginated.State.
Hypothesis Hkey : falsy KEY = false.
Hypothesis Hlen : length (Paginated.videos s) = 12%nat.
Hypothesis Hmore : Paginated.hasMore s = true.
Hypothesis Hidle : Paginated.isLoadingMore s = false.
Hypothesis Hfirst : Paginated.currentIndex s = 0.

Lemma advances_before_seven (n : nat) :
  (n <= 6)%nat ->
  Paginated.advances KEY n s = Paginated.setCurrentIndex (Z.of_nat n) s.
Proof.
  induction n as [|n IH]; intros Hn.
  - simpl. destruct s; simpl in *. by subst.
  - rewrite advances_S, IH by lia. rewrite advance_quiet.
    + change (Paginated.currentIndex (Paginated.setCurrentIndex (Z.of_nat n) s))
        with (Z.of_nat n).
      rewrite setCurrentIndex_twice. f_equal. lia.
    + right.
      change (Paginated.videos (Paginated.setCurrentIndex (Z.of_nat n) s))
        with (Paginated.videos s).
      change (Paginated.currentIndex (Paginated.setCurrentIndex (Z.of_nat n) s))
        with (Z.of_nat n).
      rewrite Hlen. lia.
Qed.

(** From the seventh step on the state is the one in which the request
    for the next page has gone out, at the index reached. *)
Lemma advances_from_seven (k : nat) :
  Paginated.advances KEY (7 + k) s
  = Paginated.setCurrentIndex (Z.of_nat (7 + k))
      (fst (Paginated.fetchVideos_begin KEY (Paginated.page s + 1) true
              (Paginated.setCurrentIndex 7 s))).
Proof.
  induction k as [|k IH].
  - change (7 + 0)%nat with 7%nat.
    rewrite advances_S, advances_before_seven by lia.
    rewrite advance_trigger; try assumption.
    + unfold Paginated.fetchVideos_begin. rewrite Hkey. reflexivity.
    + simpl. intros E. rewrite E in Hlen. discriminate.
    + simpl. rewrite Hlen. lia.
  - replace (7 + S k)%nat with (S (7 + k)) by lia.
    rewrite advances_S, IH. rewrite advance_quiet.
    + rewrite setCurrentIndex_twice.
      change (Paginated.currentIndex (Paginated.setCurrentIndex ?a ?t)) with a.
      f_equal. lia.
    + left. unfold Paginated.fetchVideos_begin. rewrite Hkey. reflexivity.
Qed.

Lemma advances_trace (n : nat) :
  Paginated.currentIndex (Paginated.advances KEY n s) = Z.of_nat n
  /\ Paginated.issued (Paginated.advances KEY n s)
     = if (n <? 7)%nat then Paginated.issued s
       else Paginated.mkRequest Paginated.PER_PAGE (Paginated.page s + 1) KEY
              (Paginated.controllers s) :: Paginated.issued s.
Proof.
  destruct (Nat.ltb_spec n 7) as [Hn|Hn].
  - rewrite advances_before_seven by lia. split; reflexivity.
  - assert (Hk : exists k, n = (7 + k)%nat) by (exists (n - 7)%nat; lia).
    destruct Hk as [k ->].
    rewrite advances_from_seven. split; [reflexivity|].
    unfold Paginated.fetchVideos_begin. rewrite Hkey. reflexivity.
Qed.

End TwelveLoaded.

(** C8, as the claim has it, fails. The effect tests
    [videos.length - (currentIndex + 1) <= 4]; with twelve items that is
    true at index 7 already (12 - 8 = 4), so the request for page 2 goes
    out when the index reaches 7, and reaching 8 issues nothing. *)
Lemma C8_request_goes_out_at_seven :
  let after k := Paginated.advances (API_KEY None) k firstPageLoaded in
  Paginated.currentIndex (after 6%nat) = 6
  /\ Paginated.issued (after 6%nat) = Paginated.issued firstPageLoaded
  /\ Paginated.currentIndex (after 7%nat) = 7
  /\ Paginated.issued (after 7%nat)
     = Paginated.mkRequest 12 2 FALLBACK_API_KEY 1
         :: Paginated.issued firstPageLoaded
  /\ Paginated.issued (after 8%nat) = Paginated.issued (after 7%nat)
  /\ ~ (Paginated.issued (after 7%nat) = Paginated.issued firstPageLoaded
        /\ Paginated.issued (after 8%nat) ≠ Paginated.issued (after 7%nat)).
Proof.
  cbv zeta.
  split; [vm_compute; reflexivity|].
  split; [vm_compute; reflexivity|].
  split; [vm_compute; reflexivity|].
  split; [vm_compute; reflexivity|].
  split; [vm_compute; reflexivity|].
  intros [H _]. vm_compute in H. discriminate.
Qed.

(** C8 (amended). With twelve items loaded, more to load, nothing loading
    and the first card current, stepping the index forward issues exactly
    one request, for the next page, and the step that issues it is the one
    that brings the index to 7; while that request is outstanding no later
    step issues another. *)
Theorem C8_lookahead_fires_at_index_seven (KEY : string) (s : Paginated.State)
    (n : nat) :
  falsy KEY = false ->
  length (Paginated.videos s) = 12%nat ->
  Paginated.hasMore s = true ->
  Paginated.isLoadingMore s = false ->
  Paginated.currentIndex s = 0 ->
  Paginated.currentIndex (Paginated.advances KEY n s) = Z.of_nat n
  /\ Paginated.issued (Paginated.advances KEY n s)
     = if (n <? 7)%nat then Paginated.issued s
       else Paginated.mkRequest Paginated.PER_PAGE (Paginated.page s + 1) KEY
              (Paginated.controllers s) :: Paginated.issued s.
Proof. intros. by apply advances_trace. Qed.

Lemma C8_witness :
  Paginated.currentIndex (Paginated.advances (API_KEY None) 8 firstPageLoaded) = 8
  /\ Paginated.issued (Paginated.advances (API_KEY None) 8 firstPageLoaded)
     = Paginated.mkRequest 12 2 FALLBACK_API_KEY 1
         :: Paginated.issued firstPageLoaded.
Proof.
  exact (C8_lookahead_fires_at_index_seven (API_KEY None) firstPageLoaded 8
           eq_refl eq_refl eq_refl eq_refl eq_refl).
Defined.

(* ===================================================================== *)
(** * Loops over the registered elements                                  *)
(* ===================================================================== *)

Section ForEach.

Variable f : Z -> VideoElement -> VideoElement.

(** A loop that alters the element of each key it visits. *)
Lemma foldl_alter_lookup (keys : list Z) (m : VideoRefs) (i : Z) :
  NoDup keys ->
  foldl (fun m k => alter (f k) k m) m keys !! i
  = if decide (i ∈ keys) then f i <$> m !! i else m !! i.
Proof.
  revert m. induction keys as [|k keys IH]; intros m Hnd; cbn [foldl].
  - destruct (decide (i ∈ [])) as [Hin|_]; [|reflexivity].
    by apply not_elem_of_nil in Hin.
  - apply NoDup_cons in Hnd as [Hk Hnd]. rewrite (IH _ Hnd).
    destruct (decide (i = k)) as [->|Hne].
    + destruct (decide (k ∈ keys)) as [?|_]; [contradiction|].
      destruct (decide (k ∈ k :: keys)) as [_|Hn];
        [by rewrite lookup_alter_eq|].
      exfalso. apply Hn. by left.
    + rewrite lookup_alter_ne by congruence.
      destruct (decide (i ∈ keys)) as [Hin|Hin];
        destruct (decide (i ∈ k :: keys)) as [Hin'|Hin']; try reflexivity.
      * exfalso. apply Hin'. by right.
      * apply elem_of_cons in Hin' as [?|?]; contradiction.
Qed.

Lemma foldl_entries_keys {A} (g : A -> Z -> A) (a : A)
    (l : list (Z * VideoElement)) :
  foldl (fun a '((k, _) : Z * VideoElement) => g a k) a l
  = foldl g a (l.*1).
Proof. revert a. induction l as [|[k e] l IH]; intros a; simpl; [done|apply IH]. Qed.

Lemma forEachEntry_alter_lookup (refs : VideoRefs) (i : Z) :
  forEachEntry (fun m '(k, _) => alter (f k) k m) refs refs !! i
  = f i <$> refs !! i.
Proof.
  unfold forEachEntry.
  rewrite (foldl_entries_keys (fun m k => alter (f k) k m)).
  rewrite foldl_alter_lookup by apply NoDup_fst_map_to_list.
  destruct (decide (i ∈ (map_to_list refs).*1)) as [Hin|Hin]; [reflexivity|].
  destruct (refs !! i) as [e|] eqn:He; [|reflexivity].
  exfalso. apply Hin. apply list_elem_of_fmap. exists (i, e).
  split; [reflexivity|]. by apply elem_of_map_to_list.
Qed.

End ForEach.

Lemma muteEffect_lookup (u : option Z) (refs : VideoRefs) (k : Z) :
  muteEffect u refs !! k = setMuted (shouldMute u k) <$> refs !! k.
Proof.
  unfold muteEffect.
  apply (forEachEntry_alter_lookup (fun k => setMuted (shouldMute u k))).
Qed.

(** ** [findIndex] *)

Lemma findIndex_found (videos : list FeedVideo) (k : Z) :
  0 <= findIndex videos k ->
  exists v, videos !! Z.to_nat (findIndex videos k) = Some v /\ id v = k.
Proof.
  unfold findIndex.
  destruct (list_find (fun v => id v = k) videos) as [[i v]|] eqn:Hf; [|lia].
  intros _. apply list_find_Some in Hf as (Hv & Hid & _).
  exists v. by rewrite Nat2Z.id.
Qed.

Lemma findIndex_range (videos : list FeedVideo) (k : Z) :
  -1 <= findIndex videos k < Z.of_nat (length videos).
Proof.
  unfold findIndex.
  destruct (list_find (fun v => id v = k) videos) as [[i v]|] eqn:Hf; [|lia].
  apply list_find_Some in Hf as (Hv & _). apply lookup_lt_Some in Hv. lia.
Qed.

Lemma findIndex_elem (videos : list FeedVideo) (k : Z) :
  k ∈ ids videos <-> 0 <= findIndex videos k.
Proof.
  unfold findIndex, ids. split.
  - intros Hin. apply list_elem_of_fmap in Hin as (v & -> & Hv).
    destruct (list_find (fun v0 => id v0 = id v) videos) as [[i w]|] eqn:Hf; [lia|].
    exfalso. rewrite list_find_None in Hf. rewrite Forall_forall in Hf.
    by apply (Hf v).
  - destruct (list_find (fun v => id v = k) videos) as [[i v]|] eqn:Hf; [|lia].
    intros _. apply list_find_Some in Hf as (Hv & Hid & _).
    apply list_elem_of_fmap. exists v. split; [done|].
    by apply list_elem_of_lookup_2 in Hv.
Qed.

(** Two ids found at the same place are the same id. *)
Lemma findIndex_inj (videos : list FeedVideo) (k1 k2 : Z) :
  0 <= findIndex videos k1 -> findIndex videos k1 = findIndex videos k2 ->
  k1 = k2.
Proof.
  intros H1 Heq.
  destruct (findIndex_found videos k1 H1) as (v1 & Hv1 & <-).
  assert (H2 : 0 <= findIndex videos k2) by lia.
  destruct (findIndex_found videos k2 H2) as (v2 & Hv2 & <-).
  rewrite Heq in Hv1. congruence.
Qed.

(** ** The ref callbacks *)

Lemma attachRefs_lookup (videos : list FeedVideo) (refs : VideoRefs) (k : Z) :
  attachRefs videos refs !! k
  = if decide (k ∈ ids videos)
    then Some (default mountedElement (refs !! k)) else None.
Proof.
  unfold attachRefs, ids. induction videos as [|v vs IH].
  - rewrite decide_False by apply not_elem_of_nil. apply lookup_empty.
  - rewrite fmap_cons, list_to_map_cons.
    destruct (decide (k = id v)) as [->|Hne].
    + rewrite decide_True by (rewrite fmap_cons; by left).
      apply lookup_insert_eq.
    + rewrite lookup_insert_ne by congruence. rewrite IH.
      destruct (decide (k ∈ id <$> vs)) as [Hin|Hin].
      * rewrite decide_True; [done|]. rewrite fmap_cons. by right.
      * rewrite decide_False; [done|]. rewrite fmap_cons, elem_of_cons.
        intros [?|?]; contradiction.
Qed.

Lemma attachRefs_dom (videos : list FeedVideo) (refs : VideoRefs) (k : Z) :
  is_Some (attachRefs videos refs !! k) <-> k ∈ ids videos.
Proof.
  rewrite attachRefs_lookup.
  destruct (decide (k ∈ ids videos)) as [Hin|Hin]; split; intros H.
  - exact Hin.
  - eauto.
  - by destruct H.
  - contradiction.
Qed.

(** When the registered ids are those of the feed, a commit registers
    nothing new. *)
Lemma attachRefs_same (videos : list FeedVideo) (refs : VideoRefs) :
  (forall k, is_Some (refs !! k) <-> k ∈ ids videos) ->
  attachRefs videos refs = refs.
Proof.
  intros Hdom. apply map_eq. intros k. rewrite attachRefs_lookup.
  destruct (decide (k ∈ ids videos)) as [Hin|Hin].
  - apply Hdom in Hin as [e He]. by rewrite He.
  - destruct (refs !! k) eqn:He; [|done]. exfalso. apply Hin, Hdom. eauto.
Qed.

(* ===================================================================== *)
(** * The play/pause effect                                               *)
(* ===================================================================== *)

Lemma playbackOnly_refl (s : Snap.State) : playbackOnly s s.
Proof. repeat split. Qed.

Lemma playbackOnly_trans (s1 s2 s3 : Snap.State) :
  playbackOnly s1 s2 -> playbackOnly s2 s3 -> playbackOnly s1 s3.
Proof.
  unfold playbackOnly. intros (?&?&?&?&?&?&?&?) (?&?&?&?&?&?&?&?).
  repeat split; congruence.
Qed.

Lemma playPauseBody_spec (c : Snap.React) (s : Snap.State) (k : Z)
    (e : VideoElement) :
  let s' := Snap.playPauseBody c s (k, e) in
  Snap.videoRefs s' = alter (afterPlayPause c k) k (Snap.videoRefs s)
  /\ Snap.unmutedVideoId (Snap.react s')
     = (if autoMutes c k then None else Snap.unmutedVideoId (Snap.react s))
  /\ playbackOnly s s'.
Proof.
  unfold Snap.playPauseBody, afterPlayPause, autoMutes. cbn [fst].
  destruct (findIndex (Snap.videos c) k =? Snap.currentIndex c); cbn [negb andb].
  - repeat split.
  - destruct (bool_decide (Snap.unmutedVideoId c = Some k)).
    + split; [|repeat split]. cbn. rewrite !alter_alter_eq. reflexivity.
    + split; [|repeat split]. cbn. rewrite !alter_alter_eq. reflexivity.
Qed.

Lemma playPause_fold (c : Snap.React) (l : list (Z * VideoElement))
    (s : Snap.State) :
  let s' := foldl (Snap.playPauseBody c) s l in
  Snap.videoRefs s'
    = foldl (fun m k => alter (afterPlayPause c k) k m) (Snap.videoRefs s) (l.*1)
  /\ Snap.unmutedVideoId (Snap.react s')
     = (if existsb (autoMutes c) (l.*1) then None
        else Snap.unmutedVideoId (Snap.react s))
  /\ playbackOnly s s'.
Proof.
  revert s. induction l as [|[k e] l IH]; intros s.
  - cbn. repeat split.
  - cbn [foldl fmap list_fmap fst existsb].
    destruct (playPauseBody_spec c s k e) as (Hr & Hu & Hf).
    destruct (IH (Snap.playPauseBody c s (k, e))) as (Hr' & Hu' & Hf').
    cbn zeta in *. rewrite Hr', Hu', Hr, Hu. split; [reflexivity|]. split.
    + destruct (autoMutes c k); cbn [orb]; [|reflexivity].
      by destruct (existsb (autoMutes c) (l.*1)).
    + eapply playbackOnly_trans; eassumption.
Qed.

(** The keys at which the effect clears [unmutedVideoId]. *)
Lemma existsb_autoMutes (c : Snap.React) (refs : VideoRefs) :
  existsb (autoMutes c) ((map_to_list refs).*1) = clearsUnmuted c refs.
Proof.
  unfold clearsUnmuted.
  destruct (existsb (autoMutes c) ((map_to_list refs).*1)) eqn:Hex.
  - apply existsb_exists in Hex as (k & Hk & Ha).
    unfold autoMutes in Ha. apply andb_true_iff in Ha as [Hna Hu].
    apply bool_decide_eq_true in Hu. rewrite Hu, Hna.
    rewrite bool_decide_eq_true_2; [reflexivity|].
    apply list_elem_of_In, list_elem_of_fmap in Hk as ([k' e] & -> & Hke).
    apply elem_of_map_to_list in Hke. eauto.
  - destruct (Snap.unmutedVideoId c) as [u|] eqn:Hu; [|reflexivity].
    destruct (bool_decide (is_Some (refs !! u))) eqn:Hreg; [|reflexivity].
    destruct (findIndex (Snap.videos c) u =? Snap.currentIndex c) eqn:Hact;
      [reflexivity|].
    exfalso. apply bool_decide_eq_true in Hreg as [e He].
    apply not_true_iff_false in Hex. apply Hex.
    apply existsb_exists. exists u. split.
    + apply list_elem_of_In, list_elem_of_fmap. exists (u, e).
      split; [reflexivity|]. by apply elem_of_map_to_list.
    + unfold autoMutes. rewrite Hu, Hact. cbn.
      by rewrite bool_decide_eq_true_2.
Qed.

(** The effect on a feed with videos: every registered element is played
    or paused and reset, and [unmutedVideoId] is cleared when the unmuted
    video is registered and not current. *)
Lemma playPauseEffect_spec (c : Snap.React) (s : Snap.State) :
  Snap.videos c ≠ [] ->
  let s' := Snap.playPauseEffect c s in
  (forall k, Snap.videoRefs s' !! k = afterPlayPause c k <$> Snap.videoRefs s !! k)
  /\ Snap.unmutedVideoId (Snap.react s')
     = (if clearsUnmuted c (Snap.videoRefs s) then None
        else Snap.unmutedVideoId (Snap.react s))
  /\ playbackOnly s s'.
Proof.
  intros Hne. unfold Snap.playPauseEffect.
  assert (Hlen : (length (Snap.videos c) =? 0)%nat = false).
  { destruct (Snap.videos c); [contradiction|reflexivity]. }
  rewrite Hlen. unfold forEachEntry.
  destruct (playPause_fold c (map_to_list (Snap.videoRefs s)) s)
    as (Hr & Hu & Hf).
  cbn zeta in *. split; [|split; [|exact Hf]].
  - intros k. rewrite Hr.
    rewrite foldl_alter_lookup by apply NoDup_fst_map_to_list.
    destruct (decide (k ∈ (map_to_list (Snap.videoRefs s)).*1)) as [Hin|Hin];
      [reflexivity|].
    destruct (Snap.videoRefs s !! k) as [e|] eqn:He; [|reflexivity].
    exfalso. apply Hin. apply list_elem_of_fmap. exists (k, e).
    split; [reflexivity|]. by apply elem_of_map_to_list.
  - by rewrite Hu, existsb_autoMutes.
Qed.

Lemma playPauseEffect_empty (c : Snap.React) (s : Snap.State) :
  Snap.videos c = [] -> Snap.playPauseEffect c s = s.
Proof. intros Hv. unfold Snap.playPauseEffect. by rewrite Hv. Qed.

(* ===================================================================== *)
(** * Handlers that only navigate                                         *)
(* ===================================================================== *)

Lemma navigationOnly_refl (c : Snap.React) (s : Snap.State) :
  navigationOnly c s s.
Proof. unfold navigationOnly. repeat split. by left. Qed.

Lemma navigationOnly_trans (c : Snap.React) (s1 s2 s3 : Snap.State) :
  navigationOnly c s1 s2 -> navigationOnly c s2 s3 -> navigationOnly c s1 s3.
Proof.
  unfold navigationOnly.
  intros (Hr & Hv & Hs & He & Hu & Hi) (Hr' & Hv' & Hs' & He' & Hu' & Hi').
  rewrite Hr', Hv', Hs', He', Hu'. repeat split; try assumption.
  destruct Hi' as [->|Hi']; [exact Hi|by right].
Qed.

(** [snapToIndex] in one equation: nothing, or the snap to the clamped
    index. *)
Lemma snapToIndex_cases (c : Snap.React) (target : Z) (immediate : bool)
    (s : Snap.State) :
  let clampedIndex :=
    Z.max 0 (Z.min target (Z.of_nat (length (Snap.videos c)) - 1)) in
  Snap.snapToIndex c target immediate s = s
  \/ (0 <= clampedIndex < Z.of_nat (length (Snap.videos c))
      /\ ((clampedIndex =? Snap.currentIndex c) && negb immediate = false)
      /\ Snap.snapToIndex c target immediate s
         = Snap.withSnapTimers S
             (Snap.setCurrentIndex clampedIndex
                (Snap.styleCard (Snap.getCardByIndex c (Snap.currentIndex c))
                   (Snap.mkCardStyle Snap.transform_empty Snap.transition_empty)
                   (Snap.withScroll
                      (fun ss =>
                         Snap.set_accumulatedDelta 0
                           (Snap.set_targetIndex clampedIndex
                              (Snap.set_isScrolling true ss)))
                      s)))).
Proof.
  intros clampedIndex. unfold Snap.snapToIndex. fold clampedIndex.
  destruct ((clampedIndex =? Snap.currentIndex c) && negb immediate) eqn:Hno;
    [by left|].
  destruct (Snap.getCardByIndex c clampedIndex) eqn:Hcard; [|by left].
  right. unfold Snap.getCardByIndex in Hcard.
  destruct ((0 <=? clampedIndex)
            && (clampedIndex <? Z.of_nat (length (Snap.videos c)))) eqn:Hin;
    [|discriminate].
  apply andb_true_iff in Hin as [H0 H1].
  apply Z.leb_le in H0. apply Z.ltb_lt in H1. repeat split; assumption.
Qed.

Section Navigation.

Variable c : Snap.React.
Variables s s' : Snap.State.
Hypothesis Hnav : navigationOnly c s s'.

Lemma nav_withScroll (f : Snap.ScrollState -> Snap.ScrollState) :
  navigationOnly c s (Snap.withScroll f s').
Proof. exact Hnav. Qed.

Lemma nav_withWheelTimeout (b : bool) :
  navigationOnly c s (Snap.withWheelTimeout b s').
Proof. exact Hnav. Qed.

Lemma nav_withSnapTimers (f : nat -> nat) :
  navigationOnly c s (Snap.withSnapTimers f s').
Proof. exact Hnav. Qed.

Lemma nav_styleCard (card : option Z) (st : Snap.CardStyle) :
  navigationOnly c s (Snap.styleCard card st s').
Proof. destruct card; exact Hnav. Qed.

End Navigation.

Lemma nav_snapToIndex (c : Snap.React) (s s' : Snap.State) (target : Z)
    (immediate : bool) :
  navigationOnly c s s' ->
  navigationOnly c s (Snap.snapToIndex c target immediate s').
Proof.
  intros Hnav.
  destruct (snapToIndex_cases c target immediate s') as [->|(Hr & _ & ->)];
    [exact Hnav|].
  apply nav_withSnapTimers.
  eapply navigationOnly_trans; [exact Hnav|].
  unfold navigationOnly.
  destruct (Snap.getCardByIndex c (Snap.currentIndex c)); cbn;
    repeat split; by right.
Qed.


Ltac navigation :=
  repeat first
    [ apply navigationOnly_refl
    | apply nav_withScroll
    | apply nav_withWheelTimeout
    | apply nav_withSnapTimers
    | apply nav_styleCard
    | apply nav_snapToIndex
    | match goal with
      | |- navigationOnly _ _ (if ?b then _ else _) => destruct b
      | |- navigationOnly _ _ (match ?n with O => _ | S _ => _ end) => destruct n
      end ].

Lemma handleWheel_navigationOnly (c : Snap.React) (deltaY : float) (now : Z)
    (cardHeight : float)
    (s : Snap.State) :
  navigationOnly c s (Snap.handleWheel c deltaY now cardHeight s).
Proof. unfold Snap.handleWheel. cbv zeta. navigation. Qed.

Lemma handleTouchStart_navigationOnly (c : Snap.React) (y : option float)
    (s : Snap.State) :
  navigationOnly c s (Snap.handleTouchStart y s).
Proof. unfold Snap.handleTouchStart. navigation. Qed.

Lemma handleTouchMove_navigationOnly (c : Snap.React) (y : option float)
    (s : Snap.State) :
  navigationOnly c s (Snap.handleTouchMove c y s).
Proof. unfold Snap.handleTouchMove. cbv zeta. navigation. Qed.

Lemma handleTouchEnd_navigationOnly (c : Snap.React) (cardHeight : float)
    (s : Snap.State) :
  navigationOnly c s (Snap.handleTouchEnd c cardHeight s).
Proof. unfold Snap.handleTouchEnd. cbv zeta. navigation. Qed.

Lemma wheelTimeoutCallback_navigationOnly (c : Snap.React) (s : Snap.State) :
  navigationOnly c s (Snap.wheelTimeoutCallback c s).
Proof. unfold Snap.wheelTimeoutCallback. cbv zeta. navigation. Qed.

Lemma firstCardEffect_navigationOnly (c : Snap.React) (s : Snap.State) :
  navigationOnly c s (Snap.firstCardEffect c s).
Proof. unfold Snap.firstCardEffect. navigation. Qed.

(* ===================================================================== *)
(** * One commit                                                          *)
(* ===================================================================== *)

Lemma firstCardEffect_index (c : Snap.React) (s : Snap.State) :
  Snap.currentIndex (Snap.react s) = Snap.currentIndex c ->
  Snap.currentIndex (Snap.react (Snap.firstCardEffect c s)) = Snap.currentIndex c.
Proof.
  intros Hi. unfold Snap.firstCardEffect.
  destruct ((0 <? Z.of_nat (length (Snap.videos c)))
            && (Snap.currentIndex c =? 0)) eqn:Hg; [|exact Hi].
  apply andb_true_iff in Hg as [Hlen H0].
  apply Z.ltb_lt in Hlen. apply Z.eqb_eq in H0.
  destruct (snapToIndex_cases c 0 true s) as [->|(_ & _ & ->)]; [exact Hi|].
  destruct (Snap.getCardByIndex c (Snap.currentIndex c)); cbn; lia.
Qed.

Lemma clearsUnmuted_dom (c : Snap.React) (refs refs' : VideoRefs) :
  (forall k, is_Some (refs' !! k) <-> is_Some (refs !! k)) ->
  clearsUnmuted c refs' = clearsUnmuted c refs.
Proof.
  intros Hdom. unfold clearsUnmuted.
  destruct (Snap.unmutedVideoId c) as [u|]; [|reflexivity].
  f_equal. apply bool_decide_ext, Hdom.
Qed.

Section Commit.

Variable KEY : string.
Variables p c : Snap.React.
Variable s : Snap.State.
Hypothesis Hc : Snap.react s = c.

Let A := attachRefs (Snap.videos c) (Snap.videoRefs s).
Let mutes := bool_decide (Snap.unmutedVideoId p ≠ Snap.unmutedVideoId c).
Let places :=
  bool_decide (Snap.videos p ≠ Snap.videos c)
  || bool_decide (Snap.currentIndex p ≠ Snap.currentIndex c).
Let runs := (places || mutes) && negb (bool_decide (Snap.videos c = [])).

(** The elements and the state cells after the commit of a render that
    closed over the current cells. *)
Lemma commit_spec :
  let s' := Snap.commit KEY (Some p) c s in
  (forall k,
     Snap.videoRefs s' !! k
     = (if runs then afterPlayPause c k else fun e => e)
         <$> ((if mutes then setMuted (shouldMute (Snap.unmutedVideoId c) k)
               else fun e => e) <$> A !! k))
  /\ Snap.videos (Snap.react s') = Snap.videos c
  /\ Snap.status (Snap.react s') = Snap.status c
  /\ Snap.errorMessage (Snap.react s') = Snap.errorMessage c
  /\ Snap.currentIndex (Snap.react s') = Snap.currentIndex c
  /\ Snap.unmutedVideoId (Snap.react s')
     = (if runs && clearsUnmuted c A then None else Snap.unmutedVideoId c).
Proof.
  unfold Snap.commit. fold mutes. fold places.
  set (s0 := Snap.withRefs (attachRefs (Snap.videos c)) s).
  set (s2 := if mutes then Snap.withRefs (muteEffect (Snap.unmutedVideoId c)) s0
             else s0).
  set (s3 := if places || mutes then Snap.playPauseEffect c s2 else s2).
  set (s4 := if places then Snap.withWheelTimeout false s3 else s3).
  assert (H2r : forall k,
             Snap.videoRefs s2 !! k
             = (if mutes then setMuted (shouldMute (Snap.unmutedVideoId c) k)
                else fun e => e) <$> A !! k).
  { intros k. unfold s2. destruct mutes.
    - exact (muteEffect_lookup (Snap.unmutedVideoId c) A k).
    - change (Snap.videoRefs s0) with A. by destruct (A !! k). }
  assert (H2c : Snap.react s2 = c) by (unfold s2; destruct mutes; exact Hc).
  assert (H3 : (forall k,
                  Snap.videoRefs s3 !! k
                  = (if runs then afterPlayPause c k else fun e => e)
                      <$> Snap.videoRefs s2 !! k)
               /\ Snap.unmutedVideoId (Snap.react s3)
                  = (if runs && clearsUnmuted c A then None
                     else Snap.unmutedVideoId c)
               /\ playbackOnly s2 s3).
  { unfold s3, runs. destruct (places || mutes); cbn [andb].
    - destruct (decide (Snap.videos c = [])) as [Hv|Hv].
      + rewrite (playPauseEffect_empty c s2 Hv).
        rewrite bool_decide_eq_true_2 by exact Hv. cbn.
        split; [intros k; by destruct (Snap.videoRefs s2 !! k)|].
        split; [by rewrite H2c|apply playbackOnly_refl].
      + rewrite bool_decide_eq_false_2 by exact Hv. cbn.
        destruct (playPauseEffect_spec c s2 Hv) as (Hr & Hu & Hf).
        split; [exact Hr|]. split; [|exact Hf].
        cbn zeta in Hu. rewrite Hu, H2c.
        rewrite (clearsUnmuted_dom c A (Snap.videoRefs s2)); [reflexivity|].
        intros k. rewrite H2r. by rewrite fmap_is_Some.
    - split; [intros k; by destruct (Snap.videoRefs s2 !! k)|].
      split; [by rewrite H2c|apply playbackOnly_refl]. }
  destruct H3 as (H3r & H3u & (_ & _ & _ & _ & H3v & H3s & H3e & H3i)).
  rewrite H2c in H3v, H3s, H3e, H3i.
  assert (H4 : Snap.videoRefs s4 = Snap.videoRefs s3
               /\ Snap.react s4 = Snap.react s3)
    by (unfold s4; destruct places; split; reflexivity).
  destruct H4 as [H4r H4c].
  assert (H5 : navigationOnly c s4 (if places then Snap.firstCardEffect c s4 else s4)
               /\ Snap.currentIndex
                    (Snap.react (if places then Snap.firstCardEffect c s4 else s4))
                  = Snap.currentIndex c).
  { destruct places.
    - split; [apply firstCardEffect_navigationOnly|].
      apply firstCardEffect_index. by rewrite H4c.
    - split; [apply navigationOnly_refl|]. by rewrite H4c. }
  destruct H5 as [(H5r & H5v & H5s & H5e & H5u & _) H5i].
  cbn zeta. rewrite H5v, H5s, H5e, H5u, H5i, H4c, H3v, H3s, H3e, H3u.
  split; [|done]. intros k. rewrite H5r, H4r, H3r, H2r. reflexivity.
Qed.

End Commit.

Lemma muted_afterPlayPause (c : Snap.React) (k : Z) (e : VideoElement) :
  muted (afterPlayPause c k e)
  = if autoMutes c k then true else muted e.
Proof.
  unfold afterPlayPause, autoMutes.
  destruct (findIndex (Snap.videos c) k =? Snap.currentIndex c); cbn;
    [reflexivity|].
  by destruct (bool_decide (Snap.unmutedVideoId c = Some k)).
Qed.

Lemma paused_afterPlayPause (c : Snap.React) (k : Z) (e : VideoElement) :
  paused (afterPlayPause c k e)
  = negb (findIndex (Snap.videos c) k =? Snap.currentIndex c)
  /\ (paused (afterPlayPause c k e) = true
      -> currentTime (afterPlayPause c k e) = 0).
Proof.
  unfold afterPlayPause.
  destruct (findIndex (Snap.videos c) k =? Snap.currentIndex c); cbn.
  - split; [reflexivity|discriminate].
  - by destruct (bool_decide (Snap.unmutedVideoId c = Some k)).
Qed.

(** A handler leaves the precondition of the render; the commit of that
    render restores the invariant. *)
Lemma commit_Inv (KEY : string) (p : Snap.React) (h : Snap.State) :
  Pre p h ->
  let c := Snap.react h in
  let s1 := Snap.commit KEY (Some p) c h in
  Inv s1
  /\ Snap.videos (Snap.react s1) = Snap.videos c
  /\ Snap.status (Snap.react s1) = Snap.status c
  /\ Snap.errorMessage (Snap.react s1) = Snap.errorMessage c
  /\ Snap.currentIndex (Snap.react s1) = Snap.currentIndex c
  /\ (Snap.unmutedVideoId (Snap.react s1) = Snap.unmutedVideoId c
      \/ (Snap.unmutedVideoId (Snap.react s1) = None
          /\ exists u, Snap.unmutedVideoId c = Some u
                       /\ findIndex (Snap.videos c) u ≠ Snap.currentIndex c)).
Proof.
  intros [Pidx Punm Psync Pplaced Pload _] c s1.
  destruct (commit_spec KEY p c h eq_refl) as (Hr & Hv & Hs & He & Hi & Hu).
  fold s1 in Hr, Hv, Hs, He, Hi, Hu. fold c in Pidx, Punm, Psync, Pplaced, Pload.
  set (A := attachRefs (Snap.videos c) (Snap.videoRefs h)) in *.
  set (mutes := bool_decide (Snap.unmutedVideoId p ≠ Snap.unmutedVideoId c)) in *.
  set (places := bool_decide (Snap.videos p ≠ Snap.videos c)
                 || bool_decide (Snap.currentIndex p ≠ Snap.currentIndex c)) in *.
  set (runs := (places || mutes) && negb (bool_decide (Snap.videos c = []))) in *.
  (* the registered ids *)
  assert (Hdom : forall k, is_Some (Snap.videoRefs s1 !! k) <-> k ∈ ids (Snap.videos c)).
  { intros k. rewrite Hr, !fmap_is_Some. apply attachRefs_dom. }
  (* when the play/pause effect did not run, nothing it depends on changed *)
  assert (Hidle : runs = false ->
            (forall k a, A !! k = Some a -> False)
            \/ (mutes = false /\ placed c A
                /\ forall u, Snap.unmutedVideoId c = Some u ->
                     findIndex (Snap.videos c) u = Snap.currentIndex c)).
  { unfold runs. intros Hrun. apply andb_false_iff in Hrun as [Hrun|Hrun].
    - right. apply orb_false_iff in Hrun as [Hp Hm]. split; [exact Hm|].
      unfold places in Hp. apply orb_false_iff in Hp as [Hp1 Hp2].
      apply bool_decide_eq_false in Hp1, Hp2, Hm.
      apply Pplaced; apply dec_stable; assumption.
    - left. intros k a Ha. apply negb_false_iff, bool_decide_eq_true in Hrun.
      assert (Hin : is_Some (A !! k)) by eauto.
      apply attachRefs_dom in Hin. rewrite Hrun in Hin.
      by apply not_elem_of_nil in Hin. }
  assert (Hmuted : forall k a, A !! k = Some a ->
            muted ((if mutes then setMuted (shouldMute (Snap.unmutedVideoId c) k)
                    else fun e => e) a)
            = shouldMute (Snap.unmutedVideoId c) k).
  { intros k a Ha. destruct mutes eqn:Hm; [reflexivity|].
    apply (Psync ltac:(apply bool_decide_eq_false in Hm; by apply dec_stable) k a Ha). }
  assert (Hlook : forall k e, Snap.videoRefs s1 !! k = Some e ->
            exists a, A !! k = Some a
              /\ e = (if runs then afterPlayPause c k else fun e => e)
                       ((if mutes then setMuted (shouldMute (Snap.unmutedVideoId c) k)
                         else fun e => e) a)).
  { intros k e. rewrite Hr. destruct (A !! k) as [a|]; [|discriminate].
    intros [= <-]. eauto. }
  split; [constructor|].
  - intros k. rewrite Hv. apply Hdom.
  - rewrite Hv, Hi. exact Pidx.
  - intros u. rewrite Hv, Hi, Hu.
    destruct (runs && clearsUnmuted c A) eqn:Hcl; [discriminate|].
    intros Hun. split; [by apply Punm|].
    destruct runs eqn:Hrun.
    + cbn in Hcl. unfold clearsUnmuted in Hcl. rewrite Hun in Hcl.
      rewrite bool_decide_eq_true_2 in Hcl
        by (apply attachRefs_dom; by apply Punm).
      cbn in Hcl. apply negb_false_iff, Z.eqb_eq in Hcl. exact Hcl.
    + destruct (Hidle eq_refl) as [Hemp|(_ & _ & Hf)]; [|by apply Hf].
      exfalso. pose proof (Punm u Hun) as Hin.
      assert (Hsome : is_Some (A !! u)) by (by apply attachRefs_dom).
      destruct Hsome as [a Ha]. by apply (Hemp u a).
  - intros k e Hk. destruct (Hlook k e Hk) as (a & Ha & ->).
    pose proof (Hmuted k a Ha) as Hm. rewrite Hu.
    destruct runs eqn:Hrun; [|cbn; exact Hm].
    rewrite muted_afterPlayPause, Hm. cbn [andb].
    unfold clearsUnmuted, autoMutes, shouldMute.
    destruct (Snap.unmutedVideoId c) as [u|] eqn:Hun.
    + destruct (decide (k = u)) as [->|Hne].
      * rewrite (bool_decide_eq_true_2 (Some u = Some u)) by reflexivity.
        rewrite bool_decide_eq_true_2 by eauto.
        destruct (findIndex (Snap.videos c) u =? Snap.currentIndex c); cbn;
          rewrite ?Z.eqb_refl; reflexivity.
      * rewrite (bool_decide_eq_false_2 (Some u = Some k)) by congruence.
        rewrite andb_false_r.
        assert (Hku : (k =? u) = false) by (by apply Z.eqb_neq).
        rewrite Hku. cbn.
        destruct (bool_decide (is_Some (A !! u))
                  && negb (findIndex (Snap.videos c) u =? Snap.currentIndex c));
          [reflexivity|by rewrite Hku].
    + rewrite andb_false_r. reflexivity.
  - intros k e Hk. rewrite Hv, Hi. destruct (Hlook k e Hk) as (a & Ha & ->).
    destruct runs eqn:Hrun; [apply paused_afterPlayPause|].
    destruct (Hidle eq_refl) as [Hemp|(Hm & Hpl & _)];
      [exfalso; by apply (Hemp k a)|].
    rewrite Hm. by apply Hpl.
  - rewrite Hs, Hv. exact Pload.
  - repeat (split; [assumption|]). rewrite Hu.
    destruct (runs && clearsUnmuted c A) eqn:Hcl; [right|by left].
    split; [reflexivity|]. apply andb_true_iff in Hcl as [_ Hcl].
    unfold clearsUnmuted in Hcl.
    destruct (Snap.unmutedVideoId c) as [u|]; [|discriminate].
    exists u. split; [reflexivity|].
    apply andb_true_iff in Hcl as [_ Hcl].
    apply negb_true_iff, Z.eqb_neq in Hcl. exact Hcl.
Qed.

(* ===================================================================== *)
(** * Rendering until settled                                             *)
(* ===================================================================== *)

Lemma React_ext (r1 r2 : Snap.React) :
  Snap.videos r1 = Snap.videos r2 ->
  Snap.status r1 = Snap.status r2 ->
  Snap.errorMessage r1 = Snap.errorMessage r2 ->
  Snap.unmutedVideoId r1 = Snap.unmutedVideoId r2 ->
  Snap.currentIndex r1 = Snap.currentIndex r2 ->
  r1 = r2.
Proof. destruct r1, r2; cbn; congruence. Qed.

Lemma Inv_Pre (p : Snap.React) (h : Snap.State) : Inv h -> Pre p h.
Proof.
  intros HI. pose proof HI as [Hdom Hidx Hun Hsync Hpl Hload].
  rewrite <- (attachRefs_same _ _ Hdom) in Hsync, Hpl.
  constructor; try done.
  - intros u Hu. by apply Hun.
  - intros _ _ _. split; [exact Hpl|]. intros u Hu. by apply Hun.
Qed.

(** The invariant looks at the state cells and at the elements only. *)
Lemma Inv_ext (s s' : Snap.State) :
  Snap.react s' = Snap.react s -> Snap.videoRefs s' = Snap.videoRefs s ->
  Inv s -> Inv s'.
Proof.
  intros Hc Hr [Hdom Hidx Hun Hsync Hpl Hload].
  constructor; rewrite ?Hc, ?Hr; assumption.
Qed.

(** Rendering from a state a handler left reaches a settled state within
    the three rounds of [settle], the invariant holds there, and of the
    state cells only [unmutedVideoId] can differ from what the handler
    left: it may have been cleared. *)
Lemma settle_Inv (KEY : string) (p : Snap.React) (h : Snap.State) :
  Pre p h ->
  let s' := Snap.settle KEY (Some p) h in
  Inv s'
  /\ snd (Snap.renderLoop KEY 3 (Some p) h) = Some (Snap.react s')
  /\ Snap.videos (Snap.react s') = Snap.videos (Snap.react h)
  /\ Snap.status (Snap.react s') = Snap.status (Snap.react h)
  /\ Snap.errorMessage (Snap.react s') = Snap.errorMessage (Snap.react h)
  /\ Snap.currentIndex (Snap.react s') = Snap.currentIndex (Snap.react h)
  /\ (Snap.unmutedVideoId (Snap.react s') = Snap.unmutedVideoId (Snap.react h)
      \/ (Snap.unmutedVideoId (Snap.react s') = None
          /\ exists u, Snap.unmutedVideoId (Snap.react h) = Some u
               /\ findIndex (Snap.videos (Snap.react h)) u
                  ≠ Snap.currentIndex (Snap.react h))).
Proof.
  intros HP. unfold Snap.settle. cbn [Snap.renderLoop].
  destruct (decide (Some p = Some (Snap.react h))) as [Heq|Hne].
  - rewrite bool_decide_eq_true_2 by exact Heq. cbn [fst snd].
    split; [apply (pre_same _ _ HP); congruence|].
    split; [exact Heq|]. repeat (split; [reflexivity|]). by left.
  - rewrite bool_decide_eq_false_2 by exact Hne.
    destruct (commit_Inv KEY p h HP) as (HI1 & Hv1 & Hs1 & He1 & Hi1 & Hu1).
    cbn zeta in *.
    set (s1 := Snap.commit KEY (Some p) (Snap.react h) h) in *.
    destruct (decide (Some (Snap.react h) = Some (Snap.react s1))) as [Heq1|Hne1].
    + rewrite bool_decide_eq_true_2 by exact Heq1. cbn [fst snd].
      split; [exact HI1|]. split; [exact Heq1|]. by repeat (split; [assumption|]).
    + rewrite bool_decide_eq_false_2 by exact Hne1.
      destruct Hu1 as [Hu1|(Hu1 & u & Hu & Hf)].
      { exfalso. apply Hne1. f_equal. symmetry. by apply React_ext. }
      destruct (commit_Inv KEY (Snap.react h) s1 (Inv_Pre _ _ HI1))
        as (HI2 & Hv2 & Hs2 & He2 & Hi2 & Hu2).
      cbn zeta in *.
      set (s2 := Snap.commit KEY (Some (Snap.react h)) (Snap.react s1) s1) in *.
      assert (Hu2' : Snap.unmutedVideoId (Snap.react s2) = None).
      { destruct Hu2 as [Hu2|(Hu2 & _)]; congruence. }
      assert (Heq2 : Snap.react s1 = Snap.react s2)
        by (apply React_ext; congruence).
      rewrite bool_decide_eq_true_2 by (by f_equal). cbn [fst snd].
      split; [exact HI2|]. split; [by f_equal|].
      repeat (split; [congruence|]). right. split; [exact Hu2'|]. eauto.
Qed.

(* ===================================================================== *)
(** * The invariant along a run                                           *)
(* ===================================================================== *)

(** Reading a cell of an updated state. *)
Ltac cells :=
  cbn [Snap.react Snap.videoRefs Snap.scrollState Snap.cardStyles
       Snap.snapTimers Snap.wheelTimeout Snap.videos Snap.status
       Snap.errorMessage Snap.unmutedVideoId Snap.currentIndex
       Snap.withReact Snap.withRefs Snap.withScroll Snap.withStyles
       Snap.withSnapTimers Snap.withWheelTimeout Snap.setVideos
       Snap.setStatus Snap.setErrorMessage Snap.setUnmutedVideoId
       Snap.setCurrentIndex] in *.

Lemma navigationOnly_Pre (s h : Snap.State) :
  Inv s -> navigationOnly (Snap.react s) s h -> Pre (Snap.react s) h.
Proof.
  intros HI (Hr & Hv & Hs & He & Hu & Hi).
  pose proof HI as [Hdom Hidx Hun Hsync Hpl Hload].
  assert (HA : attachRefs (Snap.videos (Snap.react h)) (Snap.videoRefs h)
               = Snap.videoRefs s).
  { rewrite Hr, Hv. by apply attachRefs_same. }
  constructor.
  - rewrite Hv. destruct Hi as [->|Hi]; [exact Hidx|]. split; [lia|left; lia].
  - intros u. rewrite Hu, Hv. intros Hsome. by apply Hun.
  - intros _. rewrite HA. unfold synced. rewrite Hu. exact Hsync.
  - intros _ Hsame _. rewrite HA. unfold placed. rewrite Hu, Hv, <- Hsame.
    split; [exact Hpl|]. intros u Hsome. by apply Hun.
  - rewrite Hs, Hv. exact Hload.
  - intros Hc. by apply (Inv_ext s h).
Qed.

Lemma click_Pre (s : Snap.State) (id : Z) :
  Inv s -> Pre (Snap.react s) (Snap.click (Snap.react s) id s).
Proof.
  intros HI. pose proof HI as [Hdom Hidx Hun Hsync Hpl Hload].
  unfold Snap.click, handleVideoClick.
  destruct (Snap.videoRefs s !! id) as [e|] eqn:He.
  - assert (Hin : id ∈ ids (Snap.videos (Snap.react s))) by (apply Hdom; eauto).
    destruct (decide (Snap.unmutedVideoId (Snap.react s) = Some id)) as [Hact|Hact].
    + rewrite bool_decide_eq_true_2 by exact Hact.
      constructor; cbn; try done; try congruence.
      intros Hc. apply (f_equal Snap.unmutedVideoId) in Hc. cbn in Hc. congruence.
    + rewrite bool_decide_eq_false_2 by exact Hact.
      constructor; cbn; try done; try congruence.
      * by intros u [= <-].
      * intros Hc. apply (f_equal Snap.unmutedVideoId) in Hc. cbn in Hc. congruence.
  - apply navigationOnly_Pre; [exact HI|].
    unfold navigationOnly. cbn. repeat split. by left.
Qed.

Lemma fetchVideos_end_Pre (s : Snap.State) (r : FetchResult) :
  Inv s -> Snap.status (Snap.react s) = loading ->
  Pre (Snap.react s) (Snap.fetchVideos_end r s).
Proof.
  intros HI Hst. pose proof HI as [Hdom Hidx Hun Hsync Hpl Hload].
  pose proof (Hload Hst) as Hv.
  assert (Hnone : Snap.unmutedVideoId (Snap.react s) = None).
  { destruct (Snap.unmutedVideoId (Snap.react s)) as [u|] eqn:Hu; [|reflexivity].
    destruct (Hun u eq_refl) as [Hin _]. rewrite Hv in Hin.
    by apply not_elem_of_nil in Hin. }
  assert (Hzero : Snap.currentIndex (Snap.react s) = 0).
  { destruct Hidx as [Hge [Hlt|[_ H0]]]; [|exact H0]. rewrite Hv in Hlt.
    cbn in Hlt. lia. }
  unfold Snap.fetchVideos_end. destruct (tryBlock r) as [t|data_videos].
  - pose proof (navigationOnly_Pre s s HI (navigationOnly_refl _ s))
      as [P1 P2 P3 P4 P5 P6].
    constructor; cells; try assumption; try discriminate.
    intros Hc. apply (f_equal Snap.status) in Hc. cells. congruence.
  - constructor; cells; try discriminate.
    + rewrite Hzero. split; [lia|].
      destruct (formatVideos data_videos); [by right|left; cbn; lia].
    + rewrite Hnone. discriminate.
    + intros _ k e. rewrite attachRefs_lookup, Hnone.
      destruct (decide (k ∈ ids (formatVideos data_videos))); [|discriminate].
      rewrite Hv in Hdom.
      destruct (Snap.videoRefs s !! k) as [e'|] eqn:He'.
      * exfalso. assert (Hin : k ∈ ids []) by (apply Hdom; eauto).
        by apply not_elem_of_nil in Hin.
      * by intros [= <-].
    + intros Hsame _ _. rewrite <- Hsame, Hv. split.
      * intros k e. rewrite attachRefs_lookup.
        rewrite decide_False by apply not_elem_of_nil. discriminate.
      * rewrite Hnone. discriminate.
    + intros Hc. apply (f_equal Snap.status) in Hc. cells. congruence.
Qed.

Lemma playback_Inv (s : Snap.State) (elapsed : Z) :
  Inv s -> Inv (Snap.withRefs (fmap (Snap.advancePlayback elapsed)) s).
Proof.
  intros [Hdom Hidx Hun Hsync Hpl Hload].
  assert (Hlook : forall k e,
            (Snap.advancePlayback elapsed <$> Snap.videoRefs s) !! k = Some e ->
            exists a, Snap.videoRefs s !! k = Some a
                      /\ e = Snap.advancePlayback elapsed a).
  { intros k e. rewrite lookup_fmap.
    destruct (Snap.videoRefs s !! k) as [a|]; [|discriminate].
    intros [= <-]. eauto. }
  constructor; cbn; try assumption.
  - intros k. rewrite lookup_fmap, fmap_is_Some. apply Hdom.
  - intros k e Hk. destruct (Hlook k e Hk) as (a & Ha & ->).
    rewrite <- (Hsync k a Ha). unfold Snap.advancePlayback.
    by destruct (paused a).
  - intros k e Hk. destruct (Hlook k e Hk) as (a & Ha & ->).
    destruct (Hpl k a Ha) as [Hp Ht]. unfold Snap.advancePlayback.
    destruct (paused a) eqn:Hpa; [by rewrite Hpa|]. cbn. rewrite Hpa.
    split; [exact Hp|discriminate].
Qed.

Lemma handle_Pre (e : Snap.Event) (s : Snap.State) :
  Inv s -> Pre (Snap.react s) (Snap.handle e s).
Proof.
  intros HI. destruct e; cbn [Snap.handle].
  - destruct (decide (Snap.status (Snap.react s) = loading)) as [Hst|Hst].
    + rewrite bool_decide_eq_true_2 by exact Hst. by apply fetchVideos_end_Pre.
    + rewrite bool_decide_eq_false_2 by exact Hst. by apply Inv_Pre.
  - apply navigationOnly_Pre; [exact HI|]. destruct (Snap.listening _);
      [apply handleWheel_navigationOnly|apply navigationOnly_refl].
  - apply navigationOnly_Pre; [exact HI|]. destruct (Snap.listening _);
      [apply handleTouchStart_navigationOnly|apply navigationOnly_refl].
  - apply navigationOnly_Pre; [exact HI|]. destruct (Snap.listening _);
      [apply handleTouchMove_navigationOnly|apply navigationOnly_refl].
  - apply navigationOnly_Pre; [exact HI|]. destruct (Snap.listening _);
      [apply handleTouchEnd_navigationOnly|apply navigationOnly_refl].
  - by apply click_Pre.
  - apply navigationOnly_Pre; [exact HI|]. unfold Snap.snapTimeoutCallback.
    navigation.
  - apply navigationOnly_Pre; [exact HI|]. destruct (Snap.wheelTimeout s);
      [apply wheelTimeoutCallback_navigationOnly|apply navigationOnly_refl].
  - apply Inv_Pre. by apply playback_Inv.
Qed.

Lemma step_Inv (KEY : string) (s : Snap.State) (e : Snap.Event) :
  Inv s -> Inv (Snap.step KEY s e).
Proof.
  intros HI. unfold Snap.step.
  by destruct (settle_Inv KEY (Snap.react s) (Snap.handle e s) (handle_Pre e s HI))
    as (HI' & _).
Qed.

Lemma mounted_cases (KEY : string) :
  Snap.mounted KEY
  = Snap.mkState
      (if falsy KEY
       then Snap.mkReact [] error (Some "Missing Pexels API key."%string) None 0
       else Snap.mkReact [] loading None None 0)
      ∅ (Snap.mkScrollState false false 0 0 0 0 0) ∅ 0%nat false.
Proof.
  unfold Snap.mounted, Snap.settle, Snap.renderLoop, Snap.commit,
    Snap.fetchVideos_begin.
  destruct (falsy KEY); reflexivity.
Qed.

Lemma mounted_Inv (KEY : string) : Inv (Snap.mounted KEY).
Proof.
  rewrite mounted_cases.
  constructor; cbn.
  - intros k. rewrite lookup_empty. split; [by intros [? ?]|].
    destruct (falsy KEY); cbn; intros Hin; by apply not_elem_of_nil in Hin.
  - destruct (falsy KEY); cbn; split; try lia; by right.
  - destruct (falsy KEY); discriminate.
  - intros k e. rewrite lookup_empty. discriminate.
  - intros k e. rewrite lookup_empty. discriminate.
  - by destruct (falsy KEY).
Qed.

Lemma run_from_Inv (KEY : string) (events : list Snap.Event) (s : Snap.State) :
  Inv s -> Inv (foldl (Snap.step KEY) s events).
Proof.
  revert s. induction events as [|e events IH]; intros s HI; [exact HI|].
  cbn [foldl]. apply IH. by apply step_Inv.
Qed.

Lemma run_Inv (KEY : string) (events : list Snap.Event) :
  Inv (Snap.run KEY events).
Proof. apply run_from_Inv, mounted_Inv. Qed.

(* ===================================================================== *)
(** * Playback: one element plays, the one of the current card            *)
(* ===================================================================== *)

Lemma Inv_playing (s : Snap.State) :
  Inv s ->
  let c := Snap.react s in
  (forall k e, Snap.videoRefs s !! k = Some e ->
     (playing e <-> findIndex (Snap.videos c) k = Snap.currentIndex c)
     /\ (~ playing e -> paused e = true /\ currentTime e = 0))
  /\ (forall k1 e1 k2 e2,
        Snap.videoRefs s !! k1 = Some e1 -> Snap.videoRefs s !! k2 = Some e2 ->
        playing e1 -> playing e2 -> k1 = k2)
  /\ (forall k e, Snap.videoRefs s !! k = Some e -> playing e ->
        exists v, Snap.videos c !! Z.to_nat (Snap.currentIndex c) = Some v
                  /\ id v = k)
  /\ (forall v, Snap.videos c !! Z.to_nat (Snap.currentIndex c) = Some v ->
        findIndex (Snap.videos c) (id v) = Snap.currentIndex c ->
        exists e, Snap.videoRefs s !! id v = Some e /\ playing e)
  /\ (Snap.videos c = [] -> Snap.videoRefs s = ∅).
Proof.
  intros [Hdom Hidx Hun Hsync Hpl Hload] c. fold c in Hdom, Hidx, Hun, Hsync, Hpl.
  assert (Hplay : forall k e, Snap.videoRefs s !! k = Some e ->
            (playing e <-> findIndex (Snap.videos c) k = Snap.currentIndex c)).
  { intros k e Hk. destruct (Hpl k e Hk) as [Hp _]. unfold playing. rewrite Hp.
    rewrite negb_false_iff. apply Z.eqb_eq. }
  split; [|split; [|split; [|split]]].
  - intros k e Hk. split; [by apply Hplay|]. intros Hnot.
    destruct (Hpl k e Hk) as [_ Ht]. unfold playing in Hnot.
    destruct (paused e); [split; [reflexivity|by apply Ht]|by destruct Hnot].
  - intros k1 e1 k2 e2 H1 H2 P1 P2.
    apply (Hplay k1 e1 H1) in P1. apply (Hplay k2 e2 H2) in P2.
    apply (findIndex_inj (Snap.videos c)); [lia|congruence].
  - intros k e Hk P. apply (Hplay k e Hk) in P.
    assert (H0 : 0 <= findIndex (Snap.videos c) k) by lia.
    destruct (findIndex_found _ _ H0) as (v & Hv & Hid).
    exists v. by rewrite <- P.
  - intros v Hv Hfi.
    assert (Hin : id v ∈ ids (Snap.videos c)).
    { apply list_elem_of_fmap. exists v. split; [reflexivity|].
      by apply list_elem_of_lookup_2 in Hv. }
    apply Hdom in Hin as [e He]. exists e. split; [exact He|].
    by apply (Hplay _ e He).
  - intros Hv. apply map_eq. intros k. rewrite lookup_empty.
    destruct (Snap.videoRefs s !! k) as [e|] eqn:He; [|reflexivity].
    exfalso. assert (Hin : k ∈ ids (Snap.videos c)) by (apply Hdom; eauto).
    rewrite Hv in Hin. by apply not_elem_of_nil in Hin.
Qed.

(** C1. After any sequence of events (loading, wheel and touch input,
    clicks, timers, playback) the settled feed has at most one playing
    element; an element plays exactly when the first place of its id in
    the feed is [currentIndex], so the playing element is the one of the
    video at [currentIndex], and it does play when that video first occurs
    there; every other registered element is paused at position zero; an
    empty feed has no registered element, hence none that plays. The
    play/pause effect itself, on a feed with videos, requests playback of
    the registered element found at [currentIndex] and pauses and resets
    every other one, and does nothing on an empty feed. *)
Theorem C1_one_playing_element (KEY : string) (events : list Snap.Event)
    (c0 : Snap.React) (s0 : Snap.State) :
  let s := Snap.run KEY events in
  let c := Snap.react s in
  (forall k e, Snap.videoRefs s !! k = Some e ->
     (playing e <-> findIndex (Snap.videos c) k = Snap.currentIndex c)
     /\ (~ playing e -> paused e = true /\ currentTime e = 0))
  /\ (forall k1 e1 k2 e2,
        Snap.videoRefs s !! k1 = Some e1 -> Snap.videoRefs s !! k2 = Some e2 ->
        playing e1 -> playing e2 -> k1 = k2)
  /\ (forall k e, Snap.videoRefs s !! k = Some e -> playing e ->
        exists v, Snap.videos c !! Z.to_nat (Snap.currentIndex c) = Some v
                  /\ id v = k)
  /\ (forall v, Snap.videos c !! Z.to_nat (Snap.currentIndex c) = Some v ->
        findIndex (Snap.videos c) (id v) = Snap.currentIndex c ->
        exists e, Snap.videoRefs s !! id v = Some e /\ playing e)
  /\ (Snap.videos c = [] -> Snap.videoRefs s = ∅)
  /\ (Snap.videos c0 ≠ [] ->
      forall k e, Snap.videoRefs s0 !! k = Some e ->
        exists e', Snap.videoRefs (Snap.playPauseEffect c0 s0) !! k = Some e'
          /\ (findIndex (Snap.videos c0) k = Snap.currentIndex c0 -> playing e')
          /\ (findIndex (Snap.videos c0) k ≠ Snap.currentIndex c0 ->
              paused e' = true /\ currentTime e' = 0))
  /\ (Snap.videos c0 = [] -> Snap.playPauseEffect c0 s0 = s0).
Proof.
  intros s c.
  destruct (Inv_playing s (run_Inv KEY events)) as (H1 & H2 & H3 & H4 & H5).
  repeat (split; [assumption|]). split; [|apply playPauseEffect_empty].
  intros Hne k e Hk.
  destruct (playPauseEffect_spec c0 s0 Hne) as (Hr & _).
  cbn zeta in Hr. rewrite Hr, Hk. cbn. eexists. split; [reflexivity|].
  destruct (paused_afterPlayPause c0 k e) as [Hp Ht]. split.
  - intros Hact. unfold playing. rewrite Hp. by apply negb_false_iff, Z.eqb_eq.
  - intros Hina.
    assert (Hpa : paused (afterPlayPause c0 k e) = true).
    { rewrite Hp. by apply negb_true_iff, Z.eqb_neq. }
    split; [exact Hpa|by apply Ht].
Qed.

Lemma C1_witness :
  let s := Snap.run (API_KEY None)
             [Snap.Fetched (Responded true 200 "OK" fullPage); Snap.SnapTimeout;
              Snap.Wheel 100 0 800; Snap.Click 1] in
  Snap.currentIndex (Snap.react s) = 1
  /\ (forall k1 e1 k2 e2,
        Snap.videoRefs s !! k1 = Some e1 -> Snap.videoRefs s !! k2 = Some e2 ->
        playing e1 -> playing e2 -> k1 = k2)
  /\ (exists e, Snap.videoRefs s !! 2 = Some e /\ playing e).
Proof.
  pose proof (C1_one_playing_element (API_KEY None)
                [Snap.Fetched (Responded true 200 "OK" fullPage); Snap.SnapTimeout;
                 Snap.Wheel 100 0 800; Snap.Click 1]
                (Snap.react Snap.initial) Snap.initial)
    as (_ & Hone & _ & Hplays & _).
  split; [vm_compute; reflexivity|]. split; [exact Hone|].
  apply (Hplays (mkFeedVideo 2 "https://videos.example/hd.mp4"
                   "https://images.example/p.jpg" 10 "Unknown creator"
                   "https://www.pexels.com/videos/")).
  - vm_compute. reflexivity.
  - vm_compute. reflexivity.
Defined.

(* ===================================================================== *)
(** * Audio: one unmuted element, the one of the current card             *)
(* ===================================================================== *)

(** Only the wheel and touch handlers move [currentIndex]. *)
Lemma handle_navigation (e : Snap.Event) (s : Snap.State) :
  Snap.currentIndex (Snap.react (Snap.handle e s))
  ≠ Snap.currentIndex (Snap.react s) ->
  navigationOnly (Snap.react s) s (Snap.handle e s).
Proof.
  destruct e as [r|deltaY now cardHeight|y|y|cardHeight|vid| | |elapsed];
    cbn [Snap.handle]; intros Hmove.
  - exfalso. apply Hmove.
    destruct (bool_decide (Snap.status (Snap.react s) = loading)); [|reflexivity].
    unfold Snap.fetchVideos_end. by destruct (tryBlock r).
  - destruct (Snap.listening _);
      [apply handleWheel_navigationOnly|apply navigationOnly_refl].
  - destruct (Snap.listening _);
      [apply handleTouchStart_navigationOnly|apply navigationOnly_refl].
  - destruct (Snap.listening _);
      [apply handleTouchMove_navigationOnly|apply navigationOnly_refl].
  - destruct (Snap.listening _);
      [apply handleTouchEnd_navigationOnly|apply navigationOnly_refl].
  - exfalso. apply Hmove. unfold Snap.click.
    by destruct (handleVideoClick _ vid (Snap.videoRefs s)) as [refs [u|]].
  - unfold Snap.snapTimeoutCallback. navigation.
  - destruct (Snap.wheelTimeout s);
      [apply wheelTimeoutCallback_navigationOnly|apply navigationOnly_refl].
  - exfalso. by apply Hmove.
Qed.

Lemma Inv_unmuted (s : Snap.State) :
  Inv s ->
  let c := Snap.react s in
  (forall k e, Snap.videoRefs s !! k = Some e ->
     (muted e = false <-> Snap.unmutedVideoId c = Some k))
  /\ (forall k1 e1 k2 e2,
        Snap.videoRefs s !! k1 = Some e1 -> Snap.videoRefs s !! k2 = Some e2 ->
        muted e1 = false -> muted e2 = false -> k1 = k2)
  /\ (forall u, Snap.unmutedVideoId c = Some u ->
        findIndex (Snap.videos c) u = Snap.currentIndex c
        /\ (exists v, Snap.videos c !! Z.to_nat (Snap.currentIndex c) = Some v
                      /\ id v = u)
        /\ (exists e, Snap.videoRefs s !! u = Some e /\ muted e = false)).
Proof.
  intros [Hdom Hidx Hun Hsync Hpl Hload] c. fold c in Hdom, Hidx, Hun, Hsync, Hpl.
  assert (Hm : forall k e, Snap.videoRefs s !! k = Some e ->
            (muted e = false <-> Snap.unmutedVideoId c = Some k)).
  { intros k e Hk. rewrite (Hsync k e Hk). unfold shouldMute.
    destruct (Snap.unmutedVideoId c) as [u|]; [|split; discriminate].
    rewrite negb_false_iff, Z.eqb_eq. split; [by intros ->|by intros [= ->]]. }
  split; [exact Hm|]. split.
  - intros k1 e1 k2 e2 H1 H2 M1 M2.
    apply (Hm k1 e1 H1) in M1. apply (Hm k2 e2 H2) in M2. congruence.
  - intros u Hu. destruct (Hun u Hu) as [Hin Hfi]. split; [exact Hfi|]. split.
    + assert (H0 : 0 <= findIndex (Snap.videos c) u) by (by apply findIndex_elem).
      destruct (findIndex_found _ _ H0) as (v & Hv & Hid).
      exists v. by rewrite <- Hfi.
    + apply Hdom in Hin as [e He]. exists e. split; [exact He|].
      by apply (Hm u e He).
Qed.

(** When [currentIndex] moves, the video that was unmuted is muted and
    [unmutedVideoId] is cleared. *)
Lemma step_auto_mute (KEY : string) (s : Snap.State) (e : Snap.Event) (u : Z) :
  Inv s ->
  Snap.unmutedVideoId (Snap.react s) = Some u ->
  Snap.currentIndex (Snap.react (Snap.step KEY s e))
  ≠ Snap.currentIndex (Snap.react s) ->
  Snap.unmutedVideoId (Snap.react (Snap.step KEY s e)) = None
  /\ exists el, Snap.videoRefs (Snap.step KEY s e) !! u = Some el
                /\ muted el = true.
Proof.
  intros HI Hu Hmove. unfold Snap.step in *.
  destruct (settle_Inv KEY (Snap.react s) (Snap.handle e s) (handle_Pre e s HI))
    as (HI' & _ & Hv & _ & _ & Hi & Hun).
  cbn zeta in *.
  set (s' := Snap.settle KEY (Some (Snap.react s)) (Snap.handle e s)) in *.
  rewrite Hi in Hmove.
  destruct (handle_navigation e s Hmove) as (_ & Hv0 & _ & _ & Hu0 & _).
  rewrite Hv0 in Hv. rewrite Hu0, Hu in Hun.
  destruct (inv_unmuted s HI u Hu) as [Hin Hfi].
  assert (Hnone : Snap.unmutedVideoId (Snap.react s') = None).
  { destruct Hun as [Hsame|[Hnone _]]; [|exact Hnone]. exfalso.
    destruct (inv_unmuted s' HI' u Hsame) as [_ Hfi'].
    rewrite Hv, Hfi, Hi in Hfi'. by apply Hmove. }
  split; [exact Hnone|].
  assert (Hreg : is_Some (Snap.videoRefs s' !! u))
    by (apply (inv_dom s' HI'); by rewrite Hv).
  destruct Hreg as [el Hel]. exists el. split; [exact Hel|].
  rewrite (inv_synced s' HI' u el Hel), Hnone. reflexivity.
Qed.

(** C2. In every settled state an element is unmuted exactly when
    [unmutedVideoId] names it, so at most one is; the id it names is
    registered, is found in the feed at [currentIndex] and is the id of
    the video there; and an event that moves [currentIndex] while a video
    is unmuted leaves that video muted and [unmutedVideoId] null. *)
Theorem C2_unmuted_is_current (KEY : string) (events : list Snap.Event)
    (e : Snap.Event) :
  let s := Snap.run KEY events in
  let c := Snap.react s in
  let s' := Snap.step KEY s e in
  (forall k el, Snap.videoRefs s !! k = Some el ->
     (muted el = false <-> Snap.unmutedVideoId c = Some k))
  /\ (forall k1 e1 k2 e2,
        Snap.videoRefs s !! k1 = Some e1 -> Snap.videoRefs s !! k2 = Some e2 ->
        muted e1 = false -> muted e2 = false -> k1 = k2)
  /\ (forall u, Snap.unmutedVideoId c = Some u ->
        findIndex (Snap.videos c) u = Snap.currentIndex c
        /\ (exists v, Snap.videos c !! Z.to_nat (Snap.currentIndex c) = Some v
                      /\ id v = u)
        /\ (exists el, Snap.videoRefs s !! u = Some el /\ muted el = false))
  /\ (forall u, Snap.unmutedVideoId c = Some u ->
        Snap.currentIndex (Snap.react s') ≠ Snap.currentIndex c ->
        Snap.unmutedVideoId (Snap.react s') = None
        /\ exists el, Snap.videoRefs s' !! u = Some el /\ muted el = true).
Proof.
  intros s c s'. pose proof (run_Inv KEY events) as HI. fold s in HI.
  destruct (Inv_unmuted s HI) as (H1 & H2 & H3).
  repeat (split; [assumption|]).
  intros u Hu Hmove. by apply step_auto_mute.
Qed.

Lemma C2_witness :
  let s := Snap.run (API_KEY None)
             [Snap.Fetched (Responded true 200 "OK" fullPage); Snap.SnapTimeout;
              Snap.Click 1] in
  let s' := Snap.step (API_KEY None) s (Snap.Wheel 100 0 800) in
  Snap.unmutedVideoId (Snap.react s) = Some 1
  /\ Snap.currentIndex (Snap.react s') = 1
  /\ Snap.unmutedVideoId (Snap.react s') = None
  /\ exists el, Snap.videoRefs s' !! 1 = Some el /\ muted el = true.
Proof.
  pose proof (C2_unmuted_is_current (API_KEY None)
                [Snap.Fetched (Responded true 200 "OK" fullPage); Snap.SnapTimeout;
                 Snap.Click 1]
                (Snap.Wheel 100 0 800)) as (_ & _ & _ & Hauto).
  split; [vm_compute; reflexivity|]. split; [vm_compute; reflexivity|].
  apply (Hauto 1).
  - vm_compute. reflexivity.
  - vm_compute. discriminate.
Defined.

(* ===================================================================== *)
(** * The audio toggle                                                    *)
(* ===================================================================== *)







(* ===================================================================== *)
(** * Gestures at the ends of the feed                                    *)
(* ===================================================================== *)

Ltac scroll_cells :=
  cbn [Snap.react Snap.videoRefs Snap.scrollState Snap.cardStyles
       Snap.snapTimers Snap.wheelTimeout Snap.withReact Snap.withRefs
       Snap.withScroll Snap.withStyles Snap.withSnapTimers
       Snap.withWheelTimeout Snap.setCurrentIndex
       Snap.isScrolling Snap.isDragging Snap.startY Snap.currentY
       Snap.lastScrollTime Snap.accumulatedDelta Snap.targetIndex
       Snap.set_isScrolling Snap.set_isDragging Snap.set_startY
       Snap.set_currentY Snap.set_lastScrollTime Snap.set_accumulatedDelta
       Snap.set_targetIndex] in *.

Lemma styleCard_cells (card : option Z) (st : Snap.CardStyle) (s : Snap.State) :
  Snap.react (Snap.styleCard card st s) = Snap.react s
  /\ Snap.videoRefs (Snap.styleCard card st s) = Snap.videoRefs s
  /\ Snap.scrollState (Snap.styleCard card st s) = Snap.scrollState s
  /\ Snap.snapTimers (Snap.styleCard card st s) = Snap.snapTimers s
  /\ Snap.wheelTimeout (Snap.styleCard card st s) = Snap.wheelTimeout s.
Proof. destruct card; repeat split. Qed.

(** The wheel handler at an end of the feed. *)
Lemma handleWheel_boundary (c : Snap.React) (s : Snap.State)
    (deltaY : float) (now : Z) (cardHeight : float) :
  let acc := (Snap.accumulatedDelta (Snap.scrollState s) + deltaY)%float in
  let nextIndex := Snap.currentIndex c + (if (0 <? acc)%float then 1 else -1) in
  Snap.isScrolling (Snap.scrollState s) = false ->
  Snap.crossesWheelThreshold acc cardHeight = true ->
  (0 <=? nextIndex) && (nextIndex <? Z.of_nat (length (Snap.videos c))) = false ->
  let s' := Snap.handleWheel c deltaY now cardHeight s in
  Snap.react s' = Snap.react s
  /\ Snap.videoRefs s' = Snap.videoRefs s
  /\ Snap.accumulatedDelta (Snap.scrollState s') = acc
  /\ Snap.isScrolling (Snap.scrollState s') = false
  /\ Snap.wheelTimeout s' = true
  /\ Snap.accumulatedDelta (Snap.scrollState (Snap.wheelTimeoutCallback c s'))
     = 0%float.
Proof.
  intros acc nextIndex Hidle Hcross Hout s'.
  unfold s', Snap.handleWheel. rewrite Hidle. cbv zeta. scroll_cells.
  fold acc. rewrite Hcross. fold nextIndex. rewrite Hout.
  match goal with |- context [Snap.styleCard ?a ?b ?t] =>
    destruct (styleCard_cells a b t) as (Hc & Hr & Hs & _ & _);
    set (s4 := Snap.styleCard a b t) in * end.
  scroll_cells. rewrite Hc, Hr, Hs. scroll_cells.
  repeat (split; [reflexivity || assumption|]).
  unfold Snap.wheelTimeoutCallback. scroll_cells. reflexivity.
Qed.

(** The release of a drag at an end of the feed. *)
Lemma handleTouchEnd_boundary (c : Snap.React) (s : Snap.State)
    (cardHeight : float) :
  let drag :=
    (Snap.startY (Snap.scrollState s) - Snap.currentY (Snap.scrollState s))%float in
  let nextIndex := Snap.currentIndex c + (if (0 <? drag)%float then 1 else -1) in
  Snap.isDragging (Snap.scrollState s) = true ->
  Snap.crossesTouchThreshold drag cardHeight = true ->
  (0 <=? nextIndex) && (nextIndex <? Z.of_nat (length (Snap.videos c))) = false ->
  let s' := Snap.handleTouchEnd c cardHeight s in
  Snap.react s' = Snap.react s
  /\ Snap.videoRefs s' = Snap.videoRefs s
  /\ Snap.isDragging (Snap.scrollState s') = false
  /\ Snap.startY (Snap.scrollState s') = 0%float
  /\ Snap.currentY (Snap.scrollState s') = 0%float
  /\ Snap.accumulatedDelta (Snap.scrollState s')
     = Snap.accumulatedDelta (Snap.scrollState s).
Proof.
  intros drag nextIndex Hdrag Hcross Hout s'.
  unfold s', Snap.handleTouchEnd. rewrite Hdrag. cbv zeta. cbn [negb].
  fold drag. rewrite Hcross. fold nextIndex. rewrite Hout.
  match goal with |- context [Snap.styleCard ?a ?b ?t] =>
    destruct (styleCard_cells a b t) as (Hc & Hr & Hs & _ & _);
    set (s1 := Snap.styleCard a b t) in * end.
  scroll_cells. rewrite Hc, Hr, Hs. repeat split.
Qed.

(** C4, as the claim has it, fails for the wheel: at the first card a
    wheel tick upwards that crosses the threshold leaves [currentIndex]
    at 0 and keeps the accumulated delta; a second tick adds to it. *)
Lemma C4_wheel_keeps_delta_at_boundary :
  let s := Snap.run (API_KEY None)
             [Snap.Fetched (Responded true 200 "OK" fullPage); Snap.SnapTimeout] in
  let s1 := Snap.step (API_KEY None) s (Snap.Wheel (-100) 0 800) in
  let s2 := Snap.step (API_KEY None) s1 (Snap.Wheel (-100) 5 800) in
  Snap.currentIndex (Snap.react s) = 0
  /\ Snap.crossesWheelThreshold (-100) 800 = true
  /\ Snap.currentIndex (Snap.react s1) = 0
  /\ Snap.accumulatedDelta (Snap.scrollState s1) = (-100)%float
  /\ Snap.accumulatedDelta (Snap.scrollState s1) ≠ 0%float
  /\ Snap.accumulatedDelta (Snap.scrollState s2) = (-200)%float.
Proof.
  cbv zeta.
  split; [vm_compute; reflexivity|].
  split; [vm_compute; reflexivity|].
  split; [vm_compute; reflexivity|].
  split; [vm_compute; reflexivity|].
  split; [|vm_compute; reflexivity].
  intros Hzero. apply (f_equal (fun x => (x <? 0)%float)) in Hzero.
  vm_compute in Hzero. discriminate.
Qed.

(** C4 (amended). A gesture that crosses the threshold towards a card
    that does not exist changes no state cell ([currentIndex] included)
    and no element, and starts no fetch: this variant holds no [hasMore].
    The wheel handler keeps the accumulated delta, which drives the
    rubber band at the boundary, and arms the idle timeout whose callback
    resets it to 0; the release of a drag clears the drag (isDragging,
    startY and currentY) and does not touch the accumulated delta. *)
Theorem C4_boundary_gesture (c : Snap.React) (s : Snap.State)
    (deltaY : float) (now : Z) (cardHeight : float) :
  let acc := (Snap.accumulatedDelta (Snap.scrollState s) + deltaY)%float in
  let drag :=
    (Snap.startY (Snap.scrollState s) - Snap.currentY (Snap.scrollState s))%float in
  let outside (delta : float) :=
    let nextIndex :=
      Snap.currentIndex c + (if (0 <? delta)%float then 1 else -1) in
    (0 <=? nextIndex) && (nextIndex <? Z.of_nat (length (Snap.videos c))) = false in
  (Snap.isScrolling (Snap.scrollState s) = false ->
   Snap.crossesWheelThreshold acc cardHeight = true ->
   outside acc ->
   let s' := Snap.handleWheel c deltaY now cardHeight s in
   Snap.react s' = Snap.react s
   /\ Snap.videoRefs s' = Snap.videoRefs s
   /\ Snap.accumulatedDelta (Snap.scrollState s') = acc
   /\ Snap.isScrolling (Snap.scrollState s') = false
   /\ Snap.wheelTimeout s' = true
   /\ Snap.accumulatedDelta (Snap.scrollState (Snap.wheelTimeoutCallback c s'))
      = 0%float)
  /\ (Snap.isDragging (Snap.scrollState s) = true ->
      Snap.crossesTouchThreshold drag cardHeight = true ->
      outside drag ->
      let s' := Snap.handleTouchEnd c cardHeight s in
      Snap.react s' = Snap.react s
      /\ Snap.videoRefs s' = Snap.videoRefs s
      /\ Snap.isDragging (Snap.scrollState s') = false
      /\ Snap.startY (Snap.scrollState s') = 0%float
      /\ Snap.currentY (Snap.scrollState s') = 0%float
      /\ Snap.accumulatedDelta (Snap.scrollState s')
         = Snap.accumulatedDelta (Snap.scrollState s)).
Proof.
  intros acc drag outside. split.
  - intros Hidle Hcross Hout. by apply handleWheel_boundary.
  - intros Hdrag Hcross Hout. by apply handleTouchEnd_boundary.
Qed.

Lemma C4_witness :
  let s := Snap.run (API_KEY None)
             [Snap.Fetched (Responded true 200 "OK" fullPage); Snap.SnapTimeout] in
  let s' := Snap.handleWheel (Snap.react s) (-100) 0 800 s in
  Snap.react s' = Snap.react s
  /\ Snap.accumulatedDelta (Snap.scrollState s') = (-100)%float
  /\ Snap.accumulatedDelta
       (Snap.scrollState (Snap.wheelTimeoutCallback (Snap.react s) s'))
     = 0%float.
Proof.
  pose proof (C4_boundary_gesture
                (Snap.react
                   (Snap.run (API_KEY None)
                      [Snap.Fetched (Responded true 200 "OK" fullPage);
                       Snap.SnapTimeout]))
                (Snap.run (API_KEY None)
                   [Snap.Fetched (Responded true 200 "OK" fullPage);
                    Snap.SnapTimeout])
                (-100) 0 800) as [Hwheel _].
  destruct (Hwheel ltac:(vm_compute; reflexivity) ltac:(vm_compute; reflexivity)
              ltac:(vm_compute; reflexivity))
    as (Hc & _ & Hacc & _ & _ & Hreset).
  split; [exact Hc|]. split; [|exact Hreset].
  rewrite Hacc. vm_compute. reflexivity.
Defined.

(** C7. The claim fails on the code at the release of a drag: the wheel
    handler, [handleTouchStart] and [handleTouchMove] return at once
    while [isScrolling] is set, [handleTouchEnd] does not. A drag is in
    progress on the first card (finger down at 500, moved to 100) when a
    wheel event snaps the feed to the second card; while that snap is in
    progress (its timeout has not fired) a wheel event, a touchstart and
    a touchmove change nothing, but lifting the finger moves the feed on
    to the third card and schedules a second timeout. *)
Lemma C7_touch_release_accepted_while_snapping :
  let s0 := Snap.run (API_KEY None)
              [Snap.Fetched (Responded true 200 "OK" fullPage); Snap.SnapTimeout;
               Snap.TouchStart (Some 500%float); Snap.TouchMove (Some 100%float)] in
  let s1 := Snap.step (API_KEY None) s0 (Snap.Wheel 100 0 800) in
  let s2 := Snap.step (API_KEY None) s1 (Snap.TouchEnd 800) in
  (Snap.currentIndex (Snap.react s0) = 0
   /\ Snap.isScrolling (Snap.scrollState s0) = false
   /\ Snap.isDragging (Snap.scrollState s0) = true)
  /\ (Snap.currentIndex (Snap.react s1) = 1
      /\ Snap.isScrolling (Snap.scrollState s1) = true
      /\ Snap.snapTimers s1 = 1%nat)
  /\ (Snap.handle (Snap.Wheel 100 5 800) s1 = s1
      /\ Snap.handle (Snap.TouchStart (Some 300%float)) s1 = s1
      /\ Snap.handle (Snap.TouchMove (Some 300%float)) s1 = s1)
  /\ (Snap.currentIndex (Snap.react s2) = 2
      /\ Snap.isScrolling (Snap.scrollState s2) = true
      /\ Snap.snapTimers s2 = 2%nat).
Proof.
  intros s0 s1 s2.
  assert (Hs : Snap.isScrolling (Snap.scrollState s1) = true)
    by (vm_compute; reflexivity).
  split; [repeat split; vm_compute; reflexivity|].
  split; [repeat split; vm_compute; reflexivity|].
  split; [|repeat split; vm_compute; reflexivity].
  clearbody s1. clear s0 s2.
  unfold Snap.handle, Snap.handleWheel, Snap.handleTouchStart,
    Snap.handleTouchMove.
  rewrite Hs, orb_true_r.
  by destruct (Snap.listening (Snap.react s1)).
Qed.

(* ===================================================================== *)
(** * The choice of a rendition                                           *)
(* ===================================================================== *)

Lemma find_firstSuch {A} (p : A -> bool) (l : list A) (x : A) :
  List.find p l = Some x -> firstSuch (fun y => p y = true) l x.
Proof.
  induction l as [|a l IH]; [discriminate|]. cbn [List.find].
  destruct (p a) eqn:Ha.
  - intros [= <-]. exists [], l. repeat split; [exact Ha|constructor].
  - intros Hf. destruct (IH Hf) as (l1 & l2 & -> & Hx & Hl1).
    exists (a :: l1), l2. repeat split; [exact Hx|].
    constructor; [by rewrite Ha|exact Hl1].
Qed.

Lemma find_None_Forall {A} (p : A -> bool) (l : list A) :
  List.find p l = None -> Forall (fun y => p y = false) l.
Proof.
  induction l as [|a l IH]; [constructor|]. cbn [List.find].
  destruct (p a) eqn:Ha; [discriminate|]. intros Hf. constructor; auto.
Qed.

Lemma find_filter {A} (p q : A -> bool) (l : list A) :
  List.find q (List.filter p l) = List.find (fun x => p x && q x) l.
Proof.
  induction l as [|a l IH]; [reflexivity|]. cbn [List.filter List.find].
  destruct (p a); cbn [List.find andb]; [by rewrite IH|exact IH].
Qed.

Lemma filter_head_find {A} (p : A -> bool) (l : list A) :
  List.find p l = head (List.filter p l).
Proof.
  induction l as [|a l IH]; [reflexivity|]. cbn [List.filter List.find].
  destruct (p a); [reflexivity|exact IH].
Qed.

Lemma firstSuch_iff {A} (P Q : A -> Prop) (l : list A) (x : A) :
  (forall y, P y <-> Q y) -> firstSuch P l x -> firstSuch Q l x.
Proof.
  intros HPQ (l1 & l2 & Hl & Hx & Hl1). exists l1, l2.
  repeat split; [exact Hl|by apply HPQ|].
  eapply Forall_impl; [exact Hl1|]. intros y Hy HQ. by apply Hy, HPQ.
Qed.

Lemma mp4_and_quality (q : string) (file : PexelsVideoFile) :
  String.eqb (file_type file) "video/mp4" && String.eqb (quality file) q = true
  <-> isMp4 file /\ hasQuality q file.
Proof.
  unfold isMp4, hasQuality. rewrite andb_true_iff, !String.eqb_eq. reflexivity.
Qed.

Lemma no_mp4_with_quality (q : string) (files : list PexelsVideoFile) :
  List.find (fun file =>
               String.eqb (file_type file) "video/mp4"
               && String.eqb (quality file) q) files = None ->
  Forall (fun file => ~ (isMp4 file /\ hasQuality q file)) files.
Proof.
  intros Hf. apply find_None_Forall in Hf.
  eapply Forall_impl; [exact Hf|]. cbn. intros file Hb Hmq.
  apply mp4_and_quality in Hmq. congruence.
Qed.

(** A record is dropped exactly when it has no mp4 rendition. *)
Lemma toFeedVideo_None_iff (video : PexelsVideo) :
  toFeedVideo video = None <-> ~ hasMp4 video.
Proof.
  unfold hasMp4. split.
  - intros Hnone Hex. apply Exists_exists in Hex as (file & Hin & Hmp4).
    unfold toFeedVideo in Hnone.
    destruct (List.filter _ (video_files video)) as [|first rest] eqn:Hfil;
      [|discriminate].
    assert (Hin' : In file (List.filter
                              (fun file => String.eqb (file_type file) "video/mp4")
                              (video_files video))).
    { apply filter_In. split; [by apply list_elem_of_In|].
      by apply String.eqb_eq. }
    rewrite Hfil in Hin'. destruct Hin'.
  - intros Hno. apply toFeedVideo_None. apply Forall_forall.
    intros file Hin Hmp4. apply Hno, Exists_exists. eauto.
Qed.

(** The source of a feed item is the link of a rendition of its record:
    the first mp4 labelled hd; or, when no mp4 is labelled hd, the first
    mp4 labelled sd; or, when no mp4 is labelled hd or sd, the first mp4.
    The id, the preview image and the duration are those of the record,
    the author is the user of the record or the fallback texts. *)
Theorem toFeedVideo_prefers_hd_then_sd (video : PexelsVideo) (v : FeedVideo) :
  toFeedVideo video = Some v ->
  let files := video_files video in
  let mp4With q := fun file => isMp4 file /\ hasQuality q file in
  (exists file,
     src v = link file
     /\ (firstSuch (mp4With "hd"%string) files file
         \/ (Forall (fun g => ~ mp4With "hd"%string g) files
             /\ firstSuch (mp4With "sd"%string) files file)
         \/ (Forall (fun g => ~ mp4With "hd"%string g) files
             /\ Forall (fun g => ~ mp4With "sd"%string g) files
             /\ firstSuch isMp4 files file)))
  /\ id v = pv_id video
  /\ previewImage v = image video
  /\ duration v = pv_duration video
  /\ photographer v
     = match user video with
       | Some u => user_name u
       | None => "Unknown creator"%string
       end
  /\ photographerUrl v
     = match user video with
       | Some u => user_url u
       | None => "https://www.pexels.com/videos/"%string
       end.
Proof.
  intros Hv. cbv zeta. unfold toFeedVideo in Hv.
  set (files := video_files video) in *.
  set (isMp4b := fun file => String.eqb (file_type file) "video/mp4") in *.
  destruct (List.filter isMp4b files) as [|first rest] eqn:Hfil;
    [discriminate|].
  rewrite <- Hfil in Hv. rewrite !find_filter in Hv.
  assert (Hfirst : firstSuch isMp4 files first).
  { assert (Hf : List.find isMp4b files = Some first)
      by (by rewrite filter_head_find, Hfil).
    apply find_firstSuch in Hf. eapply firstSuch_iff; [|exact Hf].
    intros y. unfold isMp4b, isMp4. apply String.eqb_eq. }
  destruct (List.find (fun x => isMp4b x && String.eqb (quality x) "hd") files)
    as [fhd|] eqn:Hhd.
  - injection Hv as <-. cbn. split; [|repeat split].
    exists fhd. split; [reflexivity|]. left.
    apply find_firstSuch in Hhd. eapply firstSuch_iff; [|exact Hhd].
    intros y. apply mp4_and_quality.
  - apply no_mp4_with_quality in Hhd.
    destruct (List.find (fun x => isMp4b x && String.eqb (quality x) "sd") files)
      as [fsd|] eqn:Hsd.
    + injection Hv as <-. cbn. split; [|repeat split].
      exists fsd. split; [reflexivity|]. right. left. split; [exact Hhd|].
      apply find_firstSuch in Hsd. eapply firstSuch_iff; [|exact Hsd].
      intros y. apply mp4_and_quality.
    + apply no_mp4_with_quality in Hsd.
      injection Hv as <-. cbn. split; [|repeat split].
      exists first. split; [reflexivity|]. right. right. by repeat split.
Qed.

Lemma toFeedVideo_prefers_witness :
  let sdFile := mkPexelsVideoFile 3 "sd" "video/mp4" 640 360 "https://videos.example/sd.mp4" in
  let video := mkPexelsVideo 7 30 "https://images.example/p.jpg" None
                 [webmFile; sdFile; hdFile] in
  exists v, toFeedVideo video = Some v
            /\ src v = "https://videos.example/hd.mp4"%string
            /\ id v = 7.
Proof.
  eexists. split; [reflexivity|].
  pose proof (toFeedVideo_prefers_hd_then_sd
                (mkPexelsVideo 7 30 "https://images.example/p.jpg" None
                   [webmFile;
                    mkPexelsVideoFile 3 "sd" "video/mp4" 640 360
                      "https://videos.example/sd.mp4";
                    hdFile])
                _ eq_refl) as (_ & Hid & _).
  split; [reflexivity|exact Hid].
Defined.

(** The formatted page holds, in response order, exactly the records that
    have an mp4 rendition, each under the id of its record. *)
Theorem formatVideos_keeps_records_with_mp4 (data_videos : list PexelsVideo) :
  ids (formatVideos data_videos) = pv_id <$> filter hasMp4 data_videos
  /\ (formatVideos data_videos = [] <-> Forall (fun video => ~ hasMp4 video) data_videos).
Proof.
  unfold formatVideos, ids. induction data_videos as [|video rest [IH1 IH2]].
  - split; [reflexivity|]. split; [constructor|reflexivity].
  - change (omap toFeedVideo (video :: rest))
      with (match toFeedVideo video with
            | Some f => f :: omap toFeedVideo rest
            | None => omap toFeedVideo rest
            end).
    rewrite filter_cons.
    destruct (toFeedVideo video) as [v|] eqn:Hv.
    + assert (Hhas : hasMp4 video).
      { destruct (decide (hasMp4 video)) as [H|H]; [exact H|].
        apply toFeedVideo_None_iff in H. congruence. }
      rewrite decide_True by exact Hhas. split.
      * rewrite !fmap_cons, IH1. f_equal. by apply toFeedVideo_id.
      * split; [discriminate|]. intros Hall.
        apply Forall_cons in Hall as [Hno _]. contradiction.
    + assert (Hno : ~ hasMp4 video) by (by apply toFeedVideo_None_iff).
      rewrite decide_False by exact Hno. split; [exact IH1|].
      rewrite IH2. split; [intros H; by constructor|].
      intros Hall. by apply Forall_cons in Hall as [_ Hall].
Qed.

(* ===================================================================== *)
(** * Failed fetches, page numbers and controllers                        *)
(* ===================================================================== *)

(** A fetch that fails never touches the feed, the page, [hasMore], the
    index or the log of requests; it resolves to false; it shows an error
    (status error and the message of what was thrown) only when it was not
    an append and was not aborted; an append stops loading. *)
Theorem fetchVideos_end_failure (append : bool) (r : FetchResult) (t : Thrown)
    (s : Paginated.State) :
  tryBlock r = inl t ->
  let s' := fst (Paginated.fetchVideos_end append r s) in
  snd (Paginated.fetchVideos_end append r s) = false
  /\ Paginated.videos s' = Paginated.videos s
  /\ Paginated.page s' = Paginated.page s
  /\ Paginated.hasMore s' = Paginated.hasMore s
  /\ Paginated.currentIndex s' = Paginated.currentIndex s
  /\ Paginated.issued s' = Paginated.issued s
  /\ Paginated.isLoadingMore s'
     = (if append then false else Paginated.isLoadingMore s)
  /\ (append = false -> isAbortError t = false ->
      Paginated.status s' = error
      /\ Paginated.errorMessage s' = Some (messageOf t))
  /\ (append = true \/ isAbortError t = true ->
      Paginated.status s' = Paginated.status s
      /\ Paginated.errorMessage s' = Paginated.errorMessage s).
Proof.
  intros Hr. unfold Paginated.fetchVideos_end. rewrite Hr.
  destruct append, (isAbortError t); cbn;
    repeat match goal with |- _ /\ _ => split end;
    try reflexivity;
    try (intros H1 H2; first [discriminate | split; reflexivity]);
    try (intros [H|H]; first [discriminate | split; reflexivity]).
Qed.

Lemma fetchVideos_end_failure_witness :
  let s := Paginated.mountEffect (API_KEY None) Paginated.initial in
  let s' := fst (Paginated.fetchVideos_end false
                   (Responded false 404 "Not Found" []) s) in
  Paginated.status s' = error
  /\ Paginated.errorMessage s'
     = Some "Failed to fetch videos (404 Not Found)"%string
  /\ Paginated.videos s' = [].
Proof.
  pose proof (fetchVideos_end_failure false (Responded false 404 "Not Found" [])
                (ErrorWithMessage "Failed to fetch videos (404 Not Found)")
                (Paginated.mountEffect (API_KEY None) Paginated.initial) eq_refl)
    as (_ & Hv & _ & _ & _ & _ & _ & Herr & _).
  destruct (Herr eq_refl eq_refl) as [Hs He].
  split; [exact Hs|]. split; [exact He|exact Hv].
Defined.

(** A call of [loadMore] that passes its guard and whose fetch succeeds. *)
Lemma loadMoreCycle_success (KEY : string) (st : Z) (txt : string)
    (data_videos : list PexelsVideo) (s : Paginated.State) :
  falsy KEY = false ->
  Paginated.hasMore s = true -> Paginated.isLoadingMore s = false ->
  let s' := loadMoreCycle KEY (Responded true st txt data_videos) s in
  Paginated.page s' = Paginated.page s + 1
  /\ Paginated.isLoadingMore s' = false
  /\ Paginated.hasMore s' = (Z.of_nat (length data_videos) =? Paginated.PER_PAGE)
  /\ Paginated.videos s'
     = Paginated.mergePage true (formatVideos data_videos) (Paginated.videos s)
  /\ Paginated.issued s'
     = Paginated.mkRequest Paginated.PER_PAGE (Paginated.page s + 1) KEY
         (Paginated.controllers s) :: Paginated.issued s.
Proof.
  intros Hkey Hmore Hidle. unfold loadMoreCycle.
  rewrite (loadMore_begin_open KEY s Hkey Hmore Hidle).
  unfold Paginated.loadMore_end, Paginated.fetchVideos_end,
    Paginated.fetchVideos_begin.
  rewrite Hkey. cbn. repeat split.
Qed.

(** The pages asked for by [n] calls in a row, the latest first. *)
Lemma loadMoreCycles_snoc (KEY : string) (rs : list FetchResult)
    (r : FetchResult) (s : Paginated.State) :
  loadMoreCycles KEY (rs ++ [r]) s
  = loadMoreCycle KEY r (loadMoreCycles KEY rs s).
Proof. unfold loadMoreCycles. by rewrite foldl_app. Qed.

(** Pages are fetched in order: as long as every call of [loadMore] is
    answered with a full page, the n-th call asks for page [page + n] with
    [per_page] 12 and the key, so that no page is skipped or asked for
    twice, and afterwards [page] has advanced by the number of calls,
    nothing is loading and there is more to load. *)
Theorem loadMore_fetches_consecutive_pages (KEY : string)
    (rs : list FetchResult) (s : Paginated.State) :
  falsy KEY = false ->
  Paginated.hasMore s = true ->
  Paginated.isLoadingMore s = false ->
  Forall (fun r => exists data_videos,
            tryBlock r = inr data_videos
            /\ Z.of_nat (length data_videos) = Paginated.PER_PAGE) rs ->
  let s' := loadMoreCycles KEY rs s in
  Paginated.page s' = Paginated.page s + Z.of_nat (length rs)
  /\ Paginated.hasMore s' = true
  /\ Paginated.isLoadingMore s' = false
  /\ Paginated.req_page <$> Paginated.issued s'
     = ((fun n => Paginated.page s + Z.of_nat n) <$> reverse (seq 1 (length rs)))
       ++ (Paginated.req_page <$> Paginated.issued s)
  /\ Forall (fun q => Paginated.req_per_page q = 12
                      /\ Paginated.req_authorization q = KEY)
       (take (length rs) (Paginated.issued s')).
Proof.
  intros Hkey Hmore Hidle Hall. cbv zeta.
  induction rs as [|r rs IH] using rev_ind.
  - cbn. repeat split; try assumption; [lia|constructor].
  - apply Forall_app in Hall as [Hall Hr]. apply Forall_inv in Hr.
    destruct Hr as (data_videos & Hr & Hfull).
    destruct (IH Hall) as (Hp & Hm & Hl & Hreq & Hhead).
    rewrite loadMoreCycles_snoc.
    assert (Hresp : exists st txt, r = Responded true st txt data_videos).
    { destruct r as [[|] st txt d|t]; cbn in Hr; try discriminate.
      injection Hr as ->. eauto. }
    destruct Hresp as (st & txt & ->).
    destruct (loadMoreCycle_success KEY st txt data_videos
                (loadMoreCycles KEY rs s) Hkey Hm Hl)
      as (Hp' & Hl' & Hm' & _ & Hi').
    cbv zeta in Hp', Hl', Hm', Hi'.
    rewrite Hp', Hl', Hm', Hi', length_app. cbn [length].
    split; [rewrite Hp; lia|]. split; [by apply Z.eqb_eq|].
    split; [reflexivity|]. split.
    + rewrite fmap_cons, Hreq. cbn [Paginated.req_page].
      replace (length rs + 1)%nat with (S (length rs)) by lia.
      rewrite seq_S, reverse_app, reverse_singleton. cbn [app fmap list_fmap].
      rewrite Hp. f_equal. lia.
    + replace (length rs + 1)%nat with (S (length rs)) by lia.
      cbn [take]. constructor; [by split|exact Hhead].
Qed.

Lemma loadMore_fetches_consecutive_pages_witness :
  let answer := Responded true 200 "OK" fullPageWithoutMp4 in
  let s' := loadMoreCycles (API_KEY None) [answer; answer; answer] firstPageLoaded in
  Paginated.page s' = 4
  /\ Paginated.req_page <$> Paginated.issued s' = [4; 3; 2; 1].
Proof.
  pose proof (loadMore_fetches_consecutive_pages (API_KEY None)
                [Responded true 200 "OK" fullPageWithoutMp4;
                 Responded true 200 "OK" fullPageWithoutMp4;
                 Responded true 200 "OK" fullPageWithoutMp4]
                firstPageLoaded eq_refl eq_refl eq_refl) as H.
  destruct H as (Hp & _ & _ & Hreq & _).
  - repeat (constructor; [exists fullPageWithoutMp4; split; reflexivity|]).
    constructor.
  - split; [exact Hp|exact Hreq].
Defined.

(** ** Controllers *)

Lemma oneLiveController_ext (s s' : Paginated.State) :
  Paginated.fetchController s' = Paginated.fetchController s ->
  Paginated.controllers s' = Paginated.controllers s ->
  Paginated.aborted s' = Paginated.aborted s ->
  oneLiveController s -> oneLiveController s'.
Proof. unfold oneLiveController. intros -> -> ->. done. Qed.

Lemma newController_live (s : Paginated.State) :
  oneLiveController s ->
  oneLiveController (Paginated.newController s)
  /\ forall m, (m < Paginated.controllers s)%nat ->
       m ∈ Paginated.aborted (Paginated.newController s).
Proof.
  intros (Hab & Hcur & Hold & Hnone).
  set (N := Paginated.controllers s) in *.
  assert (Hab' : forall m, m ∈ Paginated.aborted (Paginated.newController s)
                           <-> (m < N)%nat).
  { intros m. cbn [Paginated.aborted Paginated.newController].
    destruct (Paginated.fetchController s) as [c0|] eqn:Hc.
    - destruct (Hcur c0 eq_refl) as [HN Hlive].
      rewrite elem_of_union, elem_of_singleton. split.
      + intros [->|Hm]; [lia|by apply Hab].
      + intros Hm. destruct (decide (m = c0)) as [->|Hne]; [by left|].
        right. apply Hold; [exact Hm|congruence].
    - pose proof (Hnone eq_refl) as H0. split; [apply Hab|]. lia. }
  split; [|intros m Hm; by apply Hab'].
  unfold oneLiveController.
  change (Paginated.controllers (Paginated.newController s)) with (S N).
  change (Paginated.fetchController (Paginated.newController s)) with (Some N).
  split; [|split; [|split]].
  - intros m Hm. apply Hab' in Hm. lia.
  - intros c1 Hc1. injection Hc1 as <-. split; [reflexivity|].
    rewrite Hab'. lia.
  - intros m Hm Hne. apply Hab'.
    assert (m ≠ N) by congruence. lia.
  - discriminate.
Qed.

Lemma fetchVideos_begin_live (KEY : string) (p : Z) (append : bool)
    (s : Paginated.State) :
  oneLiveController s ->
  oneLiveController (fst (Paginated.fetchVideos_begin KEY p append s)).
Proof.
  intros Hs. unfold Paginated.fetchVideos_begin. destruct (falsy KEY).
  - by apply (oneLiveController_ext s).
  - destruct (newController_live s Hs) as [Hn _].
    apply (oneLiveController_ext (Paginated.newController s));
      [| | |exact Hn]; by destruct append.
Qed.

Lemma fetchVideos_end_live (append : bool) (r : FetchResult)
    (s : Paginated.State) :
  oneLiveController s ->
  oneLiveController (fst (Paginated.fetchVideos_end append r s)).
Proof.
  apply oneLiveController_ext; unfold Paginated.fetchVideos_end;
    destruct (tryBlock r); destruct append; cbn;
    try reflexivity; by destruct (isAbortError _).
Qed.

Lemma loadMoreCycle_live (KEY : string) (r : FetchResult) (s : Paginated.State) :
  oneLiveController s -> oneLiveController (loadMoreCycle KEY r s).
Proof.
  intros Hs. unfold loadMoreCycle, Paginated.loadMore_begin.
  destruct (negb (Paginated.hasMore s) || Paginated.isLoadingMore s);
    [exact Hs|].
  pose proof (fetchVideos_begin_live KEY (Paginated.page s + 1) true s Hs) as H1.
  destruct (Paginated.fetchVideos_begin KEY (Paginated.page s + 1) true s)
    as [s1 [c|]]; cbn [fst] in H1; [|exact H1].
  unfold Paginated.loadMore_end.
  pose proof (fetchVideos_end_live true r s1 H1) as H2.
  destruct (Paginated.fetchVideos_end true r s1) as [s2 [|]]; cbn [fst] in H2;
    [|exact H2].
  by apply (oneLiveController_ext s2).
Qed.

Lemma lookaheadEffect_live (KEY : string) (s : Paginated.State) :
  oneLiveController s -> oneLiveController (Paginated.lookaheadEffect KEY s).
Proof.
  intros Hs. unfold Paginated.lookaheadEffect.
  destruct (negb (Paginated.hasMore s) || Paginated.isLoadingMore s
            || (Z.of_nat (length (Paginated.videos s)) =? 0)); [exact Hs|].
  destruct (_ <=? 4); [|exact Hs].
  unfold Paginated.loadMore_begin.
  destruct (negb (Paginated.hasMore s) || Paginated.isLoadingMore s);
    [exact Hs|].
  pose proof (fetchVideos_begin_live KEY (Paginated.page s + 1) true s Hs) as H1.
  by destruct (Paginated.fetchVideos_begin KEY (Paginated.page s + 1) true s)
    as [s1 [c|]].
Qed.

Lemma advance_live (KEY : string) (s : Paginated.State) :
  oneLiveController s -> oneLiveController (Paginated.advance KEY s).
Proof.
  intros Hs. unfold Paginated.advance.
  assert (H0 : oneLiveController
                 (Paginated.setCurrentIndex (Paginated.currentIndex s + 1) s))
    by (by apply (oneLiveController_ext s)).
  pose proof (lookaheadEffect_live KEY _ H0) as H1.
  destruct (bool_decide _); [exact H1|]. by apply lookaheadEffect_live.
Qed.

(** At every moment one controller at most is live, the one in
    [fetchController.current]: every call of [fetchVideos] that goes to
    the network aborts all the controllers created before it, so a new
    fetch, append or not, cancels the fetch in flight. This holds from the
    mount on, through any calls of [loadMore] and any index
    transitions. *)
Theorem fetch_cancels_the_fetch_in_flight (KEY : string) (p : Z)
    (append : bool) (rs : list FetchResult) (n : nat) (s : Paginated.State) :
  oneLiveController s ->
  oneLiveController Paginated.initial
  /\ oneLiveController (loadMoreCycles KEY rs s)
  /\ oneLiveController (Paginated.advances KEY n s)
  /\ (let s' := fst (Paginated.fetchVideos_begin KEY p append s) in
      oneLiveController s'
      /\ (falsy KEY = false ->
          Paginated.fetchController s' = Some (Paginated.controllers s)
          /\ (exists rest,
                Paginated.issued s'
                = Paginated.mkRequest Paginated.PER_PAGE p KEY
                    (Paginated.controllers s) :: rest)
          /\ forall m, (m < Paginated.controllers s)%nat ->
               m ∈ Paginated.aborted s')).
Proof.
  intros Hs. split; [|split; [|split; [|split]]].
  - unfold oneLiveController. cbn.
    split; [set_solver|]. split; [discriminate|]. split; [lia|reflexivity].
  - unfold loadMoreCycles. revert s Hs.
    induction rs as [|r rs IH]; intros s Hs; [exact Hs|].
    cbn [foldl]. apply IH. by apply loadMoreCycle_live.
  - induction n as [|n IH]; [exact Hs|]. rewrite advances_S.
    by apply advance_live.
  - by apply fetchVideos_begin_live.
  - intros Hkey. unfold Paginated.fetchVideos_begin. rewrite Hkey.
    destruct (newController_live s Hs) as [_ Hall].
    destruct append; cbn; (split; [reflexivity|]); (split; [eauto|]);
      exact Hall.
Qed.

Lemma fetch_cancels_witness :
  let s := Paginated.mountEffect (API_KEY None) Paginated.initial in
  let s' := fst (Paginated.loadMore_begin (API_KEY None) s) in
  Paginated.fetchController s = Some 0%nat
  /\ Paginated.fetchController s' = Some 1%nat
  /\ 0%nat ∈ Paginated.aborted s'.
Proof.
  pose proof (fetch_cancels_the_fetch_in_flight (API_KEY None) 2 true [] 0
                (Paginated.mountEffect (API_KEY None) Paginated.initial)) as H.
  destruct H as (_ & _ & _ & _ & Hcancel).
  - apply (fetchVideos_begin_live (API_KEY None) 1 false Paginated.initial).
    unfold oneLiveController. cbn.
    split; [set_solver|]. split; [discriminate|]. split; [lia|reflexivity].
  - destruct (Hcancel eq_refl) as (Hcur & _ & Hall).
    split; [reflexivity|]. split; [exact Hcur|]. apply Hall. cbn. lia.
Defined.

(** ** The end of the feed *)

Lemma advance_no_more (KEY : string) (s : Paginated.State) :
  Paginated.hasMore s = false ->
  Paginated.advance KEY s
  = Paginated.setCurrentIndex (Paginated.currentIndex s + 1) s.
Proof.
  intros Hm. unfold Paginated.advance, Paginated.lookaheadEffect.
  cbn [Paginated.hasMore Paginated.isLoadingMore Paginated.setCurrentIndex].
  rewrite Hm. cbn [negb orb]. by rewrite bool_decide_eq_true_2.
Qed.

Lemma advances_no_more (KEY : string) (n : nat) (s : Paginated.State) :
  Paginated.hasMore s = false ->
  Paginated.hasMore (Paginated.advances KEY n s) = false
  /\ Paginated.issued (Paginated.advances KEY n s) = Paginated.issued s
  /\ Paginated.videos (Paginated.advances KEY n s) = Paginated.videos s
  /\ Paginated.page (Paginated.advances KEY n s) = Paginated.page s
  /\ Paginated.isLoadingMore (Paginated.advances KEY n s)
     = Paginated.isLoadingMore s
  /\ Paginated.currentIndex (Paginated.advances KEY n s)
     = Paginated.currentIndex s + Z.of_nat n.
Proof.
  intros Hm. induction n as [|n (H1 & H2 & H3 & H4 & H5 & H6)].
  - cbn. repeat split; try assumption. lia.
  - rewrite advances_S, (advance_no_more KEY _ H1). cbn.
    repeat split; try assumption. rewrite H6. lia.
Qed.

Lemma loadMoreCycles_no_more (KEY : string) (rs : list FetchResult)
    (s : Paginated.State) :
  Paginated.hasMore s = false -> loadMoreCycles KEY rs s = s.
Proof.
  intros Hm. unfold loadMoreCycles. induction rs as [|r rs IH]; [reflexivity|].
  cbn [foldl]. unfold loadMoreCycle at 2, Paginated.loadMore_begin.
  rewrite Hm. cbn [negb orb]. exact IH.
Qed.

(** A response whose number of records is not the page size ends the
    pagination: [hasMore] is false, and from then on no index transition
    and no call of [loadMore] issues a request or changes the feed or the
    page. *)
Theorem short_page_ends_pagination (KEY : string) (append : bool) (st : Z)
    (txt : string) (data_videos : list PexelsVideo) (n : nat)
    (rs : list FetchResult) (s : Paginated.State) :
  Z.of_nat (length data_videos) ≠ Paginated.PER_PAGE ->
  let s' := fst (Paginated.fetchVideos_end append
                   (Responded true st txt data_videos) s) in
  Paginated.hasMore s' = false
  /\ Paginated.issued (Paginated.advances KEY n s') = Paginated.issued s'
  /\ Paginated.videos (Paginated.advances KEY n s') = Paginated.videos s'
  /\ Paginated.page (Paginated.advances KEY n s') = Paginated.page s'
  /\ loadMoreCycles KEY rs s' = s'.
Proof.
  intros Hshort s'.
  assert (Hm : Paginated.hasMore s' = false).
  { unfold s'.
    destruct (fetchVideos_end_success append true st txt data_videos s eq_refl)
      as (_ & -> & _).
    by apply Z.eqb_neq. }
  destruct (advances_no_more KEY n s' Hm) as (_ & Hi & Hv & Hp & _).
  repeat (split; [assumption|]). by apply loadMoreCycles_no_more.
Qed.

Lemma short_page_witness :
  let page := mp4Record <$> [13; 14; 15; 16; 17; 18; 19] in
  let s' := fst (Paginated.fetchVideos_end true (Responded true 200 "OK" page)
                   firstPageLoaded) in
  Paginated.hasMore s' = false
  /\ Paginated.issued (Paginated.advances (API_KEY None) 18 s')
     = Paginated.issued s'.
Proof.
  assert (Hshort : Z.of_nat (length (mp4Record <$> [13; 14; 15; 16; 17; 18; 19]))
                   ≠ Paginated.PER_PAGE) by (vm_compute; discriminate).
  pose proof (short_page_ends_pagination (API_KEY None) true 200 "OK"
                (mp4Record <$> [13; 14; 15; 16; 17; 18; 19]) 18 []
                firstPageLoaded Hshort)
    as (Hm & Hi & _).
  split; [exact Hm|exact Hi].
Defined.

(* ===================================================================== *)
(** * The mute effect and the registration of elements                    *)
(* ===================================================================== *)

(** After the effect with dependency [unmutedVideoId] the same elements
    are registered, each is unmuted exactly when [unmutedVideoId] names
    it, so at most one is, and nothing else of an element has changed;
    running the effect again changes nothing. *)
Theorem muteEffect_leaves_one_unmuted (u : option Z) (refs : VideoRefs) :
  (forall k, is_Some (muteEffect u refs !! k) <-> is_Some (refs !! k))
  /\ (forall k e, refs !! k = Some e ->
        exists e', muteEffect u refs !! k = Some e'
                   /\ (muted e' = false <-> u = Some k)
                   /\ paused e' = paused e
                   /\ currentTime e' = currentTime e)
  /\ (forall k1 e1 k2 e2,
        muteEffect u refs !! k1 = Some e1 -> muteEffect u refs !! k2 = Some e2 ->
        muted e1 = false -> muted e2 = false -> k1 = k2)
  /\ muteEffect u (muteEffect u refs) = muteEffect u refs.
Proof.
  assert (Hflag : forall k, shouldMute u k = false <-> u = Some k).
  { intros k. unfold shouldMute. destruct u as [u|]; [|split; discriminate].
    rewrite negb_false_iff, Z.eqb_eq. split; [by intros ->|by intros [= ->]]. }
  split; [|split; [|split]].
  - intros k. by rewrite muteEffect_lookup, fmap_is_Some.
  - intros k e He. rewrite muteEffect_lookup, He. cbn. eexists.
    split; [reflexivity|]. cbn. split; [apply Hflag|by split].
  - intros k1 e1 k2 e2. rewrite !muteEffect_lookup.
    destruct (refs !! k1) as [a1|]; [|discriminate].
    destruct (refs !! k2) as [a2|]; [|discriminate].
    intros [= <-] [= <-]. cbn. rewrite !Hflag. congruence.
  - apply map_eq. intros k. rewrite !muteEffect_lookup.
    by destruct (refs !! k).
Qed.

Lemma foldl_delete_lookup (l : list FeedVideo) (m : VideoRefs) (k : Z) :
  foldl (fun m v => registerVideo (id v) None m) m l !! k
  = if decide (k ∈ ids l) then None else m !! k.
Proof.
  revert m. unfold ids. induction l as [|v l IH]; intros m; cbn [foldl].
  - by rewrite decide_False by apply not_elem_of_nil.
  - rewrite IH, fmap_cons. cbn [registerVideo].
    destruct (decide (k ∈ id <$> l)) as [Hin|Hin].
    + rewrite decide_True; [reflexivity|by right].
    + destruct (decide (k = id v)) as [->|Hne].
      * rewrite decide_True by (by left). apply lookup_delete_eq.
      * rewrite lookup_delete_ne by congruence.
        rewrite decide_False; [reflexivity|].
        rewrite elem_of_cons. intros [?|?]; contradiction.
Qed.

Lemma foldl_register_lookup (g : Z -> VideoElement) (l : list FeedVideo)
    (m : VideoRefs) (k : Z) :
  foldl (fun m v => registerVideo (id v) (Some (g (id v))) m) m l !! k
  = if decide (k ∈ ids l) then Some (g k) else m !! k.
Proof.
  revert m. unfold ids. induction l as [|v l IH]; intros m; cbn [foldl].
  - by rewrite decide_False by apply not_elem_of_nil.
  - rewrite IH, fmap_cons. cbn [registerVideo].
    destruct (decide (k ∈ id <$> l)) as [Hin|Hin].
    + rewrite decide_True; [reflexivity|by right].
    + destruct (decide (k = id v)) as [->|Hne].
      * rewrite decide_True by (by left). apply lookup_insert_eq.
      * rewrite lookup_insert_ne by congruence.
        rewrite decide_False; [reflexivity|].
        rewrite elem_of_cons. intros [?|?]; contradiction.
Qed.

(** The ref callbacks of a commit, called one by one as React calls them,
    leave registered exactly the ids of the videos now rendered, an id
    that was registered keeping its element and a new id getting a
    mounted one, whenever the elements registered before belong to videos
    of the previous render; that is the map the commit of the model
    computes in one step. A null node unregisters an id, and registering
    an id touches no other. *)
Theorem commitRefs_registers_rendered (rendered videos : list FeedVideo)
    (refs : VideoRefs) :
  (forall k, is_Some (refs !! k) -> k ∈ ids rendered) ->
  commitRefs rendered videos refs = attachRefs videos refs
  /\ (forall k, is_Some (commitRefs rendered videos refs !! k) <-> k ∈ ids videos)
  /\ (forall k e, k ∈ ids videos -> refs !! k = Some e ->
        commitRefs rendered videos refs !! k = Some e)
  /\ (forall k, k ∈ ids videos -> refs !! k = None ->
        commitRefs rendered videos refs !! k = Some mountedElement)
  /\ (forall k n, registerVideo k None (registerVideo k (Some n) refs) !! k = None)
  /\ (forall k j node, j ≠ k -> registerVideo k node refs !! j = refs !! j).
Proof.
  intros Hdom.
  assert (Hlook : forall k,
            commitRefs rendered videos refs !! k
            = if decide (k ∈ ids videos)
              then Some (default mountedElement (refs !! k)) else None).
  { intros k. unfold commitRefs.
    rewrite (foldl_register_lookup (fun k => default mountedElement (refs !! k))).
    destruct (decide (k ∈ ids videos)); [reflexivity|].
    rewrite foldl_delete_lookup.
    destruct (decide (k ∈ ids rendered)) as [Hin|Hin]; [reflexivity|].
    destruct (refs !! k) eqn:Hk; [|reflexivity].
    exfalso. apply Hin, Hdom. rewrite Hk. eauto. }
  split; [|split; [|split; [|split; [|split]]]].
  - apply map_eq. intros k. by rewrite Hlook, attachRefs_lookup.
  - intros k. rewrite Hlook. destruct (decide (k ∈ ids videos)) as [Hin|Hin].
    + split; [done|eauto].
    + split; [by intros [? ?]|contradiction].
  - intros k e Hin He. rewrite Hlook, He. by rewrite decide_True.
  - intros k Hin He. rewrite Hlook, He. by rewrite decide_True.
  - intros k n. cbn. apply lookup_delete_eq.
  - intros k j [n|] Hne; cbn;
      [by rewrite lookup_insert_ne|by rewrite lookup_delete_ne].
Qed.

Lemma commitRefs_witness :
  let refs : VideoRefs := {[ 3 := mkVideoElement false false 1500 ]} in
  let rendered := formatVideos [mp4Record 3] in
  let videos := formatVideos [mp4Record 3; mp4Record 5] in
  commitRefs rendered videos refs
  = {[ 3 := mkVideoElement false false 1500; 5 := mountedElement ]}.
Proof.
  pose proof (commitRefs_registers_rendered (formatVideos [mp4Record 3])
                (formatVideos [mp4Record 3; mp4Record 5])
                {[ 3 := mkVideoElement false false 1500 ]}) as H.
  destruct H as (Heq & _).
  - intros k [e He]. apply lookup_singleton_Some in He as [<- _].
    apply (bool_decide_unpack _). vm_compute. reflexivity.
  - cbv zeta. rewrite Heq. apply (bool_decide_unpack _). vm_compute.
    reflexivity.
Defined.

(* ===================================================================== *)
(** * The text of a duration                                              *)
(* ===================================================================== *)

Lemma string_length_append (a b : string) :
  String.length (String.append a b) = (String.length a + String.length b)%nat.
Proof.
  induction a as [|c a IH]; [reflexivity|].
  simpl. f_equal. exact IH.
Qed.

(** Two texts with tails of the same length are equal part by part. *)
Lemma append_inj_tail (a a' t t' : string) :
  String.length t = String.length t' ->
  String.append a t = String.append a' t' -> a = a' /\ t = t'.
Proof.
  revert a'. induction a as [|c a IH]; intros [|c' a'] Hlen Heq.
  - by split.
  - exfalso. apply (f_equal String.length) in Heq.
    rewrite !string_length_append in Heq. simpl in Heq. lia.
  - exfalso. apply (f_equal String.length) in Heq.
    rewrite !string_length_append in Heq. simpl in Heq. lia.
  - change (String c (String.append a t) = String c' (String.append a' t'))
      in Heq.
    injection Heq as -> Heq. destruct (IH a' Hlen Heq) as [-> ->]. by split.
Qed.

Lemma seconds_in_table (k : Z) : 0 <= k < 60 -> k ∈ seqZ 0 60.
Proof. intros Hk. apply elem_of_seqZ. lia. Qed.

Lemma padStart2_two_digits (k : Z) :
  0 <= k < 60 -> String.length (padStart2 (pretty k)) = 2%nat.
Proof.
  intros Hk. apply seconds_in_table in Hk. revert k Hk.
  apply Forall_forall. apply (bool_decide_unpack _). vm_compute. reflexivity.
Qed.

Lemma padStart2_inj (a b : Z) :
  0 <= a < 60 -> 0 <= b < 60 ->
  padStart2 (pretty a) = padStart2 (pretty b) -> a = b.
Proof.
  intros Ha Hb. apply seconds_in_table in Ha, Hb.
  assert (Htable : Forall (fun a =>
                     Forall (fun b => padStart2 (pretty a) = padStart2 (pretty b)
                                      -> a = b) (seqZ 0 60)) (seqZ 0 60)).
  { apply (bool_decide_unpack _). vm_compute. reflexivity. }
  rewrite Forall_forall in Htable. specialize (Htable a Ha).
  rewrite Forall_forall in Htable. exact (Htable b Hb).
Qed.

(** The text of a duration of a whole number of seconds from 0 to
    [MAX_SAFE_INTEGER] is the minutes in decimal, a colon, the seconds
    below 60 on exactly two characters, and ' min'; two different such
    durations never get the same text; NaN gets the empty text. *)
Theorem formatDuration_shape_and_injective (seconds seconds' : Z) :
  0 <= seconds <= MAX_SAFE_INTEGER -> 0 <= seconds' <= MAX_SAFE_INTEGER ->
  (exists secs,
     String.length secs = 2%nat
     /\ secs = padStart2 (pretty (seconds `mod` 60))
     /\ formatDuration (Some seconds)
        = String.append (pretty (seconds `div` 60))
            (String.append ":" (String.append secs " min")))
  /\ (formatDuration (Some seconds) = formatDuration (Some seconds') ->
      seconds = seconds')
  /\ formatDuration None = ""%string.
Proof.
  intros [Hs _] [Hs' _].
  assert (Hrem : forall x, 0 <= x -> Z.rem x 60 = x `mod` 60)
    by (intros x Hx; apply Z.rem_mod_nonneg; lia).
  assert (Hsec : forall x, 0 <= x `mod` 60 < 60)
    by (intros x; apply Z.mod_pos_bound; lia).
  split; [|split; [|reflexivity]].
  - exists (padStart2 (pretty (seconds `mod` 60))).
    split; [apply padStart2_two_digits, Hsec|]. split; [reflexivity|].
    unfold formatDuration. cbv zeta. by rewrite Hrem.
  - unfold formatDuration. cbv zeta. rewrite !Hrem by assumption.
    intros Heq. apply append_inj_tail in Heq as [Hmins Htail].
    + injection Htail as Htail.
      change (String.append (padStart2 (pretty (seconds `mod` 60))) " min"
              = String.append (padStart2 (pretty (seconds' `mod` 60))) " min")
        in Htail.
      apply (append_inj_tail _ _ " min" " min" eq_refl) in Htail as [Hsecs _].
      apply (inj pretty) in Hmins.
      apply padStart2_inj in Hsecs; [|apply Hsec|apply Hsec].
      rewrite (Z.div_mod seconds 60), (Z.div_mod seconds' 60) by lia.
      congruence.
    + cbn [String.length String.append]. rewrite !string_length_append.
      rewrite !padStart2_two_digits by apply Hsec. reflexivity.
Qed.

Lemma formatDuration_witness :
  formatDuration (Some 65) = "1:05 min"%string
  /\ (formatDuration (Some 65) = formatDuration (Some 125) -> 65 = 125).
Proof.
  pose proof (formatDuration_shape_and_injective 65 125
                ltac:(vm_compute; split; discriminate)
                ltac:(vm_compute; split; discriminate)) as (_ & Hinj & _).
  split; [vm_compute; reflexivity|exact Hinj].
Defined.

(* ===================================================================== *)
(** * The render loop and the runs of the snap-scrolling feed             *)
(* ===================================================================== *)

(** Once the loop has settled, more rounds change nothing. *)
Lemma renderLoop_stable (KEY : string) (k n : nat) (prev : option Snap.React)
    (s s' : Snap.State) :
  Snap.renderLoop KEY k prev s = (s', Some (Snap.react s')) ->
  Snap.renderLoop KEY (k + n) prev s = (s', Some (Snap.react s')).
Proof.
  revert prev s. induction k as [|k IH]; intros prev s Hk.
  - cbn in Hk. injection Hk as -> ->. destruct n as [|n]; [reflexivity|].
    cbn. by rewrite bool_decide_eq_true_2.
  - cbn [Nat.add Snap.renderLoop] in *.
    destruct (bool_decide (prev = Some (Snap.react s))); [exact Hk|].
    by apply IH.
Qed.

(** Although the play/pause effect sets state from within an effect that
    depends on that state, rendering always comes to rest: after any
    event of any run, three rounds reach a state whose cells are those of
    the last render, and any number of further rounds gives the same
    state; an event whose handler changes no state cell causes no render
    at all. *)
Theorem rendering_settles (KEY : string) (events : list Snap.Event)
    (e e2 : Snap.Event) (n : nat) :
  let s := Snap.run KEY events in
  let h := Snap.handle e s in
  snd (Snap.renderLoop KEY 3 (Some (Snap.react s)) h)
  = Some (Snap.react (Snap.step KEY s e))
  /\ Snap.renderLoop KEY (3 + n) (Some (Snap.react s)) h
     = Snap.renderLoop KEY 3 (Some (Snap.react s)) h
  /\ (Snap.react (Snap.handle e2 s) = Snap.react s ->
      Snap.step KEY s e2 = Snap.handle e2 s).
Proof.
  intros s h.
  destruct (settle_Inv KEY (Snap.react s) h (handle_Pre e s (run_Inv KEY events)))
    as (_ & Hsettled & _).
  cbv zeta in Hsettled. fold (Snap.step KEY s e) in Hsettled.
  split; [exact Hsettled|]. split.
  - assert (Hloop : Snap.renderLoop KEY 3 (Some (Snap.react s)) h
                    = (Snap.step KEY s e, Some (Snap.react (Snap.step KEY s e)))).
    { rewrite (surjective_pairing (Snap.renderLoop KEY 3 (Some (Snap.react s)) h)).
      by rewrite Hsettled. }
    by rewrite (renderLoop_stable KEY 3 n _ _ _ Hloop), Hloop.
  - intros Hc. unfold Snap.step, Snap.settle. cbn [Snap.renderLoop].
    rewrite Hc. by rewrite bool_decide_eq_true_2.
Qed.

(** In every state of every run [currentIndex] is a valid index of the
    feed (0 for an empty feed), the registered elements are exactly those
    of the ids of the feed, and a feed that is still loading is empty. *)
Theorem run_index_and_elements (KEY : string) (events : list Snap.Event) :
  let s := Snap.run KEY events in
  let c := Snap.react s in
  0 <= Snap.currentIndex c
  /\ (Snap.videos c = [] -> Snap.currentIndex c = 0 /\ Snap.videoRefs s = ∅)
  /\ (Snap.videos c ≠ [] ->
      Snap.currentIndex c < Z.of_nat (length (Snap.videos c))
      /\ is_Some (Snap.videos c !! Z.to_nat (Snap.currentIndex c)))
  /\ (forall k, is_Some (Snap.videoRefs s !! k) <-> k ∈ ids (Snap.videos c))
  /\ (Snap.status c = loading -> Snap.videos c = []).
Proof.
  intros s c. pose proof (run_Inv KEY events) as HI. fold s in HI.
  pose proof HI as [Hdom Hidx Hun Hsync Hpl Hload]. fold c in Hdom, Hidx, Hload.
  destruct (Inv_playing s HI) as (_ & _ & _ & _ & Hempty).
  destruct Hidx as [H0 Hlt]. split; [exact H0|]. split; [|split; [|split]].
  - intros Hv. split; [|by apply Hempty].
    destruct Hlt as [Hlt|[_ Hz]]; [|exact Hz]. rewrite Hv in Hlt. cbn in Hlt. lia.
  - intros Hne. destruct Hlt as [Hlt|[Hv _]]; [|contradiction].
    split; [exact Hlt|]. apply lookup_lt_is_Some. lia.
  - exact Hdom.
  - exact Hload.
Qed.

(** Every event but the answer to the one fetch leaves the feed alone. *)
Lemma handle_videos (e : Snap.Event) (s : Snap.State) :
  Snap.status (Snap.react s) ≠ loading ->
  Snap.videos (Snap.react (Snap.handle e s)) = Snap.videos (Snap.react s)
  /\ Snap.status (Snap.react (Snap.handle e s)) = Snap.status (Snap.react s).
Proof.
  intros Hst.
  destruct e as [r|deltaY now cardHeight|y|y|cardHeight|vid| | |elapsed];
    cbn [Snap.handle].
  - by rewrite bool_decide_eq_false_2.
  - destruct (Snap.listening _); [|done].
    by destruct (handleWheel_navigationOnly (Snap.react s) deltaY now cardHeight s)
      as (_ & ? & ? & _).
  - destruct (Snap.listening _); [|done].
    by destruct (handleTouchStart_navigationOnly (Snap.react s) y s)
      as (_ & ? & ? & _).
  - destruct (Snap.listening _); [|done].
    by destruct (handleTouchMove_navigationOnly (Snap.react s) y s)
      as (_ & ? & ? & _).
  - destruct (Snap.listening _); [|done].
    by destruct (handleTouchEnd_navigationOnly (Snap.react s) cardHeight s)
      as (_ & ? & ? & _).
  - unfold Snap.click.
    by destruct (handleVideoClick _ vid (Snap.videoRefs s)) as [refs [u|]].
  - by destruct (Snap.snapTimers s).
  - destruct (Snap.wheelTimeout s); [|done].
    by destruct (wheelTimeoutCallback_navigationOnly (Snap.react s) s)
      as (_ & ? & ? & _).
  - done.
Qed.

(** The feed is loaded once: when the fetch has been answered (the status
    is no longer loading) no event changes the feed or the status; while
    it is loading the feed is empty, and the only event that can fill it
    is a successful answer, which puts the formatted records there. *)
Theorem feed_is_loaded_once (KEY : string) (events : list Snap.Event)
    (e : Snap.Event) :
  let s := Snap.run KEY events in
  let s' := Snap.step KEY s e in
  (Snap.status (Snap.react s) ≠ loading ->
   Snap.videos (Snap.react s') = Snap.videos (Snap.react s)
   /\ Snap.status (Snap.react s') = Snap.status (Snap.react s))
  /\ (Snap.status (Snap.react s) = loading ->
      Snap.videos (Snap.react s) = []
      /\ (Snap.videos (Snap.react s') ≠ [] ->
          exists r data_videos,
            e = Snap.Fetched r /\ tryBlock r = inr data_videos
            /\ Snap.videos (Snap.react s') = formatVideos data_videos
            /\ Snap.status (Snap.react s') = success)).
Proof.
  intros s s'. pose proof (run_Inv KEY events) as HI. fold s in HI.
  destruct (settle_Inv KEY (Snap.react s) (Snap.handle e s) (handle_Pre e s HI))
    as (_ & _ & Hv & Hs & _).
  cbv zeta in Hv, Hs. fold (Snap.step KEY s e) in Hv, Hs. fold s' in Hv, Hs.
  split.
  - intros Hst. destruct (handle_videos e s Hst) as [Hv0 Hs0]. split; congruence.
  - intros Hst. pose proof (inv_loading s HI Hst) as Hempty.
    split; [exact Hempty|]. rewrite Hv, Hs. intros Hne.
    destruct e as [r|deltaY now cardHeight|y|y|cardHeight|vid| | |elapsed];
      cbn [Snap.handle] in *.
    + rewrite bool_decide_eq_true_2 in * by exact Hst.
      unfold Snap.fetchVideos_end in *.
      destruct (tryBlock r) as [t|data_videos] eqn:Hr.
      * exfalso. by apply Hne.
      * exists r, data_videos. by repeat split.
    + exfalso. apply Hne. unfold Snap.listening. rewrite Hempty. exact Hempty.
    + exfalso. apply Hne. unfold Snap.listening. rewrite Hempty. exact Hempty.
    + exfalso. apply Hne. unfold Snap.listening. rewrite Hempty. exact Hempty.
    + exfalso. apply Hne. unfold Snap.listening. rewrite Hempty. exact Hempty.
    + exfalso. apply Hne. unfold Snap.click.
      by destruct (handleVideoClick _ vid (Snap.videoRefs s)) as [refs [u|]].
    + exfalso. apply Hne. by destruct (Snap.snapTimers s).
    + exfalso. apply Hne. destruct (Snap.wheelTimeout s); [|done].
      by destruct (wheelTimeoutCallback_navigationOnly (Snap.react s) s)
        as (_ & -> & _).
    + exfalso. by apply Hne.
Qed.

Lemma rendering_settles_witness :
  let s := Snap.run (API_KEY None)
             [Snap.Fetched (Responded true 200 "OK" fullPage); Snap.Click 1] in
  Snap.step (API_KEY None) s Snap.SnapTimeout = Snap.handle Snap.SnapTimeout s.
Proof.
  pose proof (rendering_settles (API_KEY None)
                [Snap.Fetched (Responded true 200 "OK" fullPage); Snap.Click 1]
                Snap.SnapTimeout Snap.SnapTimeout 0) as (_ & _ & Hquiet).
  apply Hquiet. vm_compute. reflexivity.
Defined.

(** ** A feed with nothing to show *)

(** Nothing happens to a feed that is empty, is not loading and has no
    timer pending: the wheel and touch listeners are not attached, there
    is no element to click, and no answer is awaited. *)
Lemma inert_step (KEY : string) (s : Snap.State) (e : Snap.Event) :
  inert s -> Snap.step KEY s e = s.
Proof.
  destruct s as [[videos status errorMessage unmuted index] refs ss styles n w].
  unfold inert. cbn. intros (-> & Hst & -> & -> & ->).
  assert (Hh : Snap.handle e
                 (Snap.mkState (Snap.mkReact [] status errorMessage unmuted index)
                    ∅ ss styles 0 false)
               = Snap.mkState (Snap.mkReact [] status errorMessage unmuted index)
                   ∅ ss styles 0 false).
  { destruct e as [r|deltaY now cardHeight|y|y|cardHeight|vid| | |elapsed];
      cbn [Snap.handle Snap.react Snap.status Snap.videos Snap.listening
           Snap.snapTimers Snap.wheelTimeout length Nat.eqb negb];
      try reflexivity.
    by rewrite bool_decide_eq_false_2. }
  unfold Snap.step, Snap.settle. rewrite Hh. cbn [Snap.renderLoop Snap.react].
  by rewrite bool_decide_eq_true_2.
Qed.

Lemma inert_run (KEY : string) (events : list Snap.Event) (s : Snap.State) :
  inert s -> foldl (Snap.step KEY) s events = s.
Proof.
  intros Hs. induction events as [|e events IH]; [reflexivity|].
  cbn [foldl]. by rewrite (inert_step KEY s e Hs).
Qed.

Lemma run_app (KEY : string) (events1 events2 : list Snap.Event) :
  Snap.run KEY (events1 ++ events2)
  = foldl (Snap.step KEY) (Snap.run KEY events1) events2.
Proof. unfold Snap.run. apply foldl_app. Qed.

Lemma settle_without_videos (KEY : string) (p : Snap.React) (s : Snap.State) :
  Snap.videos p = [] ->
  Snap.videos (Snap.react s) = [] ->
  Snap.unmutedVideoId p = Snap.unmutedVideoId (Snap.react s) ->
  Snap.currentIndex p = Snap.currentIndex (Snap.react s) ->
  Snap.videoRefs s = ∅ ->
  Snap.settle KEY (Some p) s = s.
Proof.
  destruct s as [c refs ss styles n w]. cbn [Snap.react Snap.videoRefs].
  intros Hp Hc Hu Hi ->. unfold Snap.settle. cbn [Snap.renderLoop Snap.react].
  destruct (bool_decide (Some p = Some c)); [reflexivity|].
  assert (Hcommit : Snap.commit KEY (Some p) c
                      (Snap.mkState c ∅ ss styles n w)
                    = Snap.mkState c ∅ ss styles n w).
  { unfold Snap.commit. rewrite Hp, Hc, Hu, Hi.
    rewrite !bool_decide_eq_false_2 by (intros Hne; by apply Hne).
    reflexivity. }
  rewrite Hcommit. cbn [Snap.react].
  by rewrite bool_decide_eq_true_2.
Qed.

Lemma fetched_without_videos (KEY : string) (r : FetchResult) :
  falsy KEY = false ->
  (exists t, tryBlock r = inl t)
  \/ (exists data_videos, tryBlock r = inr data_videos
                           /\ formatVideos data_videos = []) ->
  let s := Snap.run KEY [Snap.Fetched r] in
  inert s
  /\ Snap.status (Snap.react s)
     = (match tryBlock r with inl _ => error | inr _ => success end)
  /\ Snap.errorMessage (Snap.react s)
     = (match tryBlock r with inl t => Some (messageOf t) | inr _ => None end).
Proof.
  intros Hkey Hr. cbv zeta. unfold Snap.run. cbn [foldl].
  rewrite mounted_cases, Hkey.
  unfold Snap.step, Snap.handle, Snap.fetchVideos_end.
  cbn [Snap.react Snap.status]. rewrite bool_decide_eq_true_2 by reflexivity.
  destruct Hr as [[t Ht]|(data_videos & Hd & Hempty)].
  - rewrite !Ht. rewrite settle_without_videos by reflexivity.
    unfold inert. cbn. repeat split; try reflexivity; discriminate.
  - rewrite !Hd, Hempty. rewrite settle_without_videos by reflexivity.
    unfold inert. cbn. repeat split; try reflexivity; discriminate.
Qed.

(** Without a key the component shows the error 'Missing Pexels API key.'
    and stays as mounted whatever happens. With a key, after a fetch that
    failed it shows the message of the failure, after a fetch that brought
    no record with an mp4 rendition it shows success with an empty feed,
    and in both cases no later event changes anything. *)
Theorem feed_without_videos_is_inert (KEY : string) (r : FetchResult)
    (events : list Snap.Event) :
  (falsy KEY = true ->
   Snap.run KEY events = Snap.mounted KEY
   /\ Snap.status (Snap.react (Snap.mounted KEY)) = error
   /\ Snap.errorMessage (Snap.react (Snap.mounted KEY))
      = Some "Missing Pexels API key."%string
   /\ Snap.videos (Snap.react (Snap.mounted KEY)) = [])
  /\ (falsy KEY = false ->
      (exists t, tryBlock r = inl t)
      \/ (exists data_videos, tryBlock r = inr data_videos
                              /\ formatVideos data_videos = []) ->
      let s := Snap.run KEY [Snap.Fetched r] in
      Snap.run KEY (Snap.Fetched r :: events) = s
      /\ Snap.videos (Snap.react s) = []
      /\ Snap.status (Snap.react s)
         = (match tryBlock r with inl _ => error | inr _ => success end)
      /\ Snap.errorMessage (Snap.react s)
         = (match tryBlock r with inl t => Some (messageOf t) | inr _ => None end)).
Proof.
  split.
  - intros Hkey. split.
    + unfold Snap.run. apply inert_run. rewrite mounted_cases, Hkey.
      unfold inert. cbn. repeat split; discriminate.
    + rewrite mounted_cases, Hkey. repeat split.
  - intros Hkey Hr s.
    destruct (fetched_without_videos KEY r Hkey Hr) as (Hin & Hst & He).
    fold s in Hin, Hst, He. split; [|split; [apply Hin|split; assumption]].
    change (Snap.Fetched r :: events) with ([Snap.Fetched r] ++ events).
    rewrite run_app. by apply inert_run.
Qed.

Lemma feed_without_videos_witness :
  let r := Responded false 500 "Internal Server Error" [] in
  Snap.run (API_KEY None) [Snap.Fetched r; Snap.Wheel 100 0 800; Snap.Click 3]
  = Snap.run (API_KEY None) [Snap.Fetched r]
  /\ Snap.errorMessage (Snap.react (Snap.run (API_KEY None) [Snap.Fetched r]))
     = Some "Failed to fetch videos (500 Internal Server Error)"%string.
Proof.
  pose proof (feed_without_videos_is_inert (API_KEY None)
                (Responded false 500 "Internal Server Error" [])
                [Snap.Wheel 100 0 800; Snap.Click 3]) as [_ H].
  destruct (H eq_refl) as (Hrun & _ & _ & He).
  - left. eexists. reflexivity.
  - split; [exact Hrun|exact He].
Defined.

(* ===================================================================== *)
(** * Gestures of the snap-scrolling feed                                 *)
(* ===================================================================== *)

Lemma snapToIndex_next (c : Snap.React) (next : Z) (s : Snap.State) :
  (0 <=? next) && (next <? Z.of_nat (length (Snap.videos c))) = true ->
  next ≠ Snap.currentIndex c ->
  Snap.snapToIndex c next false s
  = Snap.withSnapTimers S
      (Snap.setCurrentIndex next
         (Snap.styleCard (Snap.getCardByIndex c (Snap.currentIndex c))
            (Snap.mkCardStyle Snap.transform_empty Snap.transition_empty)
            (Snap.withScroll
               (fun ss =>
                  Snap.set_accumulatedDelta 0
                    (Snap.set_targetIndex next (Snap.set_isScrolling true ss)))
               s))).
Proof.
  intros Hin Hne. unfold Snap.snapToIndex.
  apply andb_true_iff in Hin as Hin'. destruct Hin' as [H0 H1].
  apply Z.leb_le in H0. apply Z.ltb_lt in H1.
  replace (Z.max 0 (Z.min next (Z.of_nat (length (Snap.videos c)) - 1)))
    with next by lia.
  apply Z.eqb_neq in Hne. rewrite Hne. cbn [andb].
  unfold Snap.getCardByIndex at 1. by rewrite Hin.
Qed.

Lemma snapToIndex_next_cells (c : Snap.React) (next : Z) (s : Snap.State) :
  (0 <=? next) && (next <? Z.of_nat (length (Snap.videos c))) = true ->
  next ≠ Snap.currentIndex c ->
  let s' := Snap.snapToIndex c next false s in
  Snap.currentIndex (Snap.react s') = next /\ snapped next s s'.
Proof.
  intros Hin Hne. cbv zeta. rewrite (snapToIndex_next c next s Hin Hne).
  unfold snapped.
  destruct (Snap.getCardByIndex c (Snap.currentIndex c));
    cbn [Snap.styleCard]; scroll_cells; cells; done.
Qed.

Lemma handle_index_step (e : Snap.Event) (s : Snap.State) :
  let s' := Snap.handle e s in
  let i := Snap.currentIndex (Snap.react s) in
  let i' := Snap.currentIndex (Snap.react s') in
  i' = i
  \/ ((i' = i + 1 \/ i' = i - 1)
      /\ 0 <= i' < Z.of_nat (length (Snap.videos (Snap.react s)))
      /\ ((exists deltaY now cardHeight, e = Snap.Wheel deltaY now cardHeight)
          \/ (exists cardHeight, e = Snap.TouchEnd cardHeight))
      /\ snapped i' s s').
Proof.
  cbv zeta.
  destruct e as [r|deltaY now cardHeight|y|y|cardHeight|vid| | |elapsed];
    cbn [Snap.handle].
  - left. destruct (bool_decide _); [|reflexivity].
    unfold Snap.fetchVideos_end. by destruct (tryBlock r).
  - destruct (Snap.listening _); [|by left].
    unfold Snap.handleWheel.
    destruct (Snap.isScrolling (Snap.scrollState s)); [by left|].
    cbv zeta. scroll_cells.
    set (acc := (Snap.accumulatedDelta (Snap.scrollState s) + deltaY)%float).
    destruct (Snap.crossesWheelThreshold acc cardHeight).
    + set (next := Snap.currentIndex (Snap.react s)
                   + (if (0 <? acc)%float then 1 else -1)).
      destruct ((0 <=? next)
                && (next <? Z.of_nat (length (Snap.videos (Snap.react s))))) eqn:Hin.
      * right.
        assert (Hne : next ≠ Snap.currentIndex (Snap.react s)).
        { unfold next. destruct (0 <? acc)%float; lia. }
        match goal with
        | |- context [Snap.snapToIndex _ next false ?t] =>
            destruct (snapToIndex_next_cells (Snap.react s) next t Hin Hne)
              as (Hi & Hsc & Hacc & Htg & Htm)
        end.
        scroll_cells. cells. rewrite Hi.
        apply andb_true_iff in Hin as [H0 H1].
        apply Z.leb_le in H0. apply Z.ltb_lt in H1.
        split; [unfold next; destruct (0 <? acc)%float; lia|].
        split; [lia|]. split; [left; eauto|].
        unfold snapped. scroll_cells. done.
      * left. destruct (Snap.getCardByIndex _ _); reflexivity.
    + left. destruct (Snap.getCardByIndex _ _); reflexivity.
  - left. destruct (Snap.listening _); [|done].
    unfold Snap.handleTouchStart. by destruct (Snap.isScrolling _).
  - left. destruct (Snap.listening _); [|done].
    unfold Snap.handleTouchMove. destruct (_ || _); [done|].
    cbv zeta. by destruct (Snap.getCardByIndex _ _).
  - destruct (Snap.listening _); [|by left].
    unfold Snap.handleTouchEnd.
    destruct (negb _); [by left|]. cbv zeta.
    set (deltaY := (Snap.startY (Snap.scrollState s)
                    - Snap.currentY (Snap.scrollState s))%float).
    destruct (Snap.crossesTouchThreshold deltaY cardHeight).
    + set (next := Snap.currentIndex (Snap.react s)
                   + (if (0 <? deltaY)%float then 1 else -1)).
      destruct ((0 <=? next)
                && (next <? Z.of_nat (length (Snap.videos (Snap.react s))))) eqn:Hin.
      * right.
        assert (Hne : next ≠ Snap.currentIndex (Snap.react s)).
        { unfold next. destruct (0 <? deltaY)%float; lia. }
        destruct (snapToIndex_next_cells (Snap.react s) next s Hin Hne)
          as (Hi & Hsc & Hacc & Htg & Htm).
        scroll_cells. cells. rewrite Hi.
        apply andb_true_iff in Hin as [H0 H1].
        apply Z.leb_le in H0. apply Z.ltb_lt in H1.
        split; [unfold next; destruct (0 <? deltaY)%float; lia|].
        split; [lia|]. split; [right; eauto|].
        unfold snapped. scroll_cells. done.
      * left. destruct (Snap.getCardByIndex _ _); reflexivity.
    + left. destruct (Snap.getCardByIndex _ _); reflexivity.
  - left. unfold Snap.click.
    by destruct (handleVideoClick _ _ _) as [refs [u|]].
  - left. by destruct (Snap.snapTimers s).
  - left. destruct (Snap.wheelTimeout s); [|done].
    unfold Snap.wheelTimeoutCallback.
    destruct (negb _); [|done]. by destruct (Snap.getCardByIndex _ _).
  - by left.
Qed.

(** One event moves the feed by one card at most. In every run, after any
    event the index is the one before, or a wheel movement or the release
    of a drag has moved it to a neighbouring card of the feed; the handler
    then leaves the snap in progress ([isScrolling]), the accumulated
    wheel delta at 0, the index as the target and one more timeout
    scheduled. *)
Theorem one_event_moves_one_card (KEY : string) (events : list Snap.Event)
    (e : Snap.Event) :
  let s := Snap.run KEY events in
  let s' := Snap.step KEY s e in
  let i := Snap.currentIndex (Snap.react s) in
  let i' := Snap.currentIndex (Snap.react s') in
  i' = i
  \/ ((i' = i + 1 \/ i' = i - 1)
      /\ 0 <= i' < Z.of_nat (length (Snap.videos (Snap.react s')))
      /\ ((exists deltaY now cardHeight, e = Snap.Wheel deltaY now cardHeight)
          \/ (exists cardHeight, e = Snap.TouchEnd cardHeight))
      /\ snapped i' s (Snap.handle e s)).
Proof.
  cbv zeta. set (s := Snap.run KEY events).
  pose proof (run_Inv KEY events) as HI. fold s in HI.
  destruct (settle_Inv KEY (Snap.react s) (Snap.handle e s) (handle_Pre e s HI))
    as (_ & _ & Hv & _ & _ & Hi & _).
  change (Snap.settle KEY (Some (Snap.react s)) (Snap.handle e s))
    with (Snap.step KEY s e) in Hv, Hi.
  rewrite Hi, Hv.
  destruct (handle_index_step e s) as [Hsame|(Hd & Hr & He & Hs)];
    [by left|right].
  assert (Hne : Snap.currentIndex (Snap.react (Snap.handle e s))
                ≠ Snap.currentIndex (Snap.react s)) by lia.
  destruct (handle_navigation e s Hne) as (_ & Hvid & _).
  rewrite Hvid. done.
Qed.

Lemma getCardByIndex_current (c : Snap.React) :
  0 <= Snap.currentIndex c < Z.of_nat (length (Snap.videos c)) ->
  Snap.getCardByIndex c (Snap.currentIndex c) = Some (Snap.currentIndex c).
Proof.
  intros [H0 H1]. unfold Snap.getCardByIndex.
  apply Z.leb_le in H0. apply Z.ltb_lt in H1. by rewrite H0, H1.
Qed.

Lemma dragGesture_cells (c : Snap.React) (start : option float)
    (moves : list (option float)) (s : Snap.State) :
  Snap.isScrolling (Snap.scrollState s) = false ->
  let d := dragGesture c start moves s in
  Snap.react d = Snap.react s
  /\ Snap.videoRefs d = Snap.videoRefs s
  /\ Snap.snapTimers d = Snap.snapTimers s
  /\ Snap.wheelTimeout d = Snap.wheelTimeout s
  /\ Snap.scrollState d
     = Snap.set_currentY (lastSeen start moves)
         (Snap.set_startY (default 0%float start)
            (Snap.set_isDragging true (Snap.scrollState s))).
Proof.
  intros Hs. cbv zeta. unfold dragGesture, lastSeen.
  induction moves as [|y moves IH] using rev_ind.
  - cbn [foldl last]. unfold Snap.handleTouchStart. rewrite Hs.
    scroll_cells. done.
  - rewrite foldl_app, last_snoc. cbn [foldl default].
    destruct IH as (Hr & Hv & Ht & Hw & Hss).
    set (d := foldl _ _ moves) in *.
    unfold Snap.handleTouchMove. rewrite Hss. scroll_cells. rewrite Hs.
    cbn [negb orb]. cbv zeta.
    match goal with
    | |- context [Snap.styleCard ?card ?st ?t] =>
        destruct (styleCard_cells card st t) as (Hr' & Hv' & Hss' & Ht' & Hw')
    end.
    rewrite Hr', Hv', Hss', Ht', Hw'. scroll_cells. rewrite Hss. scroll_cells.
    done.
Qed.

(** The outcome of a drag that begins on a feed at rest depends only on
    where the finger went down and where it was last seen. The release
    ends the drag and does not touch the elements. It moves the feed to
    the neighbouring card in the direction of the drag exactly when the
    distance is a quarter of the card height or more and that card
    exists; otherwise the cells are as before the drag. In both cases
    the card that was current is left without offset. Coordinates are
    doubles: the distance is [startY - currentY] as the code computes
    it, compared with [cardHeight * 0.25]. *)
Theorem drag_outcome (start : option float) (moves : list (option float))
    (cardHeight : float) (s : Snap.State) :
  let c := Snap.react s in
  let deltaY := (default 0 start - lastSeen start moves)%float in
  let next := Snap.currentIndex c + (if (0 <? deltaY)%float then 1 else -1) in
  let commits :=
    Snap.crossesTouchThreshold deltaY cardHeight
    && ((0 <=? next) && (next <? Z.of_nat (length (Snap.videos c)))) in
  let s' := Snap.handleTouchEnd c cardHeight (dragGesture c start moves s) in
  Snap.isScrolling (Snap.scrollState s) = false ->
  0 <= Snap.currentIndex c < Z.of_nat (length (Snap.videos c)) ->
  Snap.isDragging (Snap.scrollState s') = false
  /\ Snap.startY (Snap.scrollState s') = 0%float
  /\ Snap.currentY (Snap.scrollState s') = 0%float
  /\ Snap.videoRefs s' = Snap.videoRefs s
  /\ Snap.currentIndex (Snap.react s')
     = (if commits then next else Snap.currentIndex c)
  /\ Snap.isScrolling (Snap.scrollState s') = commits
  /\ Snap.snapTimers s'
     = (if commits then S (Snap.snapTimers s) else Snap.snapTimers s)
  /\ (commits = false -> Snap.react s' = Snap.react s)
  /\ settledCard c s'.
Proof.
  cbv zeta. intros Hs Hidx.
  destruct (dragGesture_cells (Snap.react s) start moves s Hs)
    as (Hr & Hv & Ht & Hw & Hss).
  set (d := dragGesture (Snap.react s) start moves s) in *.
  set (c := Snap.react s) in *. clearbody d.
  set (deltaY := (default 0 start - lastSeen start moves)%float).
  unfold Snap.handleTouchEnd. rewrite Hss. scroll_cells. cbn [negb]. cbv zeta.
  fold deltaY.
  set (next := Snap.currentIndex c + (if (0 <? deltaY)%float then 1 else -1)).
  rewrite (getCardByIndex_current c Hidx).
  destruct (Snap.crossesTouchThreshold deltaY cardHeight); cbn [andb].
  - destruct ((0 <=? next) && (next <? Z.of_nat (length (Snap.videos c)))) eqn:Hin.
    + assert (Hne : next ≠ Snap.currentIndex c).
      { unfold next. destruct (0 <? deltaY)%float; lia. }
      rewrite (snapToIndex_next c next d Hin Hne).
      rewrite (getCardByIndex_current c Hidx).
      cbn [Snap.styleCard]. scroll_cells. cells.
      rewrite ?Hss, ?Hv, ?Ht, ?Hr. scroll_cells.
      repeat split; try done.
      unfold settledCard. cells. eexists. rewrite lookup_insert_eq.
      split; reflexivity.
    + cbn [Snap.styleCard]. scroll_cells. cells.
      rewrite ?Hss, ?Hv, ?Ht, ?Hr. scroll_cells.
      repeat split; try done.
      unfold settledCard. cells. eexists. rewrite lookup_insert_eq.
      split; reflexivity.
  - cbn [Snap.styleCard]. scroll_cells. cells.
    rewrite ?Hss, ?Hv, ?Ht, ?Hr. scroll_cells.
    repeat split; try done.
    unfold settledCard. cells. eexists. rewrite lookup_insert_eq.
    split; reflexivity.
Qed.

Lemma drag_outcome_witness :
  let s := Snap.run (API_KEY None)
             [Snap.Fetched (Responded true 200 "OK"%string fullPage);
              Snap.SnapTimeout] in
  Snap.currentIndex
    (Snap.react
       (Snap.handleTouchEnd (Snap.react s) 800
          (dragGesture (Snap.react s) (Some 500.5%float)
             [Some 400.25%float; Some 250.75%float] s)))
  = 1.
Proof.
  pose proof (drag_outcome (Some 500.5%float)
                [Some 400.25%float; Some 250.75%float] 800
                (Snap.run (API_KEY None)
                   [Snap.Fetched (Responded true 200 "OK"%string fullPage);
                    Snap.SnapTimeout])) as H.
  cbv zeta in H.
  destruct H as (_ & _ & _ & _ & Hi & _).
  - vm_compute. reflexivity.
  - vm_compute. split; [discriminate|reflexivity].
  - cbv zeta. rewrite Hi. vm_compute. reflexivity.
Defined.

Lemma handleWheel_below (c : Snap.React) (deltaY : float) (now : Z)
    (cardHeight : float) (s : Snap.State) :
  Snap.isScrolling (Snap.scrollState s) = false ->
  let acc := (Snap.accumulatedDelta (Snap.scrollState s) + deltaY)%float in
  Snap.crossesWheelThreshold acc cardHeight = false ->
  let s' := Snap.handleWheel c deltaY now cardHeight s in
  Snap.react s' = Snap.react s
  /\ Snap.videoRefs s' = Snap.videoRefs s
  /\ Snap.snapTimers s' = Snap.snapTimers s
  /\ Snap.wheelTimeout s' = true
  /\ Snap.scrollState s'
     = Snap.set_accumulatedDelta acc
         (Snap.set_lastScrollTime now (Snap.scrollState s))
  /\ Snap.cardStyles s'
     = match Snap.getCardByIndex c (Snap.currentIndex c) with
       | Some i =>
           <[i := Snap.mkCardStyle (Snap.translateY_scale1 (- acc * 0.5)%float)
                    Snap.transition_none]> (Snap.cardStyles s)
       | None => Snap.cardStyles s
       end.
Proof.
  intros Hs acc Hlow. cbv zeta. unfold Snap.handleWheel. rewrite Hs.
  cbv zeta. scroll_cells. fold acc. rewrite Hlow.
  destruct (Snap.getCardByIndex c (Snap.currentIndex c));
    cbn [Snap.styleCard]; scroll_cells; done.
Qed.

Lemma wheelGesture_below (c : Snap.React) (cardHeight : float)
    (wheels : list (float * Z)) (s : Snap.State) :
  Snap.isScrolling (Snap.scrollState s) = false ->
  staysBelow cardHeight (Snap.accumulatedDelta (Snap.scrollState s))
    (fst <$> wheels) = true ->
  let s' := wheelGesture c cardHeight wheels s in
  let acc := foldl PrimFloat.add (Snap.accumulatedDelta (Snap.scrollState s))
               (fst <$> wheels) in
  Snap.react s' = Snap.react s
  /\ Snap.videoRefs s' = Snap.videoRefs s
  /\ Snap.snapTimers s' = Snap.snapTimers s
  /\ Snap.isScrolling (Snap.scrollState s') = false
  /\ Snap.accumulatedDelta (Snap.scrollState s') = acc
  /\ (wheels ≠ [] ->
      Snap.wheelTimeout s' = true
      /\ forall i, Snap.getCardByIndex c (Snap.currentIndex c) = Some i ->
           Snap.cardStyles s' !! i
           = Some (Snap.mkCardStyle (Snap.translateY_scale1 (- acc * 0.5)%float)
                     Snap.transition_none)).
Proof.
  cbv zeta. unfold wheelGesture.
  induction wheels as [|[d now] wheels IH] using rev_ind; intros Hs Hlow.
  - cbn. repeat split; try done.
  - rewrite fmap_app, foldl_app in *. cbn [fmap list_fmap foldl fst snd] in *.
    assert (Hpre : staysBelow cardHeight
                     (Snap.accumulatedDelta (Snap.scrollState s))
                     (fst <$> wheels) = true
                   /\ Snap.crossesWheelThreshold
                        (foldl PrimFloat.add
                           (Snap.accumulatedDelta (Snap.scrollState s))
                           (fst <$> wheels) + d)%float cardHeight = false).
    { clear IH. revert Hlow.
      generalize (Snap.accumulatedDelta (Snap.scrollState s)).
      induction (fst <$> wheels) as [|x xs IHx]; intros a; cbn.
      - rewrite andb_true_r. intros H. split; [done|].
        by apply negb_true_iff in H.
      - intros H. apply andb_true_iff in H as [H1 H2].
        destruct (IHx _ H2) as [H3 H4]. by rewrite H1, H3. }
    destruct Hpre as [Hpre Hlast].
    destruct (IH Hs Hpre) as (Hr & Hv & Ht & Hsc & Hacc & _).
    set (s1 := foldl _ s wheels) in *. clearbody s1.
    rewrite foldl_app. cbn [foldl].
    rewrite <- Hacc in Hlast.
    destruct (handleWheel_below c d now cardHeight s1 Hsc Hlast)
      as (Hr' & Hv' & Ht' & Hw' & Hss' & Hst').
    rewrite Hr', Hv', Ht', Hss', Hst', Hw'. scroll_cells.
    rewrite Hacc. repeat split; try done.
    intros i ->. by rewrite lookup_insert_eq.
Qed.

(** Wheel deltas add up across events, as doubles and in the order of
    the events. As long as the absolute value of the sum stays below the
    threshold [cardHeight * 0.01] the index and the elements are untouched
    and the current card is shifted by the sum times -0.5. The event that
    takes the sum to the threshold moves the feed by one card in the
    direction of the sum, when that card exists, and resets the sum; the
    idle timeout instead resets the sum and takes the offset off the
    card. *)
Theorem wheel_deltas_accumulate (wheels : list (float * Z))
    (deltaY : float) (now : Z) (cardHeight : float) (s : Snap.State) :
  let c := Snap.react s in
  let s1 := wheelGesture c cardHeight wheels s in
  let acc := foldl PrimFloat.add (Snap.accumulatedDelta (Snap.scrollState s))
               (fst <$> wheels) in
  let next :=
    Snap.currentIndex c + (if (0 <? acc + deltaY)%float then 1 else -1) in
  Snap.isScrolling (Snap.scrollState s) = false ->
  0 <= Snap.currentIndex c < Z.of_nat (length (Snap.videos c)) ->
  staysBelow cardHeight (Snap.accumulatedDelta (Snap.scrollState s))
    (fst <$> wheels) = true ->
  (Snap.react s1 = Snap.react s
   /\ Snap.videoRefs s1 = Snap.videoRefs s
   /\ Snap.accumulatedDelta (Snap.scrollState s1) = acc)
  /\ (wheels ≠ [] ->
      Snap.cardStyles s1 !! Snap.currentIndex c
      = Some (Snap.mkCardStyle (Snap.translateY_scale1 (- acc * 0.5)%float)
                Snap.transition_none))
  /\ (Snap.crossesWheelThreshold (acc + deltaY)%float cardHeight = true ->
      (0 <=? next) && (next <? Z.of_nat (length (Snap.videos c))) = true ->
      let s2 := Snap.handleWheel c deltaY now cardHeight s1 in
      Snap.currentIndex (Snap.react s2) = next
      /\ Snap.accumulatedDelta (Snap.scrollState s2) = 0%float
      /\ Snap.isScrolling (Snap.scrollState s2) = true)
  /\ (let s3 := Snap.wheelTimeoutCallback c s1 in
      Snap.react s3 = Snap.react s
      /\ Snap.accumulatedDelta (Snap.scrollState s3) = 0%float
      /\ Snap.wheelTimeout s3 = false
      /\ settledCard c s3).
Proof.
  cbv zeta. intros Hs Hidx Hlow.
  destruct (wheelGesture_below (Snap.react s) cardHeight wheels s Hs Hlow)
    as (Hr & Hv & Ht & Hsc & Hacc & Hstyle).
  set (s1 := wheelGesture (Snap.react s) cardHeight wheels s) in *.
  clearbody s1. set (c := Snap.react s) in *.
  set (acc := foldl PrimFloat.add _ _) in *.
  pose proof (getCardByIndex_current c Hidx) as Hcard.
  split; [done|]. split; [|split].
  - intros Hne. destruct (Hstyle Hne) as [_ Hst]. by apply Hst.
  - intros Hcross Hin.
    assert (Hne : Snap.currentIndex c
                  + (if (0 <? acc + deltaY)%float then 1 else -1)
                  ≠ Snap.currentIndex c)
      by (destruct (0 <? acc + deltaY)%float; lia).
    unfold Snap.handleWheel. rewrite Hsc. cbv zeta. scroll_cells.
    rewrite Hacc, Hcross, Hin.
    match goal with
    | |- context [Snap.snapToIndex c ?n false ?t] =>
        destruct (snapToIndex_next_cells c n t Hin Hne) as (Hi & Hsn & _)
    end.
    scroll_cells. cells. by rewrite Hi, Hsn.
  - unfold Snap.wheelTimeoutCallback. rewrite Hsc, Hcard. cbn [negb].
    cbn [Snap.styleCard]. scroll_cells. cells. rewrite Hr.
    repeat split; try done.
    unfold settledCard. cells. eexists. rewrite lookup_insert_eq.
    split; reflexivity.
Qed.

(** Eighty deltas of 0.1 on a card of height 800: their sum as the code
    computes it is below the threshold 8. *)
Lemma wheel_deltas_accumulate_witness :
  let s := Snap.run (API_KEY None)
             [Snap.Fetched (Responded true 200 "OK"%string fullPage);
              Snap.SnapTimeout] in
  let s1 := wheelGesture (Snap.react s) 800 (repeat (0.1%float, 0) 80) s in
  Snap.accumulatedDelta (Snap.scrollState s1) = 7.9999999999999876%float
  /\ Snap.currentIndex (Snap.react s1) = 0.
Proof.
  pose proof (wheel_deltas_accumulate (repeat (0.1%float, 0) 80) 1 30 800
                (Snap.run (API_KEY None)
                   [Snap.Fetched (Responded true 200 "OK"%string fullPage);
                    Snap.SnapTimeout])) as H.
  cbv zeta in H.
  destruct H as ((Hr & _ & Hacc) & _).
  - vm_compute. reflexivity.
  - vm_compute. split; [discriminate|reflexivity].
  - vm_compute. reflexivity.
  - cbv zeta. rewrite Hacc, Hr. split; vm_compute; reflexivity.
Defined.

(* ===================================================================== *)
(** * The IntersectionObserver callback                                   *)
(* ===================================================================== *)

Lemma observerBody_lookup (unmuted : option Z) (s : Observer.State)
    (entry : Observer.Entry) (k : Z) :
  Observer.videoRefs (Observer.observerBody unmuted s entry) !! k
  = if decide (k = Observer.videoId entry)
    then entryEffect unmuted entry <$> Observer.videoRefs s !! k
    else Observer.videoRefs s !! k.
Proof.
  unfold Observer.observerBody, entryEffect.
  destruct (decide (k = Observer.videoId entry)) as [->|Hne];
    destruct (Observer.visible entry); cbn [Observer.videoRefs];
    destruct (Observer.videoRefs s !! Observer.videoId entry) eqn:He;
    cbn [Observer.videoRefs]; rewrite ?He; try reflexivity;
    try destruct (bool_decide (unmuted = Some (Observer.videoId entry)));
    cbn [Observer.videoRefs];
    rewrite ?lookup_alter_eq, ?lookup_alter_ne by done;
    rewrite ?He; reflexivity.
Qed.

Lemma observerBody_cells (unmuted : option Z) (s : Observer.State)
    (entry : Observer.Entry) :
  let s' := Observer.observerBody unmuted s entry in
  Observer.currentIndex s'
  = (if Observer.visible entry then Observer.cardIndex entry
     else Observer.currentIndex s)
  /\ Observer.unmutedVideoId s'
     = (if takesAudio unmuted (Observer.videoRefs s) entry then None
        else Observer.unmutedVideoId s).
Proof.
  cbv zeta. unfold Observer.observerBody, takesAudio.
  destruct (Observer.visible entry); cbn [negb andb Observer.videoRefs].
  - by destruct (Observer.videoRefs s !! Observer.videoId entry).
  - destruct (Observer.videoRefs s !! Observer.videoId entry) eqn:He.
    + rewrite (bool_decide_eq_true_2 (is_Some (Some v))) by eauto.
      rewrite andb_true_r.
      by destruct (bool_decide (unmuted = Some (Observer.videoId entry))).
    + rewrite (bool_decide_eq_false_2 (is_Some None)) by (by intros [? ?]).
      by rewrite andb_false_r.
Qed.

Lemma observerCallback_dom (unmuted : option Z)
    (entries : list Observer.Entry) (s : Observer.State) (k : Z) :
  is_Some (Observer.videoRefs (Observer.observerCallback unmuted entries s) !! k)
  <-> is_Some (Observer.videoRefs s !! k).
Proof.
  unfold Observer.observerCallback.
  induction entries as [|entry entries IH] using rev_ind; [done|].
  rewrite foldl_app. cbn [foldl]. rewrite observerBody_lookup.
  destruct (decide _); [|exact IH].
  rewrite fmap_is_Some. exact IH.
Qed.

(** One batch of entries of the observer. The callback neither registers
    nor removes an element and never unmutes one. An element no entry
    names is untouched; otherwise the last entry for its card decides: it
    plays when that entry is visible (intersecting, ratio at least 0.75),
    and is paused at time 0 when it is not. The index becomes the card of
    the last visible entry, and the unmuted video is forgotten exactly
    when an entry reports its card as not visible. *)
Theorem observer_last_entry_decides (unmuted : option Z)
    (entries : list Observer.Entry) (s : Observer.State) :
  let s' := Observer.observerCallback unmuted entries s in
  (forall k, is_Some (Observer.videoRefs s' !! k)
             <-> is_Some (Observer.videoRefs s !! k))
  /\ (forall k e, Observer.videoRefs s !! k = Some e ->
        exists e',
          Observer.videoRefs s' !! k = Some e'
          /\ (muted e = true -> muted e' = true)
          /\ match last (filter (fun entry => Observer.videoId entry = k) entries) with
             | None => e' = e
             | Some entry =>
                 if Observer.visible entry then paused e' = false
                 else paused e' = true /\ currentTime e' = 0
             end)
  /\ Observer.currentIndex s'
     = match last (filter (fun entry => Observer.visible entry = true) entries) with
       | Some entry => Observer.cardIndex entry
       | None => Observer.currentIndex s
       end
  /\ Observer.unmutedVideoId s'
     = (if existsb (takesAudio unmuted (Observer.videoRefs s)) entries
        then None else Observer.unmutedVideoId s).
Proof.
  cbv zeta. split; [intros k; apply observerCallback_dom|].
  unfold Observer.observerCallback.
  induction entries as [|entry entries IH] using rev_ind.
  - cbn. split; [|done]. intros k e He. exists e. done.
  - destruct IH as (IHe & IHi & IHu).
    rewrite foldl_app. cbn [foldl].
    set (s1 := foldl (Observer.observerBody unmuted) s entries) in *.
    destruct (observerBody_cells unmuted s1 entry) as [Hi Hu].
    split; [|split].
    + intros k e He. destruct (IHe k e He) as (e1 & He1 & Hm1 & Hl1).
      rewrite observerBody_lookup, filter_app.
      destruct (decide (k = Observer.videoId entry)) as [->|Hne].
      * rewrite filter_cons_True, filter_nil by done. rewrite last_snoc.
        rewrite He1. cbn [fmap option_fmap option_map].
        eexists. split; [reflexivity|]. unfold entryEffect.
        destruct (Observer.visible entry).
        -- split; [exact Hm1|reflexivity].
        -- destruct (bool_decide _); cbn; split; try done.
      * rewrite filter_cons_False, filter_nil, app_nil_r by done.
        exists e1. done.
    + rewrite Hi, filter_app.
      destruct (Observer.visible entry) eqn:Hvis.
      * rewrite filter_cons_True, filter_nil by done. by rewrite last_snoc.
      * rewrite filter_cons_False, filter_nil, app_nil_r by (by rewrite Hvis).
        exact IHi.
    + rewrite Hu, existsb_app. cbn [existsb]. rewrite orb_false_r.
      assert (Hsame : takesAudio unmuted (Observer.videoRefs s1) entry
                      = takesAudio unmuted (Observer.videoRefs s) entry).
      { unfold takesAudio. f_equal. apply bool_decide_ext.
        apply (observerCallback_dom unmuted entries s). }
      rewrite Hsame, IHu.
      by destruct (existsb _ entries),
                  (takesAudio unmuted (Observer.videoRefs s) entry).
Qed.
